(** * ASM_Fixer: a shallow embedding of [asm_fixer.py]

    The formatter reads an assembly source file line by line, classifies
    every line into a token (a Python dict), normalises and measures the
    tokens in one indexed pass, renders them to lines and prints them,
    wrapping lines that are too wide.

    The embedding follows [main] pass by pass.  Python strings are
    [string]s of 8-bit characters (the input is taken to be ASCII text),
    Python integers are [Z], a dict with a fixed set of possible keys is a
    record of optional fields, a raised exception is [None]. *)

From Stdlib Require Import ZArith Ascii String List Lia Bool.
From stdpp Require Import base tactics option list strings.

Local Open Scope string_scope.
Local Open Scope Z_scope.

(** ** Python string primitives *)

Module Py.

Definition len (s : string) : Z := Z.of_nat (String.length s).

(** [str.isspace] on one ASCII character: TAB..CR, FS..US and SPACE. *)
Definition isspace (c : ascii) : bool :=
  let n := N_of_ascii c in
  (((9 <=? n) && (n <=? 13)) || ((28 <=? n) && (n <=? 32)))%N.

Fixpoint lstrip (s : string) : string :=
  match s with
  | String c s' => if isspace c then lstrip s' else s
  | EmptyString => EmptyString
  end.

Fixpoint rstrip (s : string) : string :=
  match s with
  | EmptyString => EmptyString
  | String c s' =>
      match rstrip s' with
      | EmptyString => if isspace c then EmptyString else String c EmptyString
      | r => String c r
      end
  end.

Definition strip (s : string) : string := rstrip (lstrip s).

Definition lower_chr (c : ascii) : ascii :=
  let n := N_of_ascii c in
  if ((65 <=? n) && (n <=? 90))%N then ascii_of_N (n + 32) else c.

Definition upper_chr (c : ascii) : ascii :=
  let n := N_of_ascii c in
  if ((97 <=? n) && (n <=? 122))%N then ascii_of_N (n - 32) else c.

Fixpoint map_chr (f : ascii → ascii) (s : string) : string :=
  match s with
  | EmptyString => EmptyString
  | String c s' => String (f c) (map_chr f s')
  end.

Definition lower : string → string := map_chr lower_chr.
Definition upper : string → string := map_chr upper_chr.

Fixpoint take (n : nat) (s : string) : string :=
  match n, s with
  | S n', String c s' => String c (take n' s')
  | _, _ => EmptyString
  end.

Fixpoint drop (n : nat) (s : string) : string :=
  match n, s with
  | S n', String _ s' => drop n' s'
  | _, _ => s
  end.

(** A slice bound as Python normalises it: a negative bound counts from
    the end, and every bound is clamped to [0, len]. *)
Definition norm_index (n i : Z) : Z :=
  if i <? 0 then Z.max 0 (i + n) else Z.min i n.

(** [s[lo:hi]]; an omitted bound is [None]. *)
Definition slice (s : string) (lo hi : option Z) : string :=
  let n := len s in
  let a := from_option (norm_index n) 0 lo in
  let b := from_option (norm_index n) n hi in
  take (Z.to_nat (b - a)) (drop (Z.to_nat a) s).

Fixpoint find_from (sub s : string) (i : Z) : Z :=
  if String.prefix sub s then i
  else match s with
       | EmptyString => -1
       | String _ s' => find_from sub s' (i + 1)
       end.

(** [s.find(sub)]: the lowest index of [sub], or -1. *)
Definition find (s sub : string) : Z := find_from sub s 0.

Fixpoint rfind_from (sub s : string) (i lo hi : Z) : Z :=
  let here :=
    if String.prefix sub s && (lo <=? i) && (i + len sub <=? hi)
    then i else -1 in
  match s with
  | EmptyString => here
  | String _ s' =>
      let r := rfind_from sub s' (i + 1) lo hi in
      if 0 <=? r then r else here
  end.

(** [s.rfind(sub, lo, hi)]: the highest index at which [sub] lies within
    [s[lo:hi]], or -1. *)
Definition rfind (s sub : string) (lo hi : Z) : Z :=
  rfind_from sub s 0 (norm_index (len s) lo) (norm_index (len s) hi).

(** [s.startswith(p, start)]. *)
Definition startswith (s p : string) (start : Z) : bool :=
  String.prefix p (slice s (Some start) None).

Fixpoint spaces_nat (n : nat) : string :=
  match n with
  | O => EmptyString
  | S n' => String " " (spaces_nat n')
  end.

(** [' ' * n]; a negative count gives the empty string. *)
Definition spaces (n : Z) : string := spaces_nat (Z.to_nat n).

Definition ljust (s : string) (w : Z) : string := s +:+ spaces (w - len s).
Definition rjust (s : string) (w : Z) : string := spaces (w - len s) +:+ s.

Fixpoint join (sep : string) (l : list string) : string :=
  match l with
  | [] => EmptyString
  | [x] => x
  | x :: rest => x +:+ sep +:+ join sep rest
  end.

(** [s.replace(c, by)] for a one-character [c]. *)
Fixpoint replace_chr (c : ascii) (by_ : string) (s : string) : string :=
  match s with
  | EmptyString => EmptyString
  | String d s' =>
      if Ascii.eqb c d then by_ +:+ replace_chr c by_ s'
      else String d (replace_chr c by_ s')
  end.

End Py.

(** ** Regular expressions, as [re] matches them

    A backtracking matcher in the order [re] tries the alternatives:
    the left branch of [|] first, one more iteration of a repetition
    before leaving it.  Every repeated sub-pattern of the program consumes
    at least one character, which is what the loop below relies on. *)

Module Re.

Inductive item :=
| Range (lo hi : ascii)
| One (c : ascii).

Inductive regex :=
| Eps
| Lit (c : ascii)
| Class (items : list item)
| Dot
| Bol
| Seq (r1 r2 : regex)
| Alt (r1 r2 : regex)
| Star (r : regex)
| Group (n : nat) (r : regex).

Definition Plus (r : regex) : regex := Seq r (Star r).
Definition Opt (r : regex) : regex := Alt r Eps.

Fixpoint Str (s : string) : regex :=
  match s with
  | EmptyString => Eps
  | String c EmptyString => Lit c
  | String c s' => Seq (Lit c) (Str s')
  end.

Definition in_item (c : ascii) (it : item) : bool :=
  match it with
  | Range lo hi => ((N_of_ascii lo <=? N_of_ascii c) && (N_of_ascii c <=? N_of_ascii hi))%N
  | One d => Ascii.eqb d c
  end.

Definition in_items (items : list item) (c : ascii) : bool :=
  existsb (in_item c) items.

(** With IGNORECASE a character matches when it or its other case does. *)
Definition in_class (ic : bool) (items : list item) (c : ascii) : bool :=
  in_items items c
  || (ic && (in_items items (Py.lower_chr c) || in_items items (Py.upper_chr c))).

Definition chr_eq (ic : bool) (c d : ascii) : bool :=
  if ic then Ascii.eqb (Py.lower_chr c) (Py.lower_chr d) else Ascii.eqb c d.

Definition captures := list (nat * string).

Fixpoint rmatch {A : Type} (ic : bool) (r : regex) (pos : nat) (s : string)
    (caps : captures) (k : nat → string → captures → option A) {struct r}
    : option A :=
  match r with
  | Eps => k pos s caps
  | Lit c =>
      match s with
      | String d s' => if chr_eq ic c d then k (S pos) s' caps else None
      | EmptyString => None
      end
  | Class items =>
      match s with
      | String d s' => if in_class ic items d then k (S pos) s' caps else None
      | EmptyString => None
      end
  | Dot =>
      match s with
      | String d s' => if Ascii.eqb d "010" then None else k (S pos) s' caps
      | EmptyString => None
      end
  | Bol => if (pos =? 0)%nat then k pos s caps else None
  | Seq r1 r2 =>
      rmatch ic r1 pos s caps (fun p s' c => rmatch ic r2 p s' c k)
  | Alt r1 r2 =>
      match rmatch ic r1 pos s caps k with
      | Some x => Some x
      | None => rmatch ic r2 pos s caps k
      end
  | Star r1 =>
      (fix loop (fuel : nat) (pos : nat) (s : string) (caps : captures)
         : option A :=
         match fuel with
         | O => k pos s caps
         | S fuel' =>
             match rmatch ic r1 pos s caps
                     (fun p s' c =>
                        if (pos <? p)%nat then loop fuel' p s' c else None)
             with
             | Some x => Some x
             | None => k pos s caps
             end
         end) (S (String.length s)) pos s caps
  | Group n r1 =>
      rmatch ic r1 pos s caps
        (fun p s' c => k p s' ((n, Py.take (p - pos) s) :: c))
  end.

(** A match object: where the match lies, its text and its groups. *)
Record mobj := {
  m_start : nat;
  m_end : nat;
  m_text : string;
  m_caps : captures
}.

Definition at_pos (ic : bool) (r : regex) (pos : nat) (s : string) : option mobj :=
  rmatch ic r pos s []
    (fun p _ c =>
       Some {| m_start := pos; m_end := p;
               m_text := Py.take (p - pos) s; m_caps := c |}).

(** [re.match(r, s)]. *)
Definition match_ (ic : bool) (r : regex) (s : string) : option mobj :=
  at_pos ic r 0 s.

Fixpoint search_from (ic : bool) (r : regex) (pos : nat) (s : string)
    : option mobj :=
  match at_pos ic r pos s with
  | Some m => Some m
  | None =>
      match s with
      | EmptyString => None
      | String _ s' => search_from ic r (S pos) s'
      end
  end.

(** [re.search(r, s)]: the leftmost match. *)
Definition search (ic : bool) (r : regex) (s : string) : option mobj :=
  search_from ic r 0 s.

(** [m.group(n)] for [n >= 1]; [None] is Python's None (the group took
    no part in the match). *)
Fixpoint lookup_cap (n : nat) (c : captures) : option string :=
  match c with
  | [] => None
  | (m, v) :: rest => if (m =? n)%nat then Some v else lookup_cap n rest
  end.

Definition group (m : mobj) (n : nat) : option string :=
  match n with
  | O => Some (m_text m)
  | _ => lookup_cap n (m_caps m)
  end.

Fixpoint split_go (r : regex) (fuel pos : nat) (s piece : string)
    : list string :=
  match fuel with
  | O => [piece +:+ s]
  | S fuel' =>
      match s with
      | EmptyString => [piece]
      | String c s' =>
          match rmatch false r pos s []
                  (fun p rest _ =>
                     if (pos <? p)%nat then Some (p, rest) else None)
          with
          | Some (p, rest) => piece :: split_go r fuel' p rest EmptyString
          | None => split_go r fuel' (S pos) s' (piece +:+ String c EmptyString)
          end
      end
  end.

(** [re.split(r, s)] for a pattern without groups that matches no empty
    string. *)
Definition split (r : regex) (s : string) : list string :=
  split_go r (S (String.length s)) 0 s EmptyString.

End Re.

(** ** Configuration *)

(** The options of the configuration file, with the types the program
    uses them at. *)
Record config := {
  fix_indents : bool;
  tab_size : Z;
  fix_file_width : bool;
  file_width : Z;
  long_comment_indent_amount : Z;
  fix_capitalization : bool;
  fix_blank_lines : bool;
  align_comments : bool;
  align_data_comments : bool;
  align_data_comments_separately : bool;
  min_comment_spacing : Z;
  align_code_section : bool;
  min_instruction_operand_spacing : Z;
  add_spaces_between_operands : bool;
  align_data_section : bool;
  align_code_and_data_together : bool;
  min_data_directive_spacing : Z;
  min_data_initial_value_spacing : Z;
  add_spaces_between_initial_values : bool;
  align_header_comments : bool
}.

Definition DEFAULT_CONFIG : config := {|
  fix_indents := true;
  tab_size := 2;
  fix_file_width := true;
  file_width := 80;
  long_comment_indent_amount := 2;
  fix_capitalization := true;
  fix_blank_lines := true;
  align_comments := true;
  align_data_comments := true;
  align_data_comments_separately := true;
  min_comment_spacing := 3;
  align_code_section := true;
  min_instruction_operand_spacing := 3;
  add_spaces_between_operands := true;
  align_data_section := true;
  align_code_and_data_together := false;
  min_data_directive_spacing := 2;
  min_data_initial_value_spacing := 2;
  add_spaces_between_initial_values := true;
  align_header_comments := true
|}.

Definition set_file_width (w : Z) (c : config) : config := {|
  fix_indents := fix_indents c;
  tab_size := tab_size c;
  fix_file_width := fix_file_width c;
  file_width := w;
  long_comment_indent_amount := long_comment_indent_amount c;
  fix_capitalization := fix_capitalization c;
  fix_blank_lines := fix_blank_lines c;
  align_comments := align_comments c;
  align_data_comments := align_data_comments c;
  align_data_comments_separately := align_data_comments_separately c;
  min_comment_spacing := min_comment_spacing c;
  align_code_section := align_code_section c;
  min_instruction_operand_spacing := min_instruction_operand_spacing c;
  add_spaces_between_operands := add_spaces_between_operands c;
  align_data_section := align_data_section c;
  align_code_and_data_together := align_code_and_data_together c;
  min_data_directive_spacing := min_data_directive_spacing c;
  min_data_initial_value_spacing := min_data_initial_value_spacing c;
  add_spaces_between_initial_values := add_spaces_between_initial_values c;
  align_header_comments := align_header_comments c
|}.

Definition set_fix_file_width (b : bool) (c : config) : config := {|
  fix_indents := fix_indents c;
  tab_size := tab_size c;
  fix_file_width := b;
  file_width := file_width c;
  long_comment_indent_amount := long_comment_indent_amount c;
  fix_capitalization := fix_capitalization c;
  fix_blank_lines := fix_blank_lines c;
  align_comments := align_comments c;
  align_data_comments := align_data_comments c;
  align_data_comments_separately := align_data_comments_separately c;
  min_comment_spacing := min_comment_spacing c;
  align_code_section := align_code_section c;
  min_instruction_operand_spacing := min_instruction_operand_spacing c;
  add_spaces_between_operands := add_spaces_between_operands c;
  align_data_section := align_data_section c;
  align_code_and_data_together := align_code_and_data_together c;
  min_data_directive_spacing := min_data_directive_spacing c;
  min_data_initial_value_spacing := min_data_initial_value_spacing c;
  add_spaces_between_initial_values := add_spaces_between_initial_values c;
  align_header_comments := align_header_comments c
|}.

(** The assignment
    [config['min_instruction_operand_spacing'] =
     config['min_data_directive_spacing'] = v]. *)
Definition set_spacings (v : Z) (c : config) : config := {|
  fix_indents := fix_indents c;
  tab_size := tab_size c;
  fix_file_width := fix_file_width c;
  file_width := file_width c;
  long_comment_indent_amount := long_comment_indent_amount c;
  fix_capitalization := fix_capitalization c;
  fix_blank_lines := fix_blank_lines c;
  align_comments := align_comments c;
  align_data_comments := align_data_comments c;
  align_data_comments_separately := align_data_comments_separately c;
  min_comment_spacing := min_comment_spacing c;
  align_code_section := align_code_section c;
  min_instruction_operand_spacing := v;
  add_spaces_between_operands := add_spaces_between_operands c;
  align_data_section := align_data_section c;
  align_code_and_data_together := align_code_and_data_together c;
  min_data_directive_spacing := v;
  min_data_initial_value_spacing := min_data_initial_value_spacing c;
  add_spaces_between_initial_values := add_spaces_between_initial_values c;
  align_header_comments := align_header_comments c
|}.

(** ** Tokens *)

(** The values of a token's ['type'] and ['subtype'] keys. *)
Inductive ttype :=
| blank_line | comment | directive | data | procedure | instruction
| error | to_remove.

Inductive tsubtype := extension | header | full_line.

Global Instance ttype_eq_dec : EqDecision ttype.
Proof. solve_decision. Defined.
Global Instance tsubtype_eq_dec : EqDecision tsubtype.
Proof. solve_decision. Defined.

(** A value that is a string or Python's None. *)
Inductive pyopt := PyNone | PyStr (s : string).

(** A token is a dict; each key it may hold is an optional field
    ([None]: the key is absent). *)
Record token := {
  tk_type : ttype;
  tk_subtype : option tsubtype;
  tk_field : option string;
  tk_value : option pyopt;
  tk_comment : option pyopt;
  tk_label : option string;
  tk_directive : option string;
  tk_mnemonic : option string;
  tk_operands : option pyopt;
  tk_error : option string;
  tk_indent : option string
}.

Definition mk_token (ty : ttype) : token := {|
  tk_type := ty; tk_subtype := None; tk_field := None; tk_value := None;
  tk_comment := None; tk_label := None; tk_directive := None;
  tk_mnemonic := None; tk_operands := None; tk_error := None;
  tk_indent := None
|}.

Definition set_type (ty : ttype) (t : token) : token := {|
  tk_type := ty; tk_subtype := tk_subtype t; tk_field := tk_field t;
  tk_value := tk_value t; tk_comment := tk_comment t; tk_label := tk_label t;
  tk_directive := tk_directive t; tk_mnemonic := tk_mnemonic t;
  tk_operands := tk_operands t; tk_error := tk_error t;
  tk_indent := tk_indent t
|}.

Definition set_subtype (x : tsubtype) (t : token) : token := {|
  tk_type := tk_type t; tk_subtype := Some x; tk_field := tk_field t;
  tk_value := tk_value t; tk_comment := tk_comment t; tk_label := tk_label t;
  tk_directive := tk_directive t; tk_mnemonic := tk_mnemonic t;
  tk_operands := tk_operands t; tk_error := tk_error t;
  tk_indent := tk_indent t
|}.

Definition set_field (x : string) (t : token) : token := {|
  tk_type := tk_type t; tk_subtype := tk_subtype t; tk_field := Some x;
  tk_value := tk_value t; tk_comment := tk_comment t; tk_label := tk_label t;
  tk_directive := tk_directive t; tk_mnemonic := tk_mnemonic t;
  tk_operands := tk_operands t; tk_error := tk_error t;
  tk_indent := tk_indent t
|}.

Definition set_value (x : pyopt) (t : token) : token := {|
  tk_type := tk_type t; tk_subtype := tk_subtype t; tk_field := tk_field t;
  tk_value := Some x; tk_comment := tk_comment t; tk_label := tk_label t;
  tk_directive := tk_directive t; tk_mnemonic := tk_mnemonic t;
  tk_operands := tk_operands t; tk_error := tk_error t;
  tk_indent := tk_indent t
|}.

Definition set_comment (x : pyopt) (t : token) : token := {|
  tk_type := tk_type t; tk_subtype := tk_subtype t; tk_field := tk_field t;
  tk_value := tk_value t; tk_comment := Some x; tk_label := tk_label t;
  tk_directive := tk_directive t; tk_mnemonic := tk_mnemonic t;
  tk_operands := tk_operands t; tk_error := tk_error t;
  tk_indent := tk_indent t
|}.

Definition set_label (x : string) (t : token) : token := {|
  tk_type := tk_type t; tk_subtype := tk_subtype t; tk_field := tk_field t;
  tk_value := tk_value t; tk_comment := tk_comment t; tk_label := Some x;
  tk_directive := tk_directive t; tk_mnemonic := tk_mnemonic t;
  tk_operands := tk_operands t; tk_error := tk_error t;
  tk_indent := tk_indent t
|}.

Definition set_directive (x : string) (t : token) : token := {|
  tk_type := tk_type t; tk_subtype := tk_subtype t; tk_field := tk_field t;
  tk_value := tk_value t; tk_comment := tk_comment t; tk_label := tk_label t;
  tk_directive := Some x; tk_mnemonic := tk_mnemonic t;
  tk_operands := tk_operands t; tk_error := tk_error t;
  tk_indent := tk_indent t
|}.

Definition set_mnemonic (x : string) (t : token) : token := {|
  tk_type := tk_type t; tk_subtype := tk_subtype t; tk_field := tk_field t;
  tk_value := tk_value t; tk_comment := tk_comment t; tk_label := tk_label t;
  tk_directive := tk_directive t; tk_mnemonic := Some x;
  tk_operands := tk_operands t; tk_error := tk_error t;
  tk_indent := tk_indent t
|}.

Definition set_operands (x : pyopt) (t : token) : token := {|
  tk_type := tk_type t; tk_subtype := tk_subtype t; tk_field := tk_field t;
  tk_value := tk_value t; tk_comment := tk_comment t; tk_label := tk_label t;
  tk_directive := tk_directive t; tk_mnemonic := tk_mnemonic t;
  tk_operands := Some x; tk_error := tk_error t;
  tk_indent := tk_indent t
|}.

Definition set_error (x : string) (t : token) : token := {|
  tk_type := tk_type t; tk_subtype := tk_subtype t; tk_field := tk_field t;
  tk_value := tk_value t; tk_comment := tk_comment t; tk_label := tk_label t;
  tk_directive := tk_directive t; tk_mnemonic := tk_mnemonic t;
  tk_operands := tk_operands t; tk_error := Some x;
  tk_indent := tk_indent t
|}.

Definition set_indent (x : string) (t : token) : token := {|
  tk_type := tk_type t; tk_subtype := tk_subtype t; tk_field := tk_field t;
  tk_value := tk_value t; tk_comment := tk_comment t; tk_label := tk_label t;
  tk_directive := tk_directive t; tk_mnemonic := tk_mnemonic t;
  tk_operands := tk_operands t; tk_error := tk_error t;
  tk_indent := Some x
|}.

(** ** The classifier: one token per line *)

Module Pat.
Import Re.

Definition TAB : ascii := "009"%char.
Definition QUOTE : ascii := "034"%char.

Definition blank : regex := Class [One " "; One TAB].
Definition alnum : list item := [Range "a" "z"; Range "A" "Z"; Range "0" "9"].

(** [^[ \t]*] *)
Definition indent_re : regex := Seq Bol (Star blank).

(** [;.*(Author|Assignment|Date).*:] *)
Definition header_re : regex :=
  Seq (Lit ";")
    (Seq (Star Dot)
       (Seq (Group 1 (Alt (Str "Author") (Alt (Str "Assignment") (Str "Date"))))
          (Seq (Star Dot) (Lit ":")))).

(** [\.?([a-zA-Z0-9.] ?)+] *)
Definition directive_re : regex :=
  Seq (Opt (Lit "."))
    (Plus (Group 1 (Seq (Class (alnum ++ [One "."])) (Opt (Lit " "))))).

(** [([a-zA-Z_][a-zA-Z0-9_]+)[ \t]+(BYTE|D?Q?WORD)[ \t]+(([0-9a-zA-Z,()?] ?|".+")+)] *)
Definition data_re : regex :=
  Seq (Group 1
         (Seq (Class [Range "a" "z"; Range "A" "Z"; One "_"])
            (Plus (Class (alnum ++ [One "_"])))))
    (Seq (Plus blank)
       (Seq (Group 2
               (Alt (Str "BYTE")
                  (Seq (Opt (Lit "D")) (Seq (Opt (Lit "Q")) (Str "WORD")))))
          (Seq (Plus blank)
             (Group 3
                (Plus
                   (Group 4
                      (Alt
                         (Seq (Class [Range "0" "9"; Range "a" "z"; Range "A" "Z";
                                      One ","; One "("; One ")"; One "?"])
                            (Opt (Lit " ")))
                         (Seq (Lit QUOTE) (Seq (Plus Dot) (Lit QUOTE)))))))))).

(** The pattern of the procedure rule: group 1 is [[a-zA-Z_]] and then
    [[a-zA-Z0-9_]] any number of times (starred, so possibly none), then
    [[ \t]+], then group 2, [(PROC|ENDP)]. *)
Definition procedure_re : regex :=
  Seq (Group 1
         (Seq (Class [Range "a" "z"; Range "A" "Z"; One "_"])
            (Star (Class (alnum ++ [One "_"])))))
    (Seq (Plus blank) (Group 2 (Alt (Str "PROC") (Str "ENDP")))).

(** The pattern of the instruction rule: [^], group 1 is [[a-zA-Z]] and
    then [[a-zA-Z0-9]] starred, and an optional group 2,
    [([ \t]+(([0-9a-zA-Z,] ?)+))?], whose operand list is group 3. *)
Definition instruction_re : regex :=
  Seq Bol
    (Seq (Group 1 (Seq (Class [Range "a" "z"; Range "A" "Z"]) (Star (Class alnum))))
       (Opt (Group 2
               (Seq (Plus blank)
                  (Group 3
                     (Plus
                        (Group 4
                           (Seq (Class [Range "0" "9"; Range "a" "z"; Range "A" "Z";
                                        One ","])
                              (Opt (Lit " ")))))))))).

(** [, ?] *)
Definition comma_re : regex := Seq (Lit ",") (Opt (Lit " ")).

End Pat.

(** [re.IGNORECASE], the integer: [line.startswith('END', re.IGNORECASE)]
    passes it as the position to start the comparison at. *)
Definition IGNORECASE : Z := 2.

(** [line[line.find(';') + 2:] if line.find(';') > 0 else None] *)
Definition trailing_comment (line : string) : pyopt :=
  if 0 <? Py.find line ";"
  then PyStr (Py.slice line (Some (Py.find line ";" + 2)) None)
  else PyNone.

(** [g.strip() if g is not None else None] *)
Definition strip_group (g : option string) : pyopt :=
  match g with
  | Some x => PyStr (Py.strip x)
  | None => PyNone
  end.

(** The body of the loop over the lines, up to the token's ['indent'].
    [None] is the exception of [re.match(...).group(0)] when the directive
    pattern does not match. *)
Definition classify_line (line : string) : option token :=
  if (Py.len line =? 0) then
    Some (mk_token blank_line)
  else if Py.startswith line ";  " 0 then
    Some (set_value (PyStr (Py.strip (Py.slice line (Some 1) None)))
            (set_subtype extension (mk_token comment)))
  else if bool_decide (is_Some (Re.search true Pat.header_re line)) then
    Some (set_value
            (PyStr (Py.strip (Py.slice line (Some (Py.find line ":" + 1)) None)))
            (set_field (Py.strip (Py.slice line (Some 1) (Some (Py.find line ":"))))
               (set_subtype header (mk_token comment))))
  else if Py.startswith line ";" 0 then
    Some (set_value (PyStr (Py.strip (Py.slice line (Some 1) None)))
            (set_subtype full_line (mk_token comment)))
  else if Py.startswith line "." 0 || Py.startswith line "INCLUDE" 0
          || Py.startswith line "END" IGNORECASE then
    (m ← Re.match_ false Pat.directive_re line;
    Some (set_comment (trailing_comment line)
            (set_value (PyStr (Py.strip (Re.m_text m))) (mk_token directive))))
  else if bool_decide (is_Some (Re.search true (Re.Seq Re.Bol Pat.data_re) line)) then
    (m ← Re.search true Pat.data_re line;
    label ← Re.group m 1;
    size ← Re.group m 2;
    Some (set_comment (trailing_comment line)
            (set_value (strip_group (Re.group m 3))
               (set_directive size (set_label label (mk_token data))))))
  else if bool_decide (is_Some (Re.search false (Re.Seq Re.Bol Pat.procedure_re) line)) then
    (m ← Re.search false Pat.procedure_re line;
    label ← Re.group m 1;
    kind ← Re.group m 2;
    Some (set_comment (trailing_comment line)
            (set_value (PyStr kind) (set_label label (mk_token procedure)))))
  else if bool_decide (is_Some (Re.search false Pat.instruction_re line)) then
    (m ← Re.search false Pat.instruction_re line;
    mnemonic ← Re.group m 1;
    Some (set_comment (trailing_comment line)
            (set_operands (strip_group (Re.group m 3))
               (set_mnemonic mnemonic (mk_token instruction)))))
  else
    Some (set_value (PyStr line)
            (set_error "Unrecognized Token" (mk_token error))).

(** The indentation of a raw line, tabs spelled out. *)
Definition line_indent (cfg : config) (raw : string) : string :=
  match Re.match_ false Pat.indent_re raw with
  | Some m => Py.replace_chr Pat.TAB (Py.spaces (tab_size cfg)) (Re.m_text m)
  | None => EmptyString
  end.

Definition classify (cfg : config) (raw : string) : option token :=
  t ← classify_line (Py.strip raw);
  Some (if fix_indents cfg then t else set_indent (line_indent cfg raw) t).

(** The loop over the lines: [tokens.append] for each. *)
Fixpoint tokenize (cfg : config) (lines : list string) : option (list token) :=
  match lines with
  | [] => Some []
  | raw :: rest =>
      t ← classify cfg raw;
      ts ← tokenize cfg rest;
      Some (t :: ts)
  end.

Definition NL : string := String "010" EmptyString.

(** ** The aggregator: the indexed pass over the tokens *)

(** What [print] shows for an unrecognised line, before colouring. *)
Record diagnostic := {
  d_line : Z;
  d_message : string;
  d_text : string
}.

Record agg := {
  tokens : list token;
  max_field_size : Z;
  max_label_size : Z;
  max_size_size : Z;
  max_mnemonic_size : Z;
  diagnostics : list diagnostic
}.

Definition with_tokens (toks : list token) (a : agg) : agg := {|
  tokens := toks;
  max_field_size := max_field_size a;
  max_label_size := max_label_size a;
  max_size_size := max_size_size a;
  max_mnemonic_size := max_mnemonic_size a;
  diagnostics := diagnostics a
|}.

Definition agg_init (toks : list token) : agg := {|
  tokens := toks; max_field_size := 0; max_label_size := 0;
  max_size_size := 0; max_mnemonic_size := 0; diagnostics := []
|}.

(** A value used where only a string works (None raises TypeError). *)
Definition as_str (v : pyopt) : option string :=
  match v with
  | PyStr x => Some x
  | PyNone => None
  end.

(** [v or ''] *)
Definition or_empty (v : pyopt) : string :=
  match v with
  | PyStr x => x
  | PyNone => EmptyString
  end.

(** [', '.join(re.split(', ?', v))] *)
Definition respace_commas (v : string) : string :=
  Py.join ", " (Re.split Pat.comma_re v).

(** Lines 186-191: a comment extension is appended to the token before
    it and marked for removal. *)
Definition merge_extension (cfg : config) (i : nat) (toks : list token)
    : option (list token) :=
  ti ← toks !! i;
  if fix_file_width cfg && (0 <? i)%nat && bool_decide (tk_type ti = comment) then
    sub ← tk_subtype ti;
    if bool_decide (sub = extension) then
      tp ← toks !! (i - 1)%nat;
      toks' ← (if bool_decide (tk_type tp = comment) then
                 pv ← tk_value tp ≫= as_str;
                 v ← tk_value ti ≫= as_str;
                 Some (<[(i - 1)%nat := set_value (PyStr (pv +:+ " " +:+ v)) tp]> toks)
               else
                 pc ← tk_comment tp;
                 v ← tk_value ti ≫= as_str;
                 Some (<[(i - 1)%nat :=
                          set_comment (PyStr (or_empty pc +:+ " " +:+ v)) tp]> toks));
      ti' ← toks' !! i;
      Some (<[i := set_type to_remove ti']> toks')
    else Some toks
  else Some toks.

(** Lines 192-198. *)
Definition capitalize (cfg : config) (t : token) : option token :=
  if fix_capitalization cfg then
    let t1 := match tk_mnemonic t with
              | Some m => set_mnemonic (Py.lower m) t
              | None => t
              end in
    let t2 := match tk_directive t1 with
              | Some d => set_directive (Py.upper d) t1
              | None => t1
              end in
    if bool_decide (tk_type t2 = directive) then
      v ← tk_value t2 ≫= as_str;
      Some (set_value (PyStr (Py.upper v)) t2)
    else Some t2
  else Some t.

(** Lines 199-214: the chain on the token's type. *)
Definition measure (cfg : config) (i : nat) (a : agg) : option agg :=
  ti ← tokens a !! i;
  match tk_type ti with
  | error =>
      e ← tk_error ti;
      v ← tk_value ti ≫= as_str;
      Some {| tokens := tokens a;
              max_field_size := max_field_size a;
              max_label_size := max_label_size a;
              max_size_size := max_size_size a;
              max_mnemonic_size := max_mnemonic_size a;
              diagnostics :=
                diagnostics a ++
                [{| d_line := Z.of_nat i + 1; d_message := e; d_text := v |}] |}
  | data =>
      l ← tk_label ti;
      d ← tk_directive ti;
      toks' ← (if add_spaces_between_initial_values cfg then
                 v ← tk_value ti;
                 match v with
                 | PyStr x => Some (<[i := set_value (PyStr (respace_commas x)) ti]> (tokens a))
                 | PyNone => Some (tokens a)
                 end
               else Some (tokens a));
      Some {| tokens := toks';
              max_field_size := max_field_size a;
              max_label_size := Z.max (max_label_size a) (Py.len l);
              max_size_size := Z.max (max_size_size a) (Py.len d);
              max_mnemonic_size := max_mnemonic_size a;
              diagnostics := diagnostics a |}
  | instruction =>
      m ← tk_mnemonic ti;
      toks' ← (if add_spaces_between_operands cfg then
                 v ← tk_operands ti;
                 match v with
                 | PyStr x => Some (<[i := set_operands (PyStr (respace_commas x)) ti]> (tokens a))
                 | PyNone => Some (tokens a)
                 end
               else Some (tokens a));
      Some {| tokens := toks';
              max_field_size := max_field_size a;
              max_label_size := max_label_size a;
              max_size_size := max_size_size a;
              max_mnemonic_size := Z.max (max_mnemonic_size a) (Py.len m);
              diagnostics := diagnostics a |}
  | blank_line =>
      if fix_blank_lines cfg && (0 <? i)%nat then
        tp ← tokens a !! (i - 1)%nat;
        if bool_decide (tk_type tp = blank_line)
        then Some (with_tokens (<[i := set_type to_remove ti]> (tokens a)) a)
        else Some a
      else Some a
  | comment =>
      sub ← tk_subtype ti;
      if bool_decide (sub = header) then
        f ← tk_field ti;
        Some {| tokens := tokens a;
                max_field_size := Z.max (max_field_size a) (Py.len f);
                max_label_size := max_label_size a;
                max_size_size := max_size_size a;
                max_mnemonic_size := max_mnemonic_size a;
                diagnostics := diagnostics a |}
      else Some a
  | _ => Some a
  end.

(** One iteration of [for i in range(len(tokens))]. *)
Definition process_token (cfg : config) (i : nat) (a : agg) : option agg :=
  toks1 ← merge_extension cfg i (tokens a);
  ti ← toks1 !! i;
  ti' ← capitalize cfg ti;
  measure cfg i (with_tokens (<[i := ti']> toks1) a).

Fixpoint process_from (cfg : config) (idx : list nat) (a : agg) : option agg :=
  match idx with
  | [] => Some a
  | i :: rest => a' ← process_token cfg i a; process_from cfg rest a'
  end.

Definition process_tokens (cfg : config) (toks : list token) : option agg :=
  process_from cfg (seq 0 (length toks)) (agg_init toks).

(** Lines 216-218: code and data aligned together. *)
Definition unify_alignment (cfg : config) (a : agg) : config * agg :=
  if align_code_and_data_together cfg then
    let m := Z.max (max_label_size a) (max_mnemonic_size a) in
    (set_spacings (Z.max (min_instruction_operand_spacing cfg)
                     (min_data_directive_spacing cfg)) cfg,
     {| tokens := tokens a;
        max_field_size := max_field_size a;
        max_label_size := m;
        max_size_size := max_size_size a;
        max_mnemonic_size := m;
        diagnostics := diagnostics a |})
  else (cfg, a).

(** Line 220: [[x for x in tokens if x['type'] != 'to_remove']]. *)
Definition remove_marked (toks : list token) : list token :=
  filter (λ x, tk_type x ≠ to_remove) toks.

(** ** The renderer: tokens to lines *)

(** An entry of [parsed_tokens]: a string, or a dict with the keys
    ['str'], ['comment'] and, for a data line, ['data']. *)
Inductive rendered :=
| Plain (s : string)
| Dict (str : string) (cmt : pyopt) (has_data : bool).

Record rstate := {
  parsed_tokens : list rendered;
  max_string_size : Z;
  max_data_string_size : Z;
  indent_counter : Z
}.

Definition rstate_init : rstate := {|
  parsed_tokens := []; max_string_size := 0; max_data_string_size := 0;
  indent_counter := 0
|}.

Definition append (x : rendered) (r : rstate) : rstate := {|
  parsed_tokens := parsed_tokens r ++ [x];
  max_string_size := max_string_size r;
  max_data_string_size := max_data_string_size r;
  indent_counter := indent_counter r
|}.

Definition with_parsed (l : list rendered) (r : rstate) : rstate := {|
  parsed_tokens := l;
  max_string_size := max_string_size r;
  max_data_string_size := max_data_string_size r;
  indent_counter := indent_counter r
|}.

Definition with_counter (n : Z) (r : rstate) : rstate := {|
  parsed_tokens := parsed_tokens r;
  max_string_size := max_string_size r;
  max_data_string_size := max_data_string_size r;
  indent_counter := n
|}.

(** The header comment's line, lines 230-233. *)
Definition header_line (cfg : config) (a : agg) (field value : string) : string :=
  if align_header_comments cfg
  then Py.ljust ("; " +:+ field +:+ ":") (Py.len "; : " + max_field_size a) +:+ value
  else "; " +:+ field +:+ ": " +:+ value.

(** Lines 228-278: what a token appends to [parsed_tokens]; a token of
    type ['error'], or a comment that is an extension, meets no branch. *)
Definition render_branch (cfg : config) (a : agg) (t : token) (r : rstate)
    : option rstate :=
  match tk_type t with
  | comment =>
      sub ← tk_subtype t;
      match sub with
      | header =>
          field ← tk_field t;
          value ← tk_value t ≫= as_str;
          let line := header_line cfg a field value in
          if fix_file_width cfg && (file_width cfg <? Py.len line) then
            let last_space := Py.rfind line " " 0 (file_width cfg) in
            Some (append
                    (Plain (Py.ljust "; " (Py.len "; : " + max_field_size a)
                            +:+ Py.slice line (Some (last_space + 1)) None))
                    (append (Plain (Py.slice line None (Some last_space))) r))
          else Some (append (Plain line) r)
      | full_line =>
          value ← tk_value t ≫= as_str;
          Some (append (Dict ("; " +:+ value) PyNone false) r)
      | extension => Some r
      end
  | blank_line => Some (append (Plain EmptyString) r)
  | directive =>
      value ← tk_value t ≫= as_str;
      c ← tk_comment t;
      Some (append (Dict value c false) r)
  | data =>
      label ← tk_label t;
      size ← tk_directive t;
      value ← tk_value t ≫= as_str;
      c ← tk_comment t;
      let str :=
        Py.ljust label
          ((if align_data_section cfg then max_label_size a else Py.len label)
           + min_data_directive_spacing cfg)
        +:+ Py.ljust size (max_size_size a + min_data_initial_value_spacing cfg)
        +:+ value in
      let r' := append (Dict str c true) r in
      if align_data_comments cfg && align_data_comments_separately cfg then
        Some {| parsed_tokens := parsed_tokens r';
                max_string_size := max_string_size r';
                max_data_string_size := Z.max (max_data_string_size r') (Py.len str);
                indent_counter := indent_counter r' |}
      else Some r'
  | procedure =>
      label ← tk_label t;
      value ← tk_value t ≫= as_str;
      c ← tk_comment t;
      let r' := append (Dict (label +:+ " " +:+ value) c false) r in
      if String.eqb value "PROC"
      then Some (with_counter (indent_counter r' + 1) r')
      else Some (with_counter (indent_counter r' - 1) r')
  | instruction =>
      mnemonic ← tk_mnemonic t;
      ops ← tk_operands t;
      c ← tk_comment t;
      Some (append
              (Dict (Py.ljust mnemonic
                       ((if align_code_section cfg then max_mnemonic_size a
                         else Py.len mnemonic)
                        + min_instruction_operand_spacing cfg)
                     +:+ or_empty ops) c false) r)
  | error => Some r
  | to_remove => Some r
  end.

Definition prepend (p : string) (x : rendered) : rendered :=
  match x with
  | Plain s => Plain (p +:+ s)
  | Dict s c d => Dict (p +:+ s) c d
  end.

Definition is_dict (x : rendered) : bool :=
  match x with
  | Dict _ _ _ => true
  | Plain _ => false
  end.

(** [parsed_tokens[-1]['str']], where the entry is a dict. *)
Definition dict_str (x : rendered) : option string :=
  match x with
  | Dict s _ _ => Some s
  | Plain _ => None
  end.

(** Lines 280-289: the indentation goes in front of [parsed_tokens[-1]],
    whichever token appended it; on an empty list the index raises. *)
Definition indent_last (cfg : config) (t : token) (r : rstate) : option rstate :=
  x ← last (parsed_tokens r);
  p ← (if fix_indents cfg
       then Some (Py.spaces (tab_size cfg * indent_counter r))
       else tk_indent t);
  Some (with_parsed (removelast (parsed_tokens r) ++ [prepend p x]) r).

(** Lines 291-292. *)
Definition widen (cfg : config) (t : token) (r : rstate) : option rstate :=
  x ← last (parsed_tokens r);
  ok ← (if (is_dict x && bool_decide (tk_type t ≠ data))
           || (bool_decide (tk_type t = data) && align_data_comments cfg
               && negb (align_data_comments_separately cfg))
        then
          if bool_decide (tk_type t ≠ comment) then Some true
          else sub ← tk_subtype t; Some (bool_decide (sub ≠ full_line))
        else Some false);
  if ok : bool then
    s ← dict_str x;
    Some {| parsed_tokens := parsed_tokens r;
            max_string_size := Z.max (max_string_size r) (Py.len s);
            max_data_string_size := max_data_string_size r;
            indent_counter := indent_counter r |}
  else Some r.

(** One iteration of [for token in tokens]. *)
Definition render_token (cfg : config) (a : agg) (t : token) (r : rstate)
    : option rstate :=
  r1 ← render_branch cfg a t r;
  r2 ← indent_last cfg t r1;
  widen cfg t r2.

Fixpoint render (cfg : config) (a : agg) (toks : list token) (r : rstate)
    : option rstate :=
  match toks with
  | [] => Some r
  | t :: rest => r' ← render_token cfg a t r; render cfg a rest r'
  end.

(** ** The emitter: printing, with the wrap of wide lines *)

(** Where a [print] goes: to [output_file] (the file named on the command
    line, or standard output when none is) or, without a [file=]
    argument, to standard output. *)
Inductive sink := OutputFile | Stdout.

Global Instance sink_eq_dec : EqDecision sink.
Proof. solve_decision. Defined.

(** [('; ' + line['comment'] if line['comment'] else '')] *)
Definition comment_text (c : pyopt) : string :=
  match c with
  | PyStr EmptyString => EmptyString
  | PyStr x => "; " +:+ x
  | PyNone => EmptyString
  end.

(** Lines 304-311: the line with its comment, right-stripped. *)
Definition output_string (cfg : config) (r : rstate) (str : string)
    (c : pyopt) (has_data : bool) : string :=
  Py.rstrip
    (if (align_comments cfg && negb has_data)
        || (align_comments cfg && has_data && align_data_comments cfg
            && negb (align_data_comments_separately cfg))
     then Py.ljust str (max_string_size r + min_comment_spacing cfg) +:+ comment_text c
     else if has_data && align_data_comments cfg && align_data_comments_separately cfg
     then Py.ljust str (max_data_string_size r + min_comment_spacing cfg) +:+ comment_text c
     else str +:+ Py.spaces (min_comment_spacing cfg) +:+ comment_text c).

(** The second line of a wrap, line 317. *)
Definition continuation (cfg : config) (s : string) (last_space : Z) : string :=
  Py.rjust "; " (Py.find s ";" + 2)
  +:+ Py.spaces (long_comment_indent_amount cfg)
  +:+ Py.slice s (Some (last_space + 1)) None.

(** Lines 312-317. *)
Definition print_wrapped (cfg : config) (s : string) : list (sink * string) :=
  if negb (fix_file_width cfg) || (Py.len s <=? file_width cfg) then
    [(OutputFile, s)]
  else
    let last_space := Py.rfind s " " 0 (file_width cfg) in
    [(OutputFile, Py.slice s None (Some last_space));
     (Stdout, continuation cfg s last_space)].

(** The body of [for line in parsed_tokens]. *)
Definition emit_line (cfg : config) (r : rstate) (line : rendered)
    : list (sink * string) :=
  match line with
  | Plain s => [(OutputFile, s)]
  | Dict str c has_data => print_wrapped cfg (output_string cfg r str c has_data)
  end.

Definition emit (cfg : config) (r : rstate) : list (sink * string) :=
  concat (map (emit_line cfg r) (parsed_tokens r)).

(** ** The whole run *)

(** What a run leaves: the lines in the output file (when one is named),
    the lines on standard output, and the diagnostics (which the program
    also prints on standard output, coloured, before any line). *)
Record output := {
  file_lines : list string;
  stdout_lines : list string;
  reported : list diagnostic
}.

(** The lines a sink receives; [named] tells whether [output_file_name]
    is given. *)
Definition lines_of (named : bool) (k : sink) (evs : list (sink * string))
    : list string :=
  map snd
    (filter (λ e, (if named then fst e else Stdout) = k) evs).

Definition run (cfg : config) (named : bool) (lines : list string)
    : option output :=
  toks ← tokenize cfg lines;
  a ← process_tokens cfg toks;
  let '(cfg', a') := unify_alignment cfg a in
  r ← render cfg' a' (remove_marked (tokens a')) rstate_init;
  let evs := emit cfg' r in
  Some {| file_lines := if named then lines_of named OutputFile evs else [];
          stdout_lines := lines_of named Stdout evs;
          reported := diagnostics a' |}.

(** The file a run writes, read back by [readlines]. *)
Definition as_lines (out : list string) : list string :=
  map (λ l, l +:+ NL) out.

(** A renderer state in which one instruction line has been measured. *)
Definition wide_state : rstate := {|
  parsed_tokens := [Dict "mov   eax, ebx" (PyStr "c") false];
  max_string_size := 14; max_data_string_size := 0; indent_counter := 0
|}.

(** ** Vocabulary of the properties *)

(** A token is a comment extension. *)
Definition is_ext (t : token) : Prop :=
  tk_type t = comment ∧ tk_subtype t = Some extension.

Global Instance is_ext_dec (t : token) : Decision (is_ext t).
Proof. unfold is_ext. apply _. Defined.

(** A token the pass can append an extension to: a comment that is not
    itself an extension, or a line that has a ['comment'] key. *)
Definition takes_extension (t : token) : Prop :=
  tk_type t ≠ blank_line ∧ tk_type t ≠ error ∧ ¬ is_ext t.

(** The keys the classifier gives a token of each type. *)
Definition shaped (t : token) : Prop :=
  match tk_type t with
  | blank_line => True
  | comment =>
      (∃ sub, tk_subtype t = Some sub ∧ (sub = header → is_Some (tk_field t)))
      ∧ ∃ v, tk_value t = Some (PyStr v)
  | directive => (∃ v, tk_value t = Some (PyStr v)) ∧ is_Some (tk_comment t)
  | data =>
      is_Some (tk_label t) ∧ is_Some (tk_directive t)
      ∧ is_Some (tk_value t) ∧ is_Some (tk_comment t)
  | procedure => is_Some (tk_comment t)
  | instruction =>
      is_Some (tk_mnemonic t) ∧ is_Some (tk_operands t)
      ∧ is_Some (tk_comment t)
  | error => is_Some (tk_error t) ∧ ∃ v, tk_value t = Some (PyStr v)
  | to_remove => False
  end.

(** The text of a token's ['value']. *)
Definition value_text (t : token) : string :=
  match tk_value t with
  | Some (PyStr v) => v
  | _ => EmptyString
  end.

(** What the comment at index [k] has gained once the pass has handled
    the indices below [n]: the text of the extension on the next line, if
    there is one and the pass has reached it. *)
Definition merged_suffix (toks : list token) (n k : nat) : string :=
  match toks !! S k with
  | Some e =>
      if decide (is_ext e ∧ (S k < n)%nat) then " " +:+ value_text e
      else EmptyString
  | None => EmptyString
  end.

(** How the token [t] at an index [k] the pass has handled relates to
    the token [t0] the classifier put there. *)
Definition settled (toks : list token) (n k : nat) (t0 t : token) : Prop :=
  tk_subtype t = tk_subtype t0
  ∧ (is_Some (tk_comment t0) → is_Some (tk_comment t))
  ∧ (is_ext t0 → tk_type t = to_remove)
  ∧ (tk_type t0 = blank_line → tk_type t = blank_line ∨ tk_type t = to_remove)
  ∧ (¬ is_ext t0 → tk_type t0 ≠ blank_line → tk_type t = tk_type t0)
  ∧ (tk_type t0 = comment → ¬ is_ext t0 →
     ∀ v, tk_value t0 = Some (PyStr v) →
          tk_value t = Some (PyStr (v +:+ merged_suffix toks n k))).

(** The state of the pass before it handles index [n]. *)
Definition pass_inv (toks : list token) (n : nat) (a : agg) : Prop :=
  length (tokens a) = length toks
  ∧ (∀ k, (n ≤ k)%nat → tokens a !! k = toks !! k)
  ∧ (∀ k t0, (k < n)%nat → toks !! k = Some t0 →
             ∃ t, tokens a !! k = Some t ∧ settled toks n k t0 t).

(** A comment, its extension and an instruction, as the classifier
    returns them. *)
Definition hello_lines : list string :=
  as_lines ["; hello"; ";  world"; "mov eax, 1"].

Definition hello_tokens : list token :=
  [ set_value (PyStr "hello") (set_subtype full_line (mk_token comment));
    set_value (PyStr "world") (set_subtype extension (mk_token comment));
    set_comment PyNone
      (set_operands (PyStr "eax, 1") (set_mnemonic "mov" (mk_token instruction))) ].

(** ** Vocabulary of the further properties *)

(** A continuation that accepts wherever it is called. *)
Definition accepting {A : Type} (k : nat → string → Re.captures → option A) : Prop :=
  ∀ p s c, is_Some (k p s c).

(** The groups every match of a pattern captures. *)
Fixpoint sets_group (r : Re.regex) (n : nat) : bool :=
  match r with
  | Re.Group m r1 => (m =? n)%nat || sets_group r1 n
  | Re.Seq r1 r2 => sets_group r1 n || sets_group r2 n
  | Re.Alt r1 r2 => sets_group r1 n && sets_group r2 n
  | _ => false
  end.

(** The characters a directive's text may start with: [[a-zA-Z0-9.]]. *)
Definition directive_start (c : ascii) : bool :=
  Re.in_items (Pat.alnum ++ [Re.One "."]) c.

(** What an iteration of the pass may do to the token before the current
    one: nothing, or append an extension to its text or to its comment. *)
Definition touched (tp tp' : token) : Prop :=
  tp' = tp
  ∨ (∃ x, tp' = set_value (PyStr x) tp ∧ tk_type tp = comment)
  ∨ (∃ x, tp' = set_comment (PyStr x) tp
          ∧ tk_type tp ≠ comment ∧ is_Some (tk_comment tp)).

(** What an iteration of the pass may do to the current token. *)
Definition handled (cfg : config) (tn t' : token) : Prop :=
  (tk_type t' = tk_type tn
   ∨ tk_type t' = to_remove
     ∧ (tk_type tn = blank_line ∧ fix_blank_lines cfg = true
        ∨ is_ext tn ∧ fix_file_width cfg = true))
  ∧ tk_subtype t' = tk_subtype tn
  ∧ tk_field t' = tk_field tn
  ∧ tk_label t' = tk_label tn
  ∧ tk_comment t' = tk_comment tn
  ∧ tk_error t' = tk_error tn
  ∧ tk_indent t' = tk_indent tn
  ∧ tk_mnemonic t'
    = (if fix_capitalization cfg then Py.lower <$> tk_mnemonic tn
       else tk_mnemonic tn)
  ∧ tk_directive t'
    = (if fix_capitalization cfg then Py.upper <$> tk_directive tn
       else tk_directive tn)
  ∧ (tk_operands t' = tk_operands tn
     ∨ ∃ x, tk_operands tn = Some (PyStr x)
            ∧ tk_operands t' = Some (PyStr (respace_commas x)))
  ∧ (tk_value t' = tk_value tn
     ∨ ∃ x y, tk_value tn = Some (PyStr x) ∧ tk_value t' = Some (PyStr y)).

(** The running maxima cover the widths of a token. *)
Definition measured (a : agg) (t : token) : Prop :=
  match tk_type t with
  | instruction => ∃ m, tk_mnemonic t = Some m ∧ Py.len m ≤ max_mnemonic_size a
  | data =>
      ∃ l d, tk_label t = Some l ∧ tk_directive t = Some d
             ∧ Py.len l ≤ max_label_size a ∧ Py.len d ≤ max_size_size a
  | comment =>
      tk_subtype t = Some header →
      ∃ f, tk_field t = Some f ∧ Py.len f ≤ max_field_size a
  | _ => True
  end.

(** The running maxima only grow. *)
Definition grown (a a' : agg) : Prop :=
  max_field_size a ≤ max_field_size a'
  ∧ max_label_size a ≤ max_label_size a'
  ∧ max_size_size a ≤ max_size_size a'
  ∧ max_mnemonic_size a ≤ max_mnemonic_size a'.

(** The diagnostic of a line: none unless the line is unrecognised. *)
Definition diagnostic_of (i : nat) (t : token) : list diagnostic :=
  if bool_decide (tk_type t = error) then
    match tk_error t, tk_value t with
    | Some e, Some (PyStr v) =>
        [{| d_line := Z.of_nat i + 1; d_message := e; d_text := v |}]
    | _, _ => []
    end
  else [].

(** The diagnostics of a file: one for each unrecognised line, with the
    number of the line (from 1) and its text. *)
Fixpoint diagnostics_from (i : nat) (toks : list token) : list diagnostic :=
  match toks with
  | [] => []
  | t :: rest => diagnostic_of i t ++ diagnostics_from (S i) rest
  end.

(** How the pass leaves the token of a line: as one iteration left it,
    but for an extension appended by the next. *)
Definition passed (cfg : config) (t0 t : token) : Prop :=
  ∃ t1, handled cfg t0 t1 ∧ touched t1 t.

(** A configuration in which neither blank lines nor wide lines are
    fixed. *)
Definition fixes_off : config := {|
  fix_indents := true; tab_size := 2; fix_file_width := false;
  file_width := 80; long_comment_indent_amount := 2;
  fix_capitalization := true; fix_blank_lines := false;
  align_comments := true; align_data_comments := true;
  align_data_comments_separately := true;
  min_comment_spacing := 3; align_code_section := true;
  min_instruction_operand_spacing := 3;
  add_spaces_between_operands := true;
  align_data_section := true;
  align_code_and_data_together := false;
  min_data_directive_spacing := 2;
  min_data_initial_value_spacing := 2;
  add_spaces_between_initial_values := true;
  align_header_comments := true
|}.



(** What a token adds to the depth counter of the renderer: a
    [PROC] line one, any other procedure line minus one. *)
Definition depth_change (t : token) : Z :=
  match tk_type t, tk_value t with
  | procedure, Some (PyStr v) => if String.eqb v "PROC" then 1 else -1
  | _, _ => 0
  end.

Fixpoint depth_changes (toks : list token) : Z :=
  match toks with
  | [] => 0
  | t :: rest => depth_change t + depth_changes rest
  end.

(** A procedure with one instruction, as the pass leaves its tokens. *)
Definition proc_tokens : list token :=
  [ set_comment PyNone
      (set_value (PyStr "PROC") (set_label "main" (mk_token procedure)));
    set_comment PyNone
      (set_operands (PyStr "eax, 1") (set_mnemonic "mov" (mk_token instruction)));
    set_comment PyNone
      (set_value (PyStr "ENDP") (set_label "main" (mk_token procedure))) ].

(** A string with every comma, and the one space after it when there is
    one, replaced by a comma and a space. *)
Fixpoint respace (s : string) : string :=
  match s with
  | EmptyString => EmptyString
  | String c rest =>
      if Ascii.eqb c "," then
        match rest with
        | String d rest' =>
            if Ascii.eqb d " " then String "," (String " " (respace rest'))
            else String "," (String " " (respace rest))
        | EmptyString => String "," (String " " EmptyString)
        end
      else String c (respace rest)
  end.


(** The keys the renderer reads in a token of each type, with the
    values it needs there: a text where it concatenates, any value where
    it only tests. *)
Definition renderable (cfg : config) (t : token) : Prop :=
  (fix_indents cfg = false → is_Some (tk_indent t))
  ∧ match tk_type t with
    | comment =>
        ∃ sub v, tk_subtype t = Some sub ∧ tk_value t = Some (PyStr v)
                 ∧ (sub = header → is_Some (tk_field t))
    | directive => (∃ v, tk_value t = Some (PyStr v)) ∧ is_Some (tk_comment t)
    | data =>
        is_Some (tk_label t) ∧ is_Some (tk_directive t)
        ∧ (∃ v, tk_value t = Some (PyStr v)) ∧ is_Some (tk_comment t)
    | procedure =>
        is_Some (tk_label t) ∧ (∃ v, tk_value t = Some (PyStr v))
        ∧ is_Some (tk_comment t)
    | instruction =>
        is_Some (tk_mnemonic t) ∧ is_Some (tk_operands t)
        ∧ is_Some (tk_comment t)
    | blank_line | error | to_remove => True
    end.

(** A token as the pass must find it before an extension: a comment
    with a text, or a line of another type with a ['comment'] key. *)
Definition extendable (tp : token) : Prop :=
  if bool_decide (tk_type tp = comment)
  then ∃ v, tk_value tp = Some (PyStr v)
  else is_Some (tk_comment tp).

From stdpp Require gmap.

Section config_file.
Import stdpp.gmap.

(** ** The configuration file *)

(** A value of the configuration file: the settings are booleans and
    whole numbers, the version is a text. *)
Inductive json :=
  | JNull
  | JBool (b : bool)
  | JInt (n : Z)
  | JStr (s : string).

Global Instance json_eq_dec : EqDecision json.
Proof. solve_decision. Defined.

(** Lines 14-47, as the dict the program holds. *)
Definition DEFAULT_CONFIG_dict : gmap string json :=
  list_to_map
    [ ("_CONFIG_VERSION", JStr "0.7");
      ("fix_indents", JBool true);
      ("tab_size", JInt 2);
      ("fix_file_width", JBool true);
      ("file_width", JInt 80);
      ("long_comment_indent_amount", JInt 2);
      ("fix_capitalization", JBool true);
      ("fix_blank_lines", JBool true);
      ("align_comments", JBool true);
      ("align_data_comments", JBool true);
      ("align_data_comments_separately", JBool true);
      ("min_comment_spacing", JInt 3);
      ("align_code_section", JBool true);
      ("min_instruction_operand_spacing", JInt 3);
      ("add_spaces_between_operands", JBool true);
      ("align_data_section", JBool true);
      ("align_code_and_data_together", JBool false);
      ("min_data_directive_spacing", JInt 2);
      ("min_data_initial_value_spacing", JInt 2);
      ("add_spaces_between_initial_values", JBool true);
      ("align_header_comments", JBool true) ].

(** Lines 84-86: [for key in config.keys(): if key in new_config:
    new_config[key] = config[key]], over the items of the file's object
    in their order. *)
Definition copy_known (new_config : gmap string json) (kv : string * json) : gmap string json :=
  if decide (is_Some (new_config !! kv.1))
  then <[kv.1 := kv.2]> new_config
  else new_config.

(** What the configuration step leaves: the configuration of the run,
    what it wrote to the configuration file, if anything, and whether it
    warned. *)
Record loaded := {
  cfg_dict : gmap string json;
  written : option (gmap string json);
  warned : bool
}.

(** Lines 73-90.  [file] is the object in the configuration file, as its
    items in order, or [None] when there is no such file; the result is
    [None] when the lookup of the version raises KeyError. *)
Definition load_config (file : option (list (string * json))) : option loaded :=
  match file with
  | None =>
      Some {| cfg_dict := DEFAULT_CONFIG_dict;
              written := Some DEFAULT_CONFIG_dict;
              warned := false |}
  | Some items =>
      let config : gmap string json := list_to_map items in
      v ← config !! "_CONFIG_VERSION";
      dv ← DEFAULT_CONFIG_dict !! "_CONFIG_VERSION";
      if decide (v ≠ dv) then
        let new_config := foldl copy_known DEFAULT_CONFIG_dict items in
        let new_config := <["_CONFIG_VERSION" := dv]> new_config in
        Some {| cfg_dict := new_config;
                written := Some new_config;
                warned := true |}
      else
        Some {| cfg_dict := config; written := None; warned := false |}
  end.

(** A configuration file of an older version, with a setting the
    program no longer has. *)
Definition old_items : list (string * json) :=
  [ ("_CONFIG_VERSION", JStr "0.6");
    ("tab_size", JInt 4);
    ("colour", JBool true) ].

End config_file.

(** Whether a character occurs in a string. *)
Fixpoint has_chr (c : ascii) (s : string) : bool :=
  match s with
  | EmptyString => false
  | String d s' => Ascii.eqb c d || has_chr c s'
  end.
(** * Properties *)

Example strip_ex : Py.strip "  mov eax, 1 " = "mov eax, 1".
Proof. reflexivity. Qed.

Example classify_mov :
  classify DEFAULT_CONFIG ("mov  eax,ebx   ; move it" +:+ NL)
  = Some (set_comment (PyStr "move it")
            (set_operands (PyStr "eax,ebx")
               (set_mnemonic "mov" (mk_token instruction)))).
Proof. vm_compute. reflexivity. Qed.

(** ** Facts about the string primitives *)

Section string_facts.

Lemma take_length (n : nat) (s : string) :
  (n ≤ String.length s)%nat → String.length (Py.take n s) = n.
Proof.
  revert s. induction n as [|n IH]; intros [|c s] Hn; simpl in *;
    try reflexivity; try lia.
  rewrite IH; [reflexivity | lia].
Qed.

Lemma slice_prefix (s : string) (k : Z) :
  0 ≤ k → k ≤ Py.len s → Py.slice s None (Some k) = Py.take (Z.to_nat k) s.
Proof.
  intros H0 Hk. unfold Py.slice, Py.norm_index. simpl.
  destruct (Z.ltb_spec k 0); [lia|].
  rewrite Z.min_l by lia. rewrite Z.sub_0_r. reflexivity.
Qed.

Lemma prefix_space (s : string) :
  String.prefix " " s = true ↔ String.get 0 s = Some " "%char.
Proof.
  destruct s as [|c s]; [split; discriminate|].
  change (String.prefix " " (String c s))
    with (if ascii_dec " " c then String.prefix "" s else false).
  change (String.get 0 (String c s)) with (Some c).
  destruct (ascii_dec " " c) as [e|Hne].
  - subst c. destruct s; split; reflexivity.
  - split; [discriminate|]. intros H. congruence.
Qed.

(** What the right-to-left search for a space returns: -1 when no
    position of the window holds one, else the last that does. *)
Lemma rfind_from_space (s : string) (i lo hi : Z) :
  0 ≤ i →
  let r := Py.rfind_from " " s i lo hi in
  (r = -1 ∧
   ∀ j : nat, lo ≤ i + Z.of_nat j → i + Z.of_nat j + 1 ≤ hi →
              String.get j s ≠ Some " "%char)
  ∨ (i ≤ r ∧ lo ≤ r ∧ r + 1 ≤ hi ∧
     String.get (Z.to_nat (r - i)) s = Some " "%char ∧
     ∀ j : nat, r < i + Z.of_nat j → i + Z.of_nat j + 1 ≤ hi →
                String.get j s ≠ Some " "%char).
Proof.
  revert i. induction s as [|c s IH]; intros i Hi.
  - left. simpl. split; [reflexivity|]. intros j _ _. destruct j; discriminate.
  - cbn zeta. cbn [Py.rfind_from].
    destruct (IH (i + 1) ltac:(lia)) as [[Hr Hno]|(Hle & Hlo & Hhi & Hget & Hlast)].
    + rewrite Hr. change (0 <=? -1) with false. cbn iota.
      destruct (String.prefix " " (String c s) && (lo <=? i)
                && (i + Py.len " " <=? hi)) eqn:Hhere.
      * right. apply andb_prop in Hhere as [Hhere Hb2].
        apply andb_prop in Hhere as [Hp Hb1].
        apply prefix_space in Hp.
        apply Z.leb_le in Hb1, Hb2. change (Py.len " ") with 1 in Hb2.
        repeat split; try lia.
        -- rewrite Z.sub_diag. exact Hp.
        -- intros [|j] Hj1 Hj2; [lia|]. simpl. apply Hno; lia.
      * left. split; [reflexivity|].
        intros [|j] Hj1 Hj2.
        -- intros Hg. apply prefix_space in Hg. rewrite Hg in Hhere.
           change (Py.len " ") with 1 in Hhere.
           destruct (Z.leb_spec lo i); [|lia].
           destruct (Z.leb_spec (i + 1) hi); [|lia]. discriminate.
        -- simpl. apply Hno; lia.
    + destruct (Z.leb_spec 0 (Py.rfind_from " " s (i + 1) lo hi)); [|lia].
      right. repeat split; try lia.
      * replace (Z.to_nat (Py.rfind_from " " s (i + 1) lo hi - i))
          with (S (Z.to_nat (Py.rfind_from " " s (i + 1) lo hi - (i + 1)))) by lia.
        simpl. exact Hget.
      * intros [|j] Hj1 Hj2; [lia|]. simpl. apply Hlast; lia.
Qed.

(** [s.rfind(' ', 0, w)] finds the last space among the first [w]
    characters. *)
Lemma rfind_space_found (s : string) (w : Z) (j : nat) :
  Z.of_nat j < w → String.get j s = Some " "%char →
  let k := Py.rfind s " " 0 w in
  Z.of_nat j ≤ k ∧ k < w ∧ k < Py.len s ∧
  String.get (Z.to_nat k) s = Some " "%char ∧
  ∀ j' : nat, k < Z.of_nat j' → Z.of_nat j' < w →
              String.get j' s ≠ Some " "%char.
Proof.
  intros Hj Hget. cbn zeta. unfold Py.rfind.
  assert (Hlen : Z.of_nat j < Py.len s).
  { unfold Py.len. clear Hj. revert j Hget.
    induction s as [|c s IH]; intros [|j] Hg; simpl in *; try discriminate; try lia.
    specialize (IH j Hg). lia. }
  assert (Hlo : Py.norm_index (Py.len s) 0 = 0).
  { unfold Py.norm_index. simpl. unfold Py.len. lia. }
  assert (Hhi : Py.norm_index (Py.len s) w = Z.min w (Py.len s)).
  { unfold Py.norm_index. destruct (Z.ltb_spec w 0); [lia|reflexivity]. }
  rewrite Hlo, Hhi.
  destruct (rfind_from_space s 0 0 (Z.min w (Py.len s)) ltac:(lia))
    as [[_ Hno]|(Hle & _ & Hk & Hg & Hlast)].
  - exfalso. apply (Hno j); [lia|lia|exact Hget].
  - rewrite Z.sub_0_r in Hg.
    assert (Z.of_nat j ≤ Py.rfind_from " " s 0 0 (Z.min w (Py.len s))).
    { destruct (Z.le_gt_cases (Z.of_nat j)
                  (Py.rfind_from " " s 0 0 (Z.min w (Py.len s)))); [assumption|].
      exfalso. apply (Hlast j); [lia|lia|exact Hget]. }
    repeat split; try lia; [exact Hg|].
    intros j' H1 H2 Hg'.
    assert (Z.of_nat j' < Py.len s).
    { unfold Py.len. clear -Hg'. revert j' Hg'.
      induction s as [|c s IH]; intros [|j] Hg; simpl in *; try discriminate; try lia.
      specialize (IH j Hg). lia. }
    apply (Hlast j'); [lia|lia|exact Hg'].
Qed.

Lemma rfind_space_missing (s : string) (w : Z) :
  Py.rfind s " " 0 w < 0 →
  ∀ j : nat, Z.of_nat j < w → String.get j s ≠ Some " "%char.
Proof.
  intros Hneg j Hj Hget.
  destruct (rfind_space_found s w j Hj Hget) as [Hle _]. lia.
Qed.

End string_facts.

Lemma rfind_space_bound (s : string) (w : Z) :
  0 ≤ Py.rfind s " " 0 w →
  Py.rfind s " " 0 w < Py.len s ∧ (0 ≤ w → Py.rfind s " " 0 w < w).
Proof.
  unfold Py.rfind. intros Hk.
  assert (Hlo : Py.norm_index (Py.len s) 0 = 0).
  { unfold Py.norm_index. simpl. unfold Py.len. lia. }
  rewrite Hlo in *.
  assert (Hb : Py.norm_index (Py.len s) w ≤ Py.len s
               ∧ (0 ≤ w → Py.norm_index (Py.len s) w ≤ w)).
  { unfold Py.norm_index, Py.len. destruct (Z.ltb_spec w 0); lia. }
  destruct (rfind_from_space s 0 0 (Py.norm_index (Py.len s) w) ltac:(lia))
    as [[Hr _]|(_ & _ & Hhi & _)]; lia.
Qed.

(** ** The wrap of a wide line *)

(** C10. With [fix_file_width] set, a structured line wider than
    [file_width] that has a space among its first [file_width] characters
    is printed in two parts: the text before the last such space goes to
    the output file, the continuation goes to standard output; with an
    output file named, the file receives the first part only. *)
Theorem wrap_continuation_on_stdout (cfg : config) (r : rstate)
    (str : string) (c : pyopt) (has_data : bool) (s : string) (j : nat) :
  fix_file_width cfg = true →
  output_string cfg r str c has_data = s →
  file_width cfg < Py.len s →
  Z.of_nat j < file_width cfg →
  String.get j s = Some " "%char →
  ∃ k : nat,
    (j ≤ k)%nat ∧ Z.of_nat k < file_width cfg ∧
    String.get k s = Some " "%char ∧
    (∀ j' : nat, (k < j')%nat → Z.of_nat j' < file_width cfg →
                 String.get j' s ≠ Some " "%char) ∧
    emit_line cfg r (Dict str c has_data)
    = [(OutputFile, Py.take k s); (Stdout, continuation cfg s (Z.of_nat k))] ∧
    lines_of true OutputFile (emit_line cfg r (Dict str c has_data))
    = [Py.take k s] ∧
    lines_of true Stdout (emit_line cfg r (Dict str c has_data))
    = [continuation cfg s (Z.of_nat k)].
Proof.
  intros Hfix Hs Hwide Hj Hget.
  destruct (rfind_space_found s (file_width cfg) j Hj Hget)
    as (Hle & Hw & Hlen & Hk & Hlast).
  set (k := Py.rfind s " " 0 (file_width cfg)) in *.
  exists (Z.to_nat k).
  assert (Hemit : emit_line cfg r (Dict str c has_data)
          = [(OutputFile, Py.take (Z.to_nat k) s);
             (Stdout, continuation cfg s (Z.of_nat (Z.to_nat k)))]).
  { unfold emit_line, print_wrapped. rewrite Hs, Hfix.
    destruct (Z.leb_spec (Py.len s) (file_width cfg)); [lia|].
    cbn [negb orb]. fold k.
    rewrite slice_prefix by lia. rewrite Z2Nat.id by lia. reflexivity. }
  repeat split.
  - lia.
  - lia.
  - exact Hk.
  - intros j' H1 H2. apply Hlast; lia.
  - exact Hemit.
  - rewrite Hemit. reflexivity.
  - rewrite Hemit. reflexivity.
Qed.

Lemma wrap_continuation_on_stdout_witness :
  let cfg := set_file_width 10 DEFAULT_CONFIG in
  let s := "mov   eax, ebx   ; c" in
  output_string cfg wide_state "mov   eax, ebx" (PyStr "c") false = s ∧
  ∃ k : nat,
    (3 ≤ k)%nat ∧ Z.of_nat k < file_width cfg ∧
    String.get k s = Some " "%char ∧
    (∀ j' : nat, (k < j')%nat → Z.of_nat j' < file_width cfg →
                 String.get j' s ≠ Some " "%char) ∧
    emit_line cfg wide_state (Dict "mov   eax, ebx" (PyStr "c") false)
    = [(OutputFile, Py.take k s); (Stdout, continuation cfg s (Z.of_nat k))] ∧
    lines_of true OutputFile
      (emit_line cfg wide_state (Dict "mov   eax, ebx" (PyStr "c") false))
    = [Py.take k s] ∧
    lines_of true Stdout
      (emit_line cfg wide_state (Dict "mov   eax, ebx" (PyStr "c") false))
    = [continuation cfg s (Z.of_nat k)].
Proof.
  split; [reflexivity|].
  apply (wrap_continuation_on_stdout (set_file_width 10 DEFAULT_CONFIG)
           wide_state "mov   eax, ebx" (PyStr "c") false
           "mov   eax, ebx   ; c" 3).
  - reflexivity.
  - reflexivity.
  - reflexivity.
  - reflexivity.
  - reflexivity.
Defined.

(** C4, as the program has it.  With [fix_file_width] set, the line the
    emitter prints first for a structured line (the whole line, or the
    part before the break) is at most [file_width] characters long, unless
    the line has no space among its first [file_width] characters.  The
    continuation of a wrap is printed without a further check. *)
Theorem first_part_within_width (cfg : config) (r : rstate)
    (str : string) (c : pyopt) (has_data : bool) (s : string) :
  fix_file_width cfg = true →
  output_string cfg r str c has_data = s →
  ∃ (first : string) (rest : list (sink * string)),
    emit_line cfg r (Dict str c has_data) = (OutputFile, first) :: rest ∧
    (Py.len first ≤ file_width cfg
     ∨ ∀ j : nat, Z.of_nat j < file_width cfg →
                  String.get j s ≠ Some " "%char).
Proof.
  intros Hfix Hs. unfold emit_line, print_wrapped. rewrite Hs, Hfix.
  cbn [negb orb].
  destruct (Z.leb_spec (Py.len s) (file_width cfg)) as [Hfit|Hwide].
  - eexists _, _. split; [reflexivity|]. left. exact Hfit.
  - eexists _, _. split; [reflexivity|].
    destruct (Z.lt_ge_cases (Py.rfind s " " 0 (file_width cfg)) 0) as [Hneg|Hpos].
    + right. apply rfind_space_missing. exact Hneg.
    + destruct (rfind_space_bound s (file_width cfg) Hpos) as [Hlen Hw].
      destruct (Z.lt_ge_cases (file_width cfg) 0) as [Hwneg|Hwpos].
      * right. intros j Hj. lia.
      * left. rewrite slice_prefix by lia.
        unfold Py.len at 1. rewrite take_length by (unfold Py.len in Hlen; lia).
        specialize (Hw Hwpos). lia.
Qed.

Lemma first_part_within_width_witness :
  let cfg := set_file_width 10 DEFAULT_CONFIG in
  ∃ (first : string) (rest : list (sink * string)),
    emit_line cfg rstate_init (Dict "; aaa bbb ccc ddd" PyNone false)
    = (OutputFile, first) :: rest ∧
    (Py.len first ≤ file_width cfg
     ∨ ∀ j : nat, Z.of_nat j < file_width cfg →
                  String.get j "; aaa bbb ccc ddd" ≠ Some " "%char).
Proof.
  apply (first_part_within_width (set_file_width 10 DEFAULT_CONFIG)
           rstate_init "; aaa bbb ccc ddd" PyNone false "; aaa bbb ccc ddd").
  - reflexivity.
  - reflexivity.
Defined.

(** C4 as stated fails: the continuation of a wrapped comment is longer
    than [file_width] although it has spaces to break at. *)
Lemma width_invariant_counterexample :
  let cfg := set_file_width 10 DEFAULT_CONFIG in
  ∃ (out : output) (l : string),
    fix_file_width cfg = true ∧
    run cfg false (as_lines ["; aaa bbb ccc ddd eee fff ggg"]) = Some out ∧
    l ∈ stdout_lines out ∧
    file_width cfg < Py.len l ∧
    String.get 1 l = Some " "%char.
Proof.
  eexists _, ";   ccc ddd eee fff ggg".
  split; [reflexivity|]. split; [vm_compute; reflexivity|].
  split; [|split; reflexivity].
  cbn [stdout_lines]. apply list_elem_of_In. right. left. reflexivity.
Qed.

(** ** What the classifier produces *)

Lemma classify_line_shaped (line : string) (t : token) :
  classify_line line = Some t → shaped t.
Proof.
  unfold classify_line. intros H.
  repeat match type of H with
         | (if ?b then _ else _) = _ => destruct b
         end;
    simplify_option_eq; unfold shaped; cbn;
    repeat split; eauto; try (intros; discriminate);
    eexists; (split; [reflexivity | intros; discriminate]).
Qed.

Lemma set_indent_shaped (x : string) (t : token) :
  shaped t → shaped (set_indent x t).
Proof. unfold shaped. destruct t as [[] ? ? ? ? ? ? ? ? ? ?]; cbn; tauto. Qed.

Lemma classify_shaped (cfg : config) (raw : string) (t : token) :
  classify cfg raw = Some t → shaped t.
Proof.
  unfold classify. intros H.
  destruct (classify_line (Py.strip raw)) as [t'|] eqn:Hc; [|discriminate].
  apply classify_line_shaped in Hc. cbn in H.
  destruct (fix_indents cfg); injection H as <-;
    [exact Hc | apply set_indent_shaped, Hc].
Qed.

Lemma tokenize_shaped (cfg : config) (lines : list string) (toks : list token) :
  tokenize cfg lines = Some toks → Forall shaped toks.
Proof.
  revert toks. induction lines as [|raw rest IH]; intros toks H; cbn in H.
  - injection H as <-. constructor.
  - destruct (classify cfg raw) as [t|] eqn:Ht; [|discriminate]. cbn in H.
    destruct (tokenize cfg rest) as [ts|]; [|discriminate]. cbn in H.
    injection H as <-. constructor; [eapply classify_shaped, Ht | apply IH; reflexivity].
Qed.

Lemma tokenize_length (cfg : config) (lines : list string) (toks : list token) :
  tokenize cfg lines = Some toks → length toks = length lines.
Proof.
  revert toks. induction lines as [|raw rest IH]; intros toks H; cbn in H.
  - injection H as <-. reflexivity.
  - destruct (classify cfg raw) as [t|]; [|discriminate]. cbn in H.
    destruct (tokenize cfg rest) as [ts|]; [|discriminate]. cbn in H.
    injection H as <-. cbn. f_equal. apply IH. reflexivity.
Qed.

(** ** One iteration of the pass *)

Lemma append_empty_r (s : string) : s +:+ EmptyString = s.
Proof.
  induction s as [|c s IH]; [reflexivity|].
  change (String c s +:+ EmptyString) with (String c (s +:+ EmptyString)).
  f_equal. exact IH.
Qed.

Lemma capitalize_spec (cfg : config) (t : token) :
  shaped t ∨ tk_type t = to_remove →
  ∃ t', capitalize cfg t = Some t'
        ∧ tk_type t' = tk_type t
        ∧ tk_subtype t' = tk_subtype t
        ∧ tk_comment t' = tk_comment t
        ∧ (tk_type t = comment → tk_value t' = tk_value t)
        ∧ (shaped t → shaped t').
Proof.
  intros Hs. unfold capitalize.
  destruct t as [ty sub fld val cmt lbl dir mn ops err ind].
  destruct (fix_capitalization cfg); [|eexists; repeat split; eauto].
  destruct (decide (ty = directive)) as [->|Hnd].
  - destruct Hs as [Hs|Hs]; [|discriminate].
    unfold shaped in Hs. cbn in Hs. destruct Hs as [[v ->] Hc].
    destruct mn as [mn|], dir as [dir|]; cbn;
      (eexists; split; [reflexivity|]); cbn; repeat split; auto;
      intros; try discriminate; unfold shaped; cbn; eauto.
  - destruct mn as [mn|], dir as [dir|], ty; try congruence; cbn;
      (eexists; split; [reflexivity|]); cbn; repeat split; auto;
      unfold shaped; cbn; tauto.
Qed.

Lemma measure_spec (cfg : config) (n : nat) (a : agg) (t : token) :
  tokens a !! n = Some t →
  shaped t ∨ tk_type t = to_remove →
  ∃ a' t', measure cfg n a = Some a'
           ∧ length (tokens a') = length (tokens a)
           ∧ (∀ k, k ≠ n → tokens a' !! k = tokens a !! k)
           ∧ tokens a' !! n = Some t'
           ∧ tk_subtype t' = tk_subtype t
           ∧ tk_comment t' = tk_comment t
           ∧ (tk_type t' = tk_type t
              ∨ tk_type t = blank_line ∧ tk_type t' = to_remove)
           ∧ (tk_type t = comment → tk_value t' = tk_value t).
Proof.
  intros Hn Hs. unfold measure. rewrite Hn. cbn.
  assert (Hlt : (n < length (tokens a))%nat) by (eapply lookup_lt_Some, Hn).
  destruct (tk_type t) eqn:Hty.
  - (* blank_line *)
    match goal with |- context [if ?b then _ else _] => destruct b end.
    + destruct (lookup_lt_is_Some_2 (tokens a) (n - 1)%nat ltac:(lia)) as [tp Hp].
      rewrite Hp. cbn. case_bool_decide.
      * eexists _, _. split; [reflexivity|]. cbn.
        rewrite length_insert. split; [reflexivity|].
        split; [intros k Hk; apply list_lookup_insert_ne; congruence|].
        split; [apply list_lookup_insert_eq; exact Hlt|].
        cbn. rewrite ?Hty. repeat split; auto.
      * exists a, t. rewrite ?Hty. repeat split; auto.
    + exists a, t. rewrite ?Hty. repeat split; auto.
  - (* comment *)
    destruct Hs as [Hs|Hs]; [|congruence]. unfold shaped in Hs. rewrite Hty in Hs.
    destruct Hs as [(sub & Hsub & Hfld) _]. rewrite Hsub. cbn.
    case_bool_decide as Hh.
    + destruct (Hfld Hh) as [f Hf]. rewrite Hf. cbn.
      eexists _, t. split; [reflexivity|]. cbn. rewrite ?Hty. repeat split; auto.
    + exists a, t. rewrite ?Hty. repeat split; auto.
  - (* directive *) exists a, t. rewrite ?Hty. repeat split; auto.
  - (* data *)
    destruct Hs as [Hs|Hs]; [|congruence]. unfold shaped in Hs. rewrite Hty in Hs.
    destruct Hs as ([l Hl] & [d Hd] & [v Hv] & _). rewrite Hl, Hd. cbn.
    destruct (add_spaces_between_initial_values cfg).
    + rewrite Hv. cbn. destruct v as [|x]; cbn.
      * eexists _, t. split; [reflexivity|]. cbn. rewrite ?Hty.
        repeat split; auto; discriminate.
      * eexists _, _. split; [reflexivity|]. cbn.
        rewrite length_insert. split; [reflexivity|].
        split; [intros k Hk; apply list_lookup_insert_ne; congruence|].
        split; [apply list_lookup_insert_eq; exact Hlt|].
        cbn. rewrite ?Hty. repeat split; auto; discriminate.
    + cbn. eexists _, t. split; [reflexivity|]. cbn. rewrite ?Hty.
      repeat split; auto; discriminate.
  - (* procedure *) exists a, t. rewrite ?Hty. repeat split; auto.
  - (* instruction *)
    destruct Hs as [Hs|Hs]; [|congruence]. unfold shaped in Hs. rewrite Hty in Hs.
    destruct Hs as ([m Hm] & [o Ho] & _). rewrite Hm. cbn.
    destruct (add_spaces_between_operands cfg).
    + rewrite Ho. cbn. destruct o as [|x]; cbn.
      * eexists _, t. split; [reflexivity|]. cbn. rewrite ?Hty.
        repeat split; auto; discriminate.
      * eexists _, _. split; [reflexivity|]. cbn.
        rewrite length_insert. split; [reflexivity|].
        split; [intros k Hk; apply list_lookup_insert_ne; congruence|].
        split; [apply list_lookup_insert_eq; exact Hlt|].
        cbn. rewrite ?Hty. repeat split; auto; discriminate.
    + cbn. eexists _, t. split; [reflexivity|]. cbn. rewrite ?Hty.
      repeat split; auto; discriminate.
  - (* error *)
    destruct Hs as [Hs|Hs]; [|congruence]. unfold shaped in Hs. rewrite Hty in Hs.
    destruct Hs as ([e He] & [v Hv]). rewrite He, Hv. cbn.
    eexists _, t. split; [reflexivity|]. cbn. rewrite ?Hty.
    repeat split; auto; discriminate.
  - (* to_remove *) exists a, t. rewrite ?Hty. repeat split; auto.
Qed.

Lemma merge_extension_skip (cfg : config) (n : nat) (l : list token) (tn : token) :
  l !! n = Some tn → shaped tn → ¬ is_ext tn →
  merge_extension cfg n l = Some l.
Proof.
  intros Hn Hs Hne. unfold merge_extension. rewrite Hn. cbn.
  destruct (bool_decide (tk_type tn = comment)) eqn:Hty;
    [apply bool_decide_eq_true in Hty | rewrite andb_false_r; reflexivity].
  match goal with |- context [if ?b && true then _ else _] => destruct b end;
    [|reflexivity].
  cbn. unfold shaped in Hs. rewrite Hty in Hs. destruct Hs as [(sub & Hsub & _) _].
  rewrite Hsub. cbn. case_bool_decide as Hx; [|reflexivity].
  subst sub. exfalso. apply Hne. split; assumption.
Qed.

Lemma merge_extension_comment (cfg : config) (j : nat) (l : list token)
    (tn tp : token) (v w : string) :
  fix_file_width cfg = true →
  l !! S j = Some tn → is_ext tn → tk_value tn = Some (PyStr w) →
  l !! j = Some tp → tk_type tp = comment → tk_value tp = Some (PyStr v) →
  merge_extension cfg (S j) l
  = Some (<[S j := set_type to_remove tn]>
            (<[j := set_value (PyStr (v +:+ " " +:+ w)) tp]> l)).
Proof.
  intros Hfix Hn [Hty Hsub] Hw Hp Htp Hv. unfold merge_extension.
  rewrite Hn. cbn. rewrite Hfix, Hsub. cbn.
  rewrite ?(bool_decide_eq_true_2 _ Hty). cbn.
  rewrite ?(bool_decide_eq_true_2 (extension = extension) eq_refl). cbn.
  rewrite ?Nat.sub_0_r, Hp. cbn.
  rewrite (bool_decide_eq_true_2 _ Htp). rewrite Hv, Hw. cbn.
  rewrite list_lookup_insert_ne by lia. rewrite Hn. reflexivity.
Qed.

Lemma merge_extension_trailing (cfg : config) (j : nat) (l : list token)
    (tn tp : token) (w : string) (pc : pyopt) :
  fix_file_width cfg = true →
  l !! S j = Some tn → is_ext tn → tk_value tn = Some (PyStr w) →
  l !! j = Some tp → tk_type tp ≠ comment → tk_comment tp = Some pc →
  merge_extension cfg (S j) l
  = Some (<[S j := set_type to_remove tn]>
            (<[j := set_comment (PyStr (or_empty pc +:+ " " +:+ w)) tp]> l)).
Proof.
  intros Hfix Hn [Hty Hsub] Hw Hp Htp Hc. unfold merge_extension.
  rewrite Hn. cbn. rewrite Hfix, Hsub. cbn.
  rewrite ?(bool_decide_eq_true_2 _ Hty). cbn.
  rewrite ?(bool_decide_eq_true_2 (extension = extension) eq_refl). cbn.
  rewrite ?Nat.sub_0_r, Hp. cbn.
  rewrite (bool_decide_eq_false_2 _ Htp). rewrite Hc, Hw. cbn.
  rewrite list_lookup_insert_ne by lia. rewrite Hn. reflexivity.
Qed.

(** ** The pass over a classified file *)

Section extension_merge.

Variables (cfg : config) (toks : list token).
Hypothesis Hfix : fix_file_width cfg = true.
Hypothesis Hshaped : Forall shaped toks.
Hypothesis Hext :
  ∀ i e, toks !! i = Some e → is_ext e →
         ∃ j p, i = S j ∧ toks !! j = Some p ∧ takes_extension p.

Lemma merged_suffix_next (n k : nat) :
  (∀ e, toks !! S k = Some e → S k = n → ¬ is_ext e) →
  merged_suffix toks (S n) k = merged_suffix toks n k.
Proof.
  unfold merged_suffix. intros H.
  destruct (toks !! S k) as [e|] eqn:He; [|reflexivity].
  destruct (decide (is_ext e ∧ (S k < S n)%nat)) as [[Hx Hl]|Hno],
           (decide (is_ext e ∧ (S k < n)%nat)) as [[Hx' Hl']|Hno'];
    try reflexivity.
  - exfalso. destruct (decide (S k = n)) as [Heq|Hneq].
    + exact (H e eq_refl Heq Hx).
    + apply Hno'. split; [exact Hx | lia].
  - exfalso. apply Hno. split; [exact Hx' | lia].
Qed.

Lemma merged_suffix_fresh (n k : nat) :
  (n ≤ S k)%nat → merged_suffix toks n k = EmptyString.
Proof.
  unfold merged_suffix. intros H.
  destruct (toks !! S k) as [e|]; [|reflexivity].
  case_decide as Hd; [|reflexivity]. destruct Hd. lia.
Qed.

Lemma merged_suffix_reached (k : nat) (e : token) :
  toks !! S k = Some e → is_ext e →
  merged_suffix toks (S (S k)) k = " " +:+ value_text e.
Proof.
  unfold merged_suffix. intros -> He.
  case_decide as Hd; [reflexivity|]. exfalso. apply Hd. split; [exact He | lia].
Qed.

Lemma settled_next (n k : nat) (t0 t : token) :
  (∀ e, toks !! S k = Some e → S k = n → ¬ is_ext e) →
  settled toks n k t0 t → settled toks (S n) k t0 t.
Proof. intros H. unfold settled. rewrite (merged_suffix_next n k H). tauto. Qed.

Lemma comment_key (p : token) :
  shaped p → takes_extension p → tk_type p ≠ comment → is_Some (tk_comment p).
Proof.
  unfold shaped, takes_extension. intros Hs (Hb & He & _) Hc.
  destruct (tk_type p); try tauto.
Qed.

Lemma process_token_step (n : nat) (a : agg) :
  pass_inv toks n a → (n < length toks)%nat →
  ∃ a', process_token cfg n a = Some a' ∧ pass_inv toks (S n) a'.
Proof.
  intros (Hlen & Hrest & Hdone) Hlt.
  destruct (lookup_lt_is_Some_2 toks n Hlt) as [tn Htn].
  assert (Hn : tokens a !! n = Some tn) by (rewrite Hrest by lia; exact Htn).
  assert (Hsn : shaped tn) by (eapply Forall_lookup_1; eauto).
  destruct (decide (is_ext tn)) as [He|Hne].
  - (* an extension: merged into the token before it *)
    destruct (Hext n tn Htn He) as (j & p & -> & Hp & Htake).
    destruct (Hdone j p ltac:(lia) Hp) as (tp & Htp & Hset).
    assert (Hsp : shaped p) by (eapply Forall_lookup_1; eauto).
    assert (∃ w, tk_value tn = Some (PyStr w)) as [w Hw].
    { unfold shaped in Hsn. rewrite (proj1 He) in Hsn. tauto. }
    assert (∃ tp',
               merge_extension cfg (S j) (tokens a)
               = Some (<[S j := set_type to_remove tn]> (<[j := tp']> (tokens a)))
               ∧ settled toks (S (S j)) j p tp') as (tp' & Hmerge & Hset').
    { pose proof (comment_key p Hsp Htake) as Hkey.
      destruct Htake as (Hnb & Hnerr & Hnx).
      destruct Hset as (S1 & S2 & S3 & S4 & S5 & S6).
      assert (Htyp : tk_type tp = tk_type p) by (apply S5; assumption).
      destruct (decide (tk_type p = comment)) as [Hc|Hc].
      - assert (∃ v, tk_value p = Some (PyStr v)) as [v Hv].
        { unfold shaped in Hsp. rewrite Hc in Hsp. tauto. }
        specialize (S6 Hc Hnx v Hv).
        rewrite merged_suffix_fresh, append_empty_r in S6 by lia.
        eexists. split.
        + eapply merge_extension_comment; eauto. congruence.
        + unfold settled. cbn. repeat split; try tauto.
          intros _ _ v0 Hv0. rewrite Hv in Hv0. injection Hv0 as <-.
          rewrite (merged_suffix_reached j tn Htn He).
          unfold value_text. rewrite Hw. reflexivity.
      - destruct (S2 (Hkey Hc)) as [pc Hpc].
        eexists. split.
        + eapply merge_extension_trailing; eauto. congruence.
        + unfold settled. cbn. repeat split; try tauto. eauto. }
    set (toks1 := <[S j := set_type to_remove tn]> (<[j := tp']> (tokens a))) in *.
    assert (Hlen1 : length toks1 = length toks).
    { unfold toks1. rewrite !length_insert. exact Hlen. }
    destruct (capitalize_spec cfg (set_type to_remove tn) (or_intror eq_refl))
      as (t' & Hcap & C1 & C2 & C3 & _ & _).
    destruct (measure_spec cfg (S j) (with_tokens (<[S j := t']> toks1) a) t')
      as (a' & t'' & Hmeas & M1 & M2 & M3 & M4 & M5 & M6 & _).
    { cbn. apply list_lookup_insert_eq. lia. }
    { right. exact C1. }
    exists a'. split.
    { assert (H1 : toks1 !! S j = Some (set_type to_remove tn)).
      { unfold toks1. apply list_lookup_insert_eq. rewrite length_insert. lia. }
      unfold process_token. rewrite Hmerge. cbn. rewrite H1. cbn.
      rewrite Hcap. cbn. exact Hmeas. }
    cbn in M1, M2. rewrite length_insert in M1.
    split; [lia|]. split.
    + intros k Hk. rewrite M2 by lia. rewrite list_lookup_insert_ne by lia.
      unfold toks1. rewrite !list_lookup_insert_ne by lia. apply Hrest. lia.
    + intros k t0 Hk Hk0.
      destruct (decide (k = S j)) as [->|Hk1].
      * exists t''. split; [exact M3|].
        assert (t0 = tn) as -> by congruence.
        unfold settled. destruct He as [He1 He2].
        assert (Hrem : tk_type t'' = to_remove).
        { destruct M6 as [M6|[M6 _]]; [rewrite M6; exact C1|].
          rewrite C1 in M6. discriminate. }
        repeat split.
        -- rewrite M4, C2. reflexivity.
        -- rewrite M5, C3. cbn. tauto.
        -- intros _. exact Hrem.
        -- intros Hb. congruence.
        -- intros Hx. exfalso. apply Hx. split; assumption.
        -- intros _ Hx. exfalso. apply Hx. split; assumption.
      * rewrite M2 by lia. rewrite list_lookup_insert_ne by lia.
        unfold toks1. rewrite list_lookup_insert_ne by lia.
        destruct (decide (k = j)) as [->|Hk2].
        -- exists tp'. split; [apply list_lookup_insert_eq; lia|].
           assert (t0 = p) as -> by congruence. exact Hset'.
        -- rewrite list_lookup_insert_ne by lia.
           destruct (Hdone k t0 ltac:(lia) Hk0) as (t & Ht & Hst).
           exists t. split; [exact Ht|]. apply settled_next; [|exact Hst].
           intros e _ Heq. lia.
  - (* any other token *)
    pose proof (merge_extension_skip cfg n (tokens a) tn Hn Hsn Hne) as Hmerge.
    destruct (capitalize_spec cfg tn (or_introl Hsn))
      as (t' & Hcap & C1 & C2 & C3 & C4 & C5).
    destruct (measure_spec cfg n (with_tokens (<[n := t']> (tokens a)) a) t')
      as (a' & t'' & Hmeas & M1 & M2 & M3 & M4 & M5 & M6 & M7).
    { cbn. apply list_lookup_insert_eq. lia. }
    { left. exact (C5 Hsn). }
    exists a'. split.
    { unfold process_token. rewrite Hmerge. cbn. rewrite Hn. cbn.
      rewrite Hcap. cbn. exact Hmeas. }
    cbn in M1, M2. rewrite length_insert in M1.
    split; [lia|]. split.
    + intros k Hk. rewrite M2 by lia. rewrite list_lookup_insert_ne by lia.
      apply Hrest. lia.
    + intros k t0 Hk Hk0.
      destruct (decide (k = n)) as [->|Hk1].
      * exists t''. split; [exact M3|].
        assert (t0 = tn) as -> by congruence.
        unfold settled. repeat split.
        -- rewrite M4, C2. reflexivity.
        -- rewrite M5, C3. tauto.
        -- intros Hx. contradiction.
        -- intros Hb. destruct M6 as [M6|[_ M6]]; [left; congruence | right; exact M6].
        -- intros _ Hb. destruct M6 as [M6|[M6 _]]; congruence.
        -- intros Hc _ v Hv. rewrite merged_suffix_fresh, append_empty_r by lia.
           rewrite M7 by congruence. rewrite C4 by exact Hc. exact Hv.
      * rewrite M2 by lia. rewrite list_lookup_insert_ne by lia.
        destruct (Hdone k t0 ltac:(lia) Hk0) as (t & Ht & Hst).
        exists t. split; [exact Ht|]. apply settled_next; [|exact Hst].
        intros e He' Heq. subst n. congruence.
Qed.

Lemma pass_inv_init : pass_inv toks 0 (agg_init toks).
Proof.
  unfold pass_inv. cbn. split; [reflexivity|]. split; [reflexivity|].
  intros k t0 Hk. lia.
Qed.

Lemma process_from_inv (m n : nat) (a : agg) :
  pass_inv toks n a → (n + m = length toks)%nat →
  ∃ a', process_from cfg (seq n m) a = Some a'
        ∧ pass_inv toks (length toks) a'.
Proof.
  revert n a. induction m as [|m IH]; intros n a Hinv Hnm; cbn.
  - exists a. split; [reflexivity|]. replace (length toks) with n by lia.
    exact Hinv.
  - destruct (process_token_step n a Hinv ltac:(lia)) as (a1 & Hstep & Hinv1).
    rewrite Hstep. cbn. apply IH; [exact Hinv1 | lia].
Qed.

Lemma process_tokens_inv :
  ∃ a, process_tokens cfg toks = Some a ∧ pass_inv toks (length toks) a.
Proof. apply process_from_inv; [apply pass_inv_init | lia]. Qed.

End extension_merge.

(** C2, as the program has it.  With [fix_file_width] set, on a file in
    which every comment-extension line directly follows a line that is
    neither blank, nor unrecognised, nor itself an extension, the pass
    completes; an extension that follows a comment line is appended to
    that comment's text after one space and is marked for removal; and no
    extension is left among the tokens that are rendered. *)
Theorem extensions_merged (cfg : config) (lines : list string) (toks : list token) :
  fix_file_width cfg = true →
  tokenize cfg lines = Some toks →
  (∀ i e, toks !! i = Some e → is_ext e →
          ∃ j p, i = S j ∧ toks !! j = Some p ∧ takes_extension p) →
  ∃ a, process_tokens cfg toks = Some a
       ∧ (∀ j p e v w,
            toks !! j = Some p → tk_type p = comment →
            tk_value p = Some (PyStr v) →
            toks !! S j = Some e → is_ext e → tk_value e = Some (PyStr w) →
            ∃ p' e', tokens a !! j = Some p'
                     ∧ tk_type p' = comment
                     ∧ tk_subtype p' = tk_subtype p
                     ∧ tk_value p' = Some (PyStr (v +:+ " " +:+ w))
                     ∧ tokens a !! S j = Some e'
                     ∧ tk_type e' = to_remove)
       ∧ (∀ t, t ∈ remove_marked (tokens a) → ¬ is_ext t).
Proof.
  intros Hfix Htok Hext.
  pose proof (tokenize_shaped cfg lines toks Htok) as Hshaped.
  destruct (process_tokens_inv cfg toks Hfix Hshaped Hext)
    as (a & Hrun & Hlen & _ & Hdone).
  exists a. split; [exact Hrun|]. split.
  - intros j p e v w Hp Hc Hv He Hx Hw.
    assert (HSj : (S j < length toks)%nat) by (eapply lookup_lt_Some, He).
    destruct (Hext (S j) e He Hx) as (j' & p0 & Hj & Hp0 & Htake).
    injection Hj as <-. assert (p0 = p) as -> by congruence.
    destruct Htake as (Hnb & _ & Hnx).
    destruct (Hdone j p ltac:(lia) Hp) as (p' & Hp' & _ & _ & _ & _ & S5 & S6).
    destruct (Hdone (S j) e HSj He) as (e' & He' & _ & _ & S3 & _).
    exists p', e'. repeat split; try assumption.
    + rewrite S5 by assumption. exact Hc.
    + destruct (Hdone j p ltac:(lia) Hp) as (p2 & Hp2 & S1 & _).
      assert (p2 = p') as -> by congruence. exact S1.
    + rewrite (S6 Hc Hnx v Hv). unfold merged_suffix. rewrite He.
      case_decide as Hd; [|exfalso; apply Hd; split; [exact Hx | lia]].
      unfold value_text. rewrite Hw. reflexivity.
    + exact (S3 Hx).
  - intros t Ht [Hty Hsub]. unfold remove_marked in Ht.
    apply list_elem_of_filter in Ht as [Hkeep Hin].
    apply list_elem_of_lookup in Hin as [k Hk].
    assert (Hklt : (k < length toks)%nat).
    { rewrite <- Hlen. eapply lookup_lt_Some, Hk. }
    destruct (lookup_lt_is_Some_2 toks k Hklt) as [t0 Ht0].
    destruct (Hdone k t0 Hklt Ht0) as (t' & Ht' & S1 & _ & S3 & S4 & S5 & _).
    assert (t' = t) as -> by congruence.
    destruct (decide (is_ext t0)) as [Hx|Hnx].
    + apply Hkeep. exact (S3 Hx).
    + destruct (decide (tk_type t0 = blank_line)) as [Hb|Hnb].
      * destruct (S4 Hb); congruence.
      * apply Hnx. split; [rewrite <- S5 by assumption; exact Hty | congruence].
Qed.

Lemma extensions_merged_witness :
  ∃ a, process_tokens DEFAULT_CONFIG hello_tokens = Some a
       ∧ (∀ j p e v w,
            hello_tokens !! j = Some p → tk_type p = comment →
            tk_value p = Some (PyStr v) →
            hello_tokens !! S j = Some e → is_ext e → tk_value e = Some (PyStr w) →
            ∃ p' e', tokens a !! j = Some p'
                     ∧ tk_type p' = comment
                     ∧ tk_subtype p' = tk_subtype p
                     ∧ tk_value p' = Some (PyStr (v +:+ " " +:+ w))
                     ∧ tokens a !! S j = Some e'
                     ∧ tk_type e' = to_remove)
       ∧ (∀ t, t ∈ remove_marked (tokens a) → ¬ is_ext t).
Proof.
  apply (extensions_merged DEFAULT_CONFIG hello_lines hello_tokens).
  - reflexivity.
  - vm_compute. reflexivity.
  - intros i e Hi [Hty Hsub].
    destruct i as [|[|[|i]]]; cbn in Hi; try discriminate;
      injection Hi as <-; cbn in Hty, Hsub; try discriminate.
    exists 0%nat. eexists. split; [reflexivity|]. split; [reflexivity|].
    unfold takes_extension, is_ext. cbn.
    split; [discriminate|]. split; [discriminate|]. intros [_ H]. discriminate.
Defined.

(** C2 as stated fails: without [fix_file_width] the pass merges nothing,
    and the extension stays among the tokens that are rendered. *)
Lemma extension_kept_without_width_fix :
  let cfg := set_fix_file_width false DEFAULT_CONFIG in
  ∃ a, tokenize cfg (as_lines ["; hello"; ";  world"]) = Some (take 2 hello_tokens)
       ∧ process_tokens cfg (take 2 hello_tokens) = Some a
       ∧ remove_marked (tokens a) = take 2 hello_tokens
       ∧ (∃ e, e ∈ remove_marked (tokens a) ∧ is_ext e).
Proof.
  eexists. split; [vm_compute; reflexivity|].
  split; [vm_compute; reflexivity|].
  split; [vm_compute; reflexivity|].
  eexists. split.
  - apply list_elem_of_In. vm_compute. right. left. reflexivity.
  - split; reflexivity.
Qed.

(** ** Where the program departs from its description *)

Lemma render_branch_error (cfg : config) (a : agg) (t : token) (r : rstate) :
  tk_type t = error → render_branch cfg a t r = Some r.
Proof. intros H. unfold render_branch. rewrite H. reflexivity. Qed.

(** C1 fails on the code.  The renderer has no branch for a token of type
    ['error']: the unrecognised line [@@:] is reported and then left out of
    the output, and when it is the first line of the file the run stops on
    [parsed_tokens[-1]]. *)
Theorem error_line_not_emitted :
  classify DEFAULT_CONFIG ("@@:" +:+ NL)
  = Some (set_value (PyStr "@@:")
            (set_error "Unrecognized Token" (mk_token error)))
  ∧ run DEFAULT_CONFIG false (as_lines ["mov eax, 1"; "@@:"])
    = Some {| file_lines := [];
              stdout_lines := ["mov   eax, 1"];
              reported := [{| d_line := 2; d_message := "Unrecognized Token";
                              d_text := "@@:" |}] |}
  ∧ run DEFAULT_CONFIG false (as_lines ["@@:"]) = None.
Proof. repeat split; vm_compute; reflexivity. Qed.

(** C3 fails on the code.  A blank line is dropped when the token before
    it still has the type ['blank_line']; the second line of a run has been
    retyped ['to_remove'] by then, so the third is kept: three blank lines
    come out as two (and two as one, four as two). *)
Theorem three_blank_lines_leave_two :
  fix_blank_lines DEFAULT_CONFIG = true
  ∧ run DEFAULT_CONFIG false (as_lines ["mov eax, 1"; ""; ""; ""; "ret"])
    = Some {| file_lines := [];
              stdout_lines := ["mov   eax, 1"; ""; ""; "ret"];
              reported := [] |}
  ∧ run DEFAULT_CONFIG false (as_lines ["mov eax, 1"; ""; ""; "ret"])
    = Some {| file_lines := [];
              stdout_lines := ["mov   eax, 1"; ""; "ret"];
              reported := [] |}
  ∧ run DEFAULT_CONFIG false (as_lines ["mov eax, 1"; ""; ""; ""; ""; "ret"])
    = Some {| file_lines := [];
              stdout_lines := ["mov   eax, 1"; ""; ""; "ret"];
              reported := [] |}.
Proof. repeat split; vm_compute; reflexivity. Qed.

(** C5 fails on the code.  With no space among the first [file_width]
    characters [rfind] returns -1, which the emitter slices with: the file
    gets the line without its last character, and standard output gets a
    continuation that repeats the whole line. *)
Theorem unbreakable_line_loses_last_character :
  let cfg := set_file_width 5 DEFAULT_CONFIG in
  Py.rfind "abcdefghij" " " 0 (file_width cfg) = -1
  ∧ print_wrapped cfg "abcdefghij"
    = [(OutputFile, "abcdefghi"); (Stdout, ";   abcdefghij")]
  ∧ run cfg true (as_lines ["abcdefghij"])
    = Some {| file_lines := ["abcdefghi"];
              stdout_lines := [";   abcdefghij"];
              reported := [] |}.
Proof. repeat split; vm_compute; reflexivity. Qed.

(** C6 fails on the code.  The depth counter is raised in the branch that
    appends the [PROC] line, and the indentation is put in front of that
    line only afterwards: [PROC] is indented like the body, one level
    deeper than its [ENDP]. *)
Theorem proc_line_indented_like_its_body :
  fix_indents DEFAULT_CONFIG = true
  ∧ run DEFAULT_CONFIG false (as_lines ["main PROC"; "mov eax, 1"; "main ENDP"])
    = Some {| file_lines := [];
              stdout_lines := ["  main PROC"; "  mov   eax, 1"; "main ENDP"];
              reported := [] |}.
Proof. repeat split; vm_compute; reflexivity. Qed.

(** C7 fails on the code.  [line.startswith('END', re.IGNORECASE)] compares
    from position 2 of the line, so a line that starts with [END] is not a
    directive: it is classified as an instruction whose mnemonic is [END].
    Lines that start with [.] or [INCLUDE] are directives. *)
Theorem end_line_is_not_a_directive :
  Py.startswith "END main" "END" IGNORECASE = false
  ∧ classify DEFAULT_CONFIG ("END main" +:+ NL)
    = Some (set_comment PyNone
              (set_operands (PyStr "main")
                 (set_mnemonic "END" (mk_token instruction))))
  ∧ classify DEFAULT_CONFIG (".data" +:+ NL)
    = Some (set_comment PyNone (set_value (PyStr ".data") (mk_token directive)))
  ∧ classify DEFAULT_CONFIG ("INCLUDE Irvine32.inc" +:+ NL)
    = Some (set_comment PyNone
              (set_value (PyStr "INCLUDE Irvine32.inc") (mk_token directive))).
Proof. repeat split; vm_compute; reflexivity. Qed.

(** C8 fails on the code.  The data pattern asks for at least one word
    character after the first character of the label, so a data line whose
    label is a single letter is classified as an instruction; with a label
    of two characters the same line is a data token. *)
Theorem one_letter_label_is_not_data :
  classify DEFAULT_CONFIG ("x BYTE 1" +:+ NL)
  = Some (set_comment PyNone
            (set_operands (PyStr "BYTE 1")
               (set_mnemonic "x" (mk_token instruction))))
  ∧ classify DEFAULT_CONFIG ("xy BYTE 1" +:+ NL)
    = Some (set_comment PyNone
              (set_value (PyStr "1")
                 (set_directive "BYTE" (set_label "xy" (mk_token data))))).
Proof. repeat split; vm_compute; reflexivity. Qed.

(** C9 fails on the code.  Three blank lines come out as two, and the
    output, run through the program again, comes out with one. *)
Theorem second_run_changes_the_output :
  ∃ out1 out2,
    run DEFAULT_CONFIG false (as_lines ["mov eax, 1"; ""; ""; ""; "ret"]) = Some out1
    ∧ run DEFAULT_CONFIG false (as_lines (stdout_lines out1)) = Some out2
    ∧ stdout_lines out1 = ["mov   eax, 1"; ""; ""; "ret"]
    ∧ stdout_lines out2 = ["mov   eax, 1"; ""; "ret"]
    ∧ stdout_lines out2 ≠ stdout_lines out1.
Proof.
  eexists _, _. split; [vm_compute; reflexivity|].
  split; [vm_compute; reflexivity|].
  split; [reflexivity|]. split; [reflexivity|]. discriminate.
Qed.

(** * Further properties *)

(** ** The matcher *)

Lemma rmatch_star_accepts {A : Type} (ic : bool) (r : Re.regex) (pos : nat)
    (s : string) (caps : Re.captures) (k : nat → string → Re.captures → option A) :
  is_Some (k pos s caps) → is_Some (Re.rmatch ic (Re.Star r) pos s caps k).
Proof.
  intros Hk. cbn.
  destruct (Re.rmatch ic r pos s caps _); [eauto | exact Hk].
Qed.

Lemma rmatch_opt_accepts {A : Type} (ic : bool) (r : Re.regex) (pos : nat)
    (s : string) (caps : Re.captures) (k : nat → string → Re.captures → option A) :
  is_Some (k pos s caps) → is_Some (Re.rmatch ic (Re.Opt r) pos s caps k).
Proof.
  intros Hk. unfold Re.Opt. cbn.
  destruct (Re.rmatch ic r pos s caps k); [eauto | exact Hk].
Qed.

(** A successful match ends in a call of the continuation, with every
    group kept that was captured before and every group of the pattern
    captured. *)
Lemma rmatch_captures {A : Type} (ic : bool) (r : Re.regex) :
  ∀ (pos : nat) (s : string) (caps : Re.captures)
    (k : nat → string → Re.captures → option A) (x : A),
    Re.rmatch ic r pos s caps k = Some x →
    ∃ p s' c',
      k p s' c' = Some x
      ∧ (∀ n, is_Some (Re.lookup_cap n caps) → is_Some (Re.lookup_cap n c'))
      ∧ (∀ n, sets_group r n = true → is_Some (Re.lookup_cap n c')).
Proof.
  induction r as [| c | items | | | r1 IH1 r2 IH2 | r1 IH1 r2 IH2 | r1 IH1 | m r1 IH1];
    intros pos s caps k x H.
  - cbn [Re.rmatch] in H.
    exists pos, s, caps. (split; [|split]); auto; intros n Hn; discriminate.
  - cbn [Re.rmatch] in H. destruct s as [|d s']; [discriminate|].
    destruct (Re.chr_eq ic c d); [|discriminate].
    eexists _, _, _. (split; [|split]); eauto; intros n Hn; discriminate.
  - cbn [Re.rmatch] in H. destruct s as [|d s']; [discriminate|].
    destruct (Re.in_class ic items d); [|discriminate].
    eexists _, _, _. (split; [|split]); eauto; intros n Hn; discriminate.
  - cbn [Re.rmatch] in H. destruct s as [|d s']; [discriminate|].
    destruct (Ascii.eqb d "010"); [discriminate|].
    eexists _, _, _. (split; [|split]); eauto; intros n Hn; discriminate.
  - cbn [Re.rmatch] in H. destruct (pos =? 0)%nat; [|discriminate].
    eexists _, _, _. (split; [|split]); eauto; intros n Hn; discriminate.
  - cbn [Re.rmatch] in H.
    apply IH1 in H as (p1 & s1 & c1 & H & Hkeep1 & Hset1).
    apply IH2 in H as (p2 & s2 & c2 & H & Hkeep2 & Hset2).
    exists p2, s2, c2. (split; [|split]); auto.
    intros n Hn. cbn in Hn. apply orb_prop in Hn as [Hn|Hn]; auto.
  - cbn [Re.rmatch] in H.
    destruct (Re.rmatch ic r1 pos s caps k) as [y|] eqn:H1.
    + injection H as ->. apply IH1 in H1 as (p1 & s1 & c1 & H & Hkeep1 & Hset1).
      exists p1, s1, c1. (split; [|split]); auto.
      intros n Hn. cbn in Hn. apply andb_prop in Hn as [Hn _]. auto.
    + apply IH2 in H as (p2 & s2 & c2 & H & Hkeep2 & Hset2).
      exists p2, s2, c2. (split; [|split]); auto.
      intros n Hn. cbn in Hn. apply andb_prop in Hn as [_ Hn]. auto.
  - change (Re.rmatch ic (Re.Star r1) pos s caps k)
      with ((fix loop (fuel pos : nat) (s : string) (caps : Re.captures)
               {struct fuel} : option A :=
               match fuel with
               | O => k pos s caps
               | S fuel' =>
                   match Re.rmatch ic r1 pos s caps
                           (fun p s' c =>
                              if (pos <? p)%nat then loop fuel' p s' c else None)
                   with
                   | Some x => Some x
                   | None => k pos s caps
                   end
               end) (S (String.length s)) pos s caps) in H.
    revert H. generalize (S (String.length s)). intros fuel. revert pos s caps.
    induction fuel as [|fuel IHf]; intros pos s caps H.
    + exists pos, s, caps. (split; [|split]); auto; intros n Hn; discriminate.
    + match type of H with
      | match ?e with _ => _ end = _ => destruct e as [y|] eqn:H1
      end.
      * injection H as ->. apply IH1 in H1 as (p1 & s1 & c1 & H & Hkeep1 & _).
        destruct (pos <? p1)%nat; [|discriminate].
        apply IHf in H as (p2 & s2 & c2 & H & Hkeep2 & _).
        exists p2, s2, c2. (split; [|split]); auto; intros n Hn; discriminate.
      * exists pos, s, caps. (split; [|split]); auto; intros n Hn; discriminate.
  - cbn [Re.rmatch] in H.
    apply IH1 in H as (p1 & s1 & c1 & H & Hkeep1 & Hset1).
    eexists _, _, _. split; [exact H|]. split.
    + intros n Hn. cbn. destruct (m =? n)%nat; [eauto | auto].
    + intros n Hn. cbn in Hn |- *. destruct (m =? n)%nat; [eauto|]. auto.
Qed.

Lemma at_pos_groups (ic : bool) (r : Re.regex) (pos : nat) (s : string) (m : Re.mobj) :
  Re.at_pos ic r pos s = Some m →
  ∀ n, sets_group r n = true → is_Some (Re.lookup_cap n (Re.m_caps m)).
Proof.
  unfold Re.at_pos. intros H n Hn.
  apply rmatch_captures in H as (p & s' & c' & H & _ & Hset).
  injection H as <-. cbn. auto.
Qed.

Lemma search_from_groups (ic : bool) (r : Re.regex) (s : string) :
  ∀ (pos : nat) (m : Re.mobj),
    Re.search_from ic r pos s = Some m →
    ∀ n, sets_group r n = true → is_Some (Re.lookup_cap n (Re.m_caps m)).
Proof.
  induction s as [|c s IH]; intros pos m H n Hn; cbn [Re.search_from] in H.
  - destruct (Re.at_pos ic r pos EmptyString) as [m'|] eqn:Hat; [|discriminate].
    injection H as ->. eapply at_pos_groups; eauto.
  - destruct (Re.at_pos ic r pos (String c s)) as [m'|] eqn:Hat.
    + injection H as ->. eapply at_pos_groups; eauto.
    + eapply IH; eauto.
Qed.

Lemma search_from_anchored_later (ic : bool) (r : Re.regex) (s : string) :
  ∀ pos, Re.search_from ic (Re.Seq Re.Bol r) (S pos) s = None.
Proof. induction s as [|c s IH]; intros pos; cbn; [reflexivity | apply IH]. Qed.

(** A pattern that starts with [^] matches, if at all, at the start of
    the line, where the same pattern without [^] matches the same way. *)
Lemma search_anchored (ic : bool) (r : Re.regex) (s : string) :
  is_Some (Re.search ic (Re.Seq Re.Bol r) s) →
  ∃ m, Re.search ic r s = Some m ∧ Re.at_pos ic r 0 s = Some m.
Proof.
  unfold Re.search. intros [m H].
  assert (Hat : Re.at_pos ic r 0 s = Some m).
  { destruct s as [|c s]; cbn [Re.search_from] in H.
    - change (Re.at_pos ic (Re.Seq Re.Bol r) 0 EmptyString)
        with (Re.at_pos ic r 0 EmptyString) in H.
      destruct (Re.at_pos ic r 0 EmptyString); [congruence | discriminate].
    - change (Re.at_pos ic (Re.Seq Re.Bol r) 0 (String c s))
        with (Re.at_pos ic r 0 (String c s)) in H.
      destruct (Re.at_pos ic r 0 (String c s)); [congruence|].
      rewrite search_from_anchored_later in H. discriminate. }
  exists m. split; [|exact Hat].
  destruct s as [|c s]; cbn [Re.search_from]; rewrite Hat; reflexivity.
Qed.

(** ** The classifier never fails but on one kind of line *)

Lemma take_all (s : string) : Py.take (String.length s) s = s.
Proof. induction s as [|c s IH]; cbn; [reflexivity | f_equal; exact IH]. Qed.

Lemma slice_from_start (s : string) : Py.slice s (Some 0) None = s.
Proof.
  unfold Py.slice, Py.norm_index, Py.len. cbn.
  rewrite Z.min_l by lia. rewrite Z.sub_0_r, Nat2Z.id. apply take_all.
Qed.

Lemma startswith_char (s : string) (c : ascii) :
  Py.startswith s (String c EmptyString) 0 = true → ∃ rest, s = String c rest.
Proof.
  unfold Py.startswith. rewrite slice_from_start.
  destruct s as [|d s]; [discriminate|].
  change (String.prefix (String c EmptyString) (String d s))
    with (if ascii_dec c d then String.prefix EmptyString s else false).
  destruct (ascii_dec c d) as [->|]; [eauto | discriminate].
Qed.

Lemma startswith_first (s p : string) (c : ascii) :
  Py.startswith s (String c p) 0 = true → ∃ rest, s = String c rest.
Proof.
  unfold Py.startswith. rewrite slice_from_start.
  destruct s as [|d s]; [discriminate|].
  change (String.prefix (String c p) (String d s))
    with (if ascii_dec c d then String.prefix p s else false).
  destruct (ascii_dec c d) as [->|]; [eauto | discriminate].
Qed.

Lemma orelse_is_Some {A : Type} (e d : option A) :
  is_Some d → is_Some (match e with Some x => Some x | None => d end).
Proof. destruct e; eauto. Qed.

Lemma rmatch_seq {A : Type} (ic : bool) (r1 r2 : Re.regex) (pos : nat)
    (s : string) (caps : Re.captures) (k : nat → string → Re.captures → option A) :
  Re.rmatch ic (Re.Seq r1 r2) pos s caps k
  = Re.rmatch ic r1 pos s caps (fun p s' c => Re.rmatch ic r2 p s' c k).
Proof. reflexivity. Qed.

Lemma rmatch_group {A : Type} (ic : bool) (n : nat) (r : Re.regex) (pos : nat)
    (s : string) (caps : Re.captures) (k : nat → string → Re.captures → option A) :
  Re.rmatch ic (Re.Group n r) pos s caps k
  = Re.rmatch ic r pos s caps
      (fun p s' c => k p s' ((n, Py.take (p - pos) s) :: c)).
Proof. reflexivity. Qed.

Lemma rmatch_class {A : Type} (ic : bool) (items : list Re.item) (pos : nat)
    (d : ascii) (s : string) (caps : Re.captures)
    (k : nat → string → Re.captures → option A) :
  Re.in_class ic items d = true →
  Re.rmatch ic (Re.Class items) pos (String d s) caps k = k (S pos) s caps.
Proof. intros H. cbn [Re.rmatch]. rewrite H. reflexivity. Qed.

(** [re.match] of the directive pattern succeeds on every line that
    starts with a letter, a digit or a dot. *)
Lemma directive_re_matches (c : ascii) (rest : string) :
  directive_start c = true →
  is_Some (Re.match_ false Pat.directive_re (String c rest)).
Proof.
  intros Hc. unfold Re.match_, Re.at_pos, Pat.directive_re.
  assert (Hin : Re.in_class false (Pat.alnum ++ [Re.One "."]) c = true).
  { unfold Re.in_class. unfold directive_start in Hc. rewrite Hc. reflexivity. }
  rewrite rmatch_seq. unfold Re.Opt at 1. cbn [Re.rmatch].
  apply orelse_is_Some.
  unfold Re.Plus. rewrite rmatch_seq, rmatch_group, rmatch_seq.
  rewrite (rmatch_class _ _ _ _ _ _ _ Hin).
  apply rmatch_opt_accepts. apply rmatch_star_accepts. eauto.
Qed.

(** The classifier raises on a line only when [END] stands at position 2
    of the line and the line starts with a character that is not a
    letter, a digit or a dot (the one case in which
    [re.match(...).group(0)] is called on None). *)
Theorem classify_line_raises_only (line : string) :
  classify_line line = None →
  Py.startswith line "END" IGNORECASE = true
  ∧ ∀ c rest, line = String c rest → directive_start c = false.
Proof.
  unfold classify_line. intros H.
  destruct (Py.len line =? 0); [discriminate|].
  destruct (Py.startswith line ";  " 0); [discriminate|].
  case_bool_decide; [discriminate|].
  destruct (Py.startswith line ";" 0); [discriminate|].
  destruct (Py.startswith line "." 0 || Py.startswith line "INCLUDE" 0
            || Py.startswith line "END" IGNORECASE) eqn:Hdir.
  - destruct (Re.match_ false Pat.directive_re line) as [m|] eqn:Hm;
      [discriminate|].
    assert (Hfirst : ∀ c rest, line = String c rest → directive_start c = false).
    { intros c rest ->. destruct (directive_start c) eqn:Hc; [|reflexivity].
      destruct (directive_re_matches c rest Hc) as [m Hm']. congruence. }
    split; [|exact Hfirst].
    apply orb_prop in Hdir as [Hdir|Hdir]; [|exact Hdir].
    apply orb_prop in Hdir as [Hdir|Hdir];
      apply startswith_first in Hdir as [rest Hrest];
      specialize (Hfirst _ _ Hrest); discriminate.
  - case_bool_decide as Hdata.
    + exfalso. apply search_anchored in Hdata as (m & Hs & Hat).
      rewrite Hs in H. cbn in H.
      destruct (at_pos_groups _ _ _ _ _ Hat 1%nat eq_refl) as [g1 H1].
      destruct (at_pos_groups _ _ _ _ _ Hat 2%nat eq_refl) as [g2 H2].
      unfold Re.group in H. rewrite H1, H2 in H. discriminate.
    + case_bool_decide as Hproc.
      * exfalso. apply search_anchored in Hproc as (m & Hs & Hat).
        rewrite Hs in H. cbn in H.
        destruct (at_pos_groups _ _ _ _ _ Hat 1%nat eq_refl) as [g1 H1].
        destruct (at_pos_groups _ _ _ _ _ Hat 2%nat eq_refl) as [g2 H2].
        unfold Re.group in H. rewrite H1, H2 in H. discriminate.
      * case_bool_decide as Hins; [|discriminate].
        exfalso. destruct Hins as [m Hs].
        rewrite Hs in H. cbn in H.
        destruct (search_from_groups _ _ _ _ _ Hs 1%nat eq_refl) as [g1 H1].
        unfold Re.group in H. rewrite H1 in H. discriminate.
Qed.

(** There are such lines. *)
Example classify_line_raises : classify_line "@@END" = None.
Proof. vm_compute. reflexivity. Qed.

Lemma classify_line_raises_only_witness :
  Py.startswith "@@END" "END" IGNORECASE = true
  ∧ ∀ c rest, "@@END" = String c rest → directive_start c = false.
Proof.
  apply (classify_line_raises_only "@@END"). vm_compute. reflexivity.
Defined.

(** ** What one iteration of the pass does, whenever it completes *)

Lemma merge_extension_inv (cfg : config) (n : nat) (l l' : list token) :
  merge_extension cfg n l = Some l' →
  ∃ tn, l !! n = Some tn
        ∧ (l' = l
           ∨ ∃ j tp tp',
               n = S j ∧ fix_file_width cfg = true ∧ is_ext tn
               ∧ l !! j = Some tp ∧ touched tp tp'
               ∧ l' = <[n := set_type to_remove tn]> (<[j := tp']> l)).
Proof.
  unfold merge_extension. intros H.
  destruct (l !! n) as [tn|] eqn:Hn; [|discriminate]. cbn in H.
  exists tn. split; [reflexivity|].
  destruct (fix_file_width cfg) eqn:Hf; [|left; cbn in H; congruence].
  destruct n as [|j]; [left; cbn in H; congruence|].
  destruct (bool_decide (tk_type tn = comment)) eqn:Hty;
    [apply bool_decide_eq_true in Hty | left; cbn in H; congruence].
  cbn in H.
  destruct (tk_subtype tn) as [sub|] eqn:Hsub; [|discriminate]. cbn in H.
  destruct (bool_decide (sub = extension)) eqn:Hx;
    [apply bool_decide_eq_true in Hx; subst sub | left; congruence].
  rewrite ?Nat.sub_0_r in H.
  destruct (l !! j) as [tp|] eqn:Hp; [|discriminate]. cbn in H.
  right.
  destruct (bool_decide (tk_type tp = comment)) eqn:Htp.
  - apply bool_decide_eq_true in Htp.
    destruct (tk_value tp) as [[|pv]|] eqn:Hpv; try discriminate. cbn in H.
    destruct (tk_value tn) as [[|v]|] eqn:Hv; try discriminate. cbn in H.
    rewrite list_lookup_insert_ne in H by lia. rewrite Hn in H. cbn in H.
    injection H as <-.
    eexists j, tp, _. repeat split; eauto.
    right. left. eauto.
  - apply bool_decide_eq_false in Htp.
    destruct (tk_comment tp) as [pc|] eqn:Hpc; [|discriminate]. cbn in H.
    destruct (tk_value tn) as [[|v]|] eqn:Hv; try discriminate. cbn in H.
    rewrite list_lookup_insert_ne in H by lia. rewrite Hn in H. cbn in H.
    injection H as <-.
    eexists j, tp, _. repeat split; eauto.
    right. right. eexists. split; [reflexivity|]. split; [exact Htp|]. eauto.
Qed.

Lemma capitalize_inv (cfg : config) (t t' : token) :
  capitalize cfg t = Some t' →
  tk_type t' = tk_type t
  ∧ tk_subtype t' = tk_subtype t
  ∧ tk_field t' = tk_field t
  ∧ tk_label t' = tk_label t
  ∧ tk_comment t' = tk_comment t
  ∧ tk_error t' = tk_error t
  ∧ tk_indent t' = tk_indent t
  ∧ tk_operands t' = tk_operands t
  ∧ tk_mnemonic t'
    = (if fix_capitalization cfg then Py.lower <$> tk_mnemonic t
       else tk_mnemonic t)
  ∧ tk_directive t'
    = (if fix_capitalization cfg then Py.upper <$> tk_directive t
       else tk_directive t)
  ∧ (tk_value t' = tk_value t
     ∨ ∃ x y, tk_value t = Some (PyStr x) ∧ tk_value t' = Some (PyStr y)).
Proof.
  unfold capitalize. intros H.
  destruct t as [ty sub fld val cmt lbl dir mn ops err ind].
  destruct (fix_capitalization cfg);
    [|injection H as <-; cbn; repeat split; auto].
  destruct mn as [mn|], dir as [dir|]; cbn in H;
    (case_bool_decide;
     [ destruct val as [[|v]|]; cbn in H; try discriminate;
       injection H as <-; cbn; repeat split; eauto
     | injection H as <-; cbn; repeat split; auto ]).
Qed.

Lemma measure_inv (cfg : config) (n : nat) (a a' : agg) :
  measure cfg n a = Some a' →
  ∃ t t',
    tokens a !! n = Some t
    ∧ tokens a' !! n = Some t'
    ∧ length (tokens a') = length (tokens a)
    ∧ (∀ k, k ≠ n → tokens a' !! k = tokens a !! k)
    ∧ (tk_type t' = tk_type t
       ∨ tk_type t' = to_remove
         ∧ tk_type t = blank_line ∧ fix_blank_lines cfg = true)
    ∧ tk_subtype t' = tk_subtype t
    ∧ tk_field t' = tk_field t
    ∧ tk_label t' = tk_label t
    ∧ tk_comment t' = tk_comment t
    ∧ tk_error t' = tk_error t
    ∧ tk_indent t' = tk_indent t
    ∧ tk_mnemonic t' = tk_mnemonic t
    ∧ tk_directive t' = tk_directive t
    ∧ (tk_operands t' = tk_operands t
       ∨ ∃ x, tk_operands t = Some (PyStr x)
              ∧ tk_operands t' = Some (PyStr (respace_commas x)))
    ∧ (tk_value t' = tk_value t
       ∨ ∃ x y, tk_value t = Some (PyStr x) ∧ tk_value t' = Some (PyStr y))
    ∧ measured a' t'
    ∧ grown a a'.
Proof.
  unfold measure. intros H.
  destruct (tokens a !! n) as [t|] eqn:Hn; [|discriminate]. cbn in H.
  assert (Hlt : (n < length (tokens a))%nat) by (eapply lookup_lt_Some, Hn).
  exists t.
  assert (Hgoal : ∀ P : token → Prop, (∃ t', P t') → ∃ t', Some t = Some t ∧ P t')
    by (intros P [t' ?]; eauto).
  apply Hgoal. clear Hgoal.
  assert (Hsame : ∀ b : agg,
             tokens b = tokens a → measured b t → grown a b →
             ∃ t', tokens b !! n = Some t'
                   ∧ length (tokens b) = length (tokens a)
                   ∧ (∀ k, k ≠ n → tokens b !! k = tokens a !! k)
                   ∧ (tk_type t' = tk_type t
                      ∨ tk_type t' = to_remove
                        ∧ tk_type t = blank_line ∧ fix_blank_lines cfg = true)
                   ∧ tk_subtype t' = tk_subtype t
                   ∧ tk_field t' = tk_field t
                   ∧ tk_label t' = tk_label t
                   ∧ tk_comment t' = tk_comment t
                   ∧ tk_error t' = tk_error t
                   ∧ tk_indent t' = tk_indent t
                   ∧ tk_mnemonic t' = tk_mnemonic t
                   ∧ tk_directive t' = tk_directive t
                   ∧ (tk_operands t' = tk_operands t
                      ∨ ∃ x, tk_operands t = Some (PyStr x)
                             ∧ tk_operands t' = Some (PyStr (respace_commas x)))
                   ∧ (tk_value t' = tk_value t
                      ∨ ∃ x y, tk_value t = Some (PyStr x)
                               ∧ tk_value t' = Some (PyStr y))
                   ∧ measured b t'
                   ∧ grown a b).
  { intros b Hb Hm Hg. exists t. rewrite Hb. repeat split; auto; apply Hg. }
  assert (Hrefl : grown a a) by (unfold grown; lia).
  destruct (tk_type t) eqn:Hty.
  - (* blank_line *)
    match type of H with (if ?c then _ else _) = _ => destruct c eqn:Hb end.
    + destruct (tokens a !! (n - 1)%nat) as [tp|]; [|discriminate]. cbn in H.
      case_bool_decide.
      * injection H as <-. eexists. cbn.
        split; [apply list_lookup_insert_eq; exact Hlt|].
        rewrite length_insert. split; [reflexivity|].
        split; [intros k Hk; apply list_lookup_insert_ne; congruence|].
        cbn. apply andb_prop in Hb as [Hb _].
        repeat split; auto; try apply Hrefl; try (unfold measured; cbn; exact I).
      * injection H as <-. apply Hsame; auto. unfold measured. rewrite Hty. exact I.
    + injection H as <-. apply Hsame; auto. unfold measured. rewrite Hty. exact I.
  - (* comment *)
    destruct (tk_subtype t) as [sub|] eqn:Hsub; [|discriminate]. cbn in H.
    case_bool_decide as Hh.
    + destruct (tk_field t) as [f|] eqn:Hf; [|discriminate]. cbn in H.
      injection H as <-. apply Hsame; [reflexivity| |unfold grown; cbn; lia].
      unfold measured. rewrite Hty. intros _. exists f. split; [exact Hf|]. cbn. lia.
    + injection H as <-. apply Hsame; auto.
      unfold measured. rewrite Hty, Hsub. intros [= ->]. contradiction.
  - (* directive *)
    injection H as <-. apply Hsame; auto. unfold measured. rewrite Hty. exact I.
  - (* data *)
    destruct (tk_label t) as [l|] eqn:Hl; [|discriminate]. cbn in H.
    destruct (tk_directive t) as [d|] eqn:Hd; [|discriminate]. cbn in H.
    assert (Hm : ∀ b : agg,
               max_label_size b = Z.max (max_label_size a) (Py.len l) →
               max_size_size b = Z.max (max_size_size a) (Py.len d) →
               ∀ t', tk_type t' = data → tk_label t' = Some l →
                     tk_directive t' = Some d → measured b t').
    { intros b Hb1 Hb2 t' Ht' Hl' Hd'. unfold measured. rewrite Ht'.
      exists l, d. repeat split; auto; lia. }
    destruct (add_spaces_between_initial_values cfg).
    + destruct (tk_value t) as [[|x]|] eqn:Hv; try discriminate; cbn in H.
      * injection H as <-. apply Hsame; [reflexivity| |unfold grown; cbn; lia].
        apply Hm; auto.
      * injection H as <-. eexists. cbn.
        split; [apply list_lookup_insert_eq; exact Hlt|].
        rewrite length_insert. split; [reflexivity|].
        split; [intros k Hk; apply list_lookup_insert_ne; congruence|].
        cbn. rewrite Hty.
        repeat split; eauto; try (unfold grown; cbn; lia); try (apply Hm; auto).
    + cbn in H. injection H as <-.
      apply Hsame; [reflexivity| |unfold grown; cbn; lia]. apply Hm; auto.
  - (* procedure *)
    injection H as <-. apply Hsame; auto. unfold measured. rewrite Hty. exact I.
  - (* instruction *)
    destruct (tk_mnemonic t) as [m|] eqn:Hmn; [|discriminate]. cbn in H.
    assert (Hm : ∀ b : agg,
               max_mnemonic_size b = Z.max (max_mnemonic_size a) (Py.len m) →
               ∀ t', tk_type t' = instruction → tk_mnemonic t' = Some m →
                     measured b t').
    { intros b Hb1 t' Ht' Hm'. unfold measured. rewrite Ht'.
      exists m. split; auto; lia. }
    destruct (add_spaces_between_operands cfg).
    + destruct (tk_operands t) as [[|x]|] eqn:Hv; try discriminate; cbn in H.
      * injection H as <-. apply Hsame; [reflexivity| |unfold grown; cbn; lia].
        apply Hm; auto.
      * injection H as <-. eexists. cbn.
        split; [apply list_lookup_insert_eq; exact Hlt|].
        rewrite length_insert. split; [reflexivity|].
        split; [intros k Hk; apply list_lookup_insert_ne; congruence|].
        cbn. rewrite Hty.
        repeat split; eauto; try (unfold grown; cbn; lia); try (apply Hm; auto).
    + cbn in H. injection H as <-.
      apply Hsame; [reflexivity| |unfold grown; cbn; lia]. apply Hm; auto.
  - (* error *)
    destruct (tk_error t) as [e|]; [|discriminate]. cbn in H.
    destruct (tk_value t) as [[|v]|]; try discriminate. cbn in H.
    injection H as <-. apply Hsame; auto. unfold measured. rewrite Hty. exact I.
  - (* to_remove *)
    injection H as <-. apply Hsame; auto. unfold measured. rewrite Hty. exact I.
Qed.

Lemma process_token_inv (cfg : config) (n : nat) (a a' : agg) :
  process_token cfg n a = Some a' →
  ∃ tn t',
    tokens a !! n = Some tn
    ∧ tokens a' !! n = Some t'
    ∧ length (tokens a') = length (tokens a)
    ∧ (∀ k, k ≠ n → S k ≠ n → tokens a' !! k = tokens a !! k)
    ∧ (∀ j tp, n = S j → tokens a !! j = Some tp →
               ∃ tp', tokens a' !! j = Some tp' ∧ touched tp tp')
    ∧ handled cfg tn t'
    ∧ measured a' t'
    ∧ grown a a'.
Proof.
  unfold process_token. intros H.
  destruct (merge_extension cfg n (tokens a)) as [toks1|] eqn:Hmerge;
    [|discriminate]. cbn in H.
  destruct (toks1 !! n) as [t1|] eqn:H1; [|discriminate]. cbn in H.
  destruct (capitalize cfg t1) as [t2|] eqn:Hcap; [|discriminate]. cbn in H.
  apply merge_extension_inv in Hmerge as (tn & Hn & Hmerge).
  apply capitalize_inv in Hcap
    as (C1 & C2 & C3 & C4 & C5 & C6 & C7 & C8 & C9 & C10 & C11).
  apply measure_inv in H
    as (t & t' & Ht & Ht' & Hlen & Hframe & M1 & M2 & M3 & M4 & M5 & M6 & M7
        & M8 & M9 & M10 & M11 & Hmeas & Hgrow).
  cbn in Ht, Hlen, Hframe, Hgrow.
  assert (Hlt1 : (n < length toks1)%nat) by (eapply lookup_lt_Some, H1).
  rewrite list_lookup_insert_eq in Ht by exact Hlt1. injection Ht as <-.
  rewrite length_insert in Hlen.
  exists tn, t'. split; [exact Hn|]. split; [exact Ht'|].
  assert (Hval : ∀ u0 u1 u2 u3 : option pyopt,
             u1 = u0 →
             (u2 = u1 ∨ ∃ x y, u1 = Some (PyStr x) ∧ u2 = Some (PyStr y)) →
             (u3 = u2 ∨ ∃ x y, u2 = Some (PyStr x) ∧ u3 = Some (PyStr y)) →
             u3 = u0 ∨ ∃ x y, u0 = Some (PyStr x) ∧ u3 = Some (PyStr y)).
  { intros u0 u1 u2 u3 -> [->|(x & y & -> & ->)] [->|(x' & y' & Hx & ->)];
      eauto 10. }
  destruct Hmerge as [->|(j & tp & tp' & -> & Hfix & Hext & Hp & Htouch & ->)].
  - (* nothing merged *)
    assert (t1 = tn) as -> by congruence.
    split; [exact Hlen|]. split.
    { intros k Hk _. rewrite Hframe by exact Hk.
      apply list_lookup_insert_ne. congruence. }
    split.
    { intros j tp -> Hp. exists tp. split; [|left; reflexivity].
      rewrite Hframe by lia. rewrite list_lookup_insert_ne by lia. exact Hp. }
    split; [|split; [exact Hmeas | exact Hgrow]].
    unfold handled. rewrite M2, M3, M4, M5, M6, M7, M8, M9, C2, C3, C4, C5, C6, C7, C9, C10.
    split.
    { destruct M1 as [M1|(M1 & M1' & M1'')]; [left; congruence|].
      right. split; [exact M1|]. left. split; [congruence | exact M1'']. }
    repeat (split; [reflexivity|]).
    split.
    { destruct M10 as [M10|(x & Hx & Hx')]; [left; congruence|].
      right. exists x. split; congruence. }
    eapply Hval; eauto.
  - (* an extension merged into the token before *)
    rewrite list_lookup_insert_eq in H1 by (rewrite length_insert; eapply lookup_lt_Some, Hn).
    injection H1 as <-. cbn in C1, C2, C3, C4, C5, C6, C7, C8, C9, C10, C11.
    rewrite !length_insert in Hlen.
    split; [exact Hlen|]. split.
    { intros k Hk Hk'. rewrite Hframe by exact Hk.
      rewrite !list_lookup_insert_ne by lia. reflexivity. }
    split.
    { intros j' tp0 Hj Hp0. injection Hj as <-.
      assert (tp0 = tp) as -> by congruence.
      exists tp'. split; [|exact Htouch].
      rewrite Hframe by lia. rewrite !list_lookup_insert_ne by lia.
      apply list_lookup_insert_eq. eapply lookup_lt_Some, Hp. }
    split; [|split; [exact Hmeas | exact Hgrow]].
    unfold handled. rewrite M2, M3, M4, M5, M6, M7, M8, M9, C2, C3, C4, C5, C6, C7, C9, C10.
    split.
    { right. split; [|right; split; assumption].
      destruct M1 as [M1|(M1 & _)]; congruence. }
    repeat (split; [reflexivity|]).
    split.
    { destruct M10 as [M10|(x & Hx & Hx')]; [left; congruence|].
      right. exists x. split; congruence. }
    eapply (Hval (tk_value tn) (tk_value tn)); eauto.
Qed.

(** ** The pass as a whole, whenever it completes *)

Lemma process_from_invariant (cfg : config) (I : nat → agg → Prop) (m : nat) :
  ∀ (n : nat) (a a' : agg),
    (∀ k b b', (n ≤ k < n + m)%nat → I k b →
               process_token cfg k b = Some b' → I (S k) b') →
    I n a → process_from cfg (seq n m) a = Some a' → I (n + m)%nat a'.
Proof.
  induction m as [|m IH]; intros n a a' Hstep Hn H; cbn in H.
  - injection H as <-. rewrite Nat.add_0_r. exact Hn.
  - destruct (process_token cfg n a) as [a1|] eqn:H1; [|discriminate]. cbn in H.
    replace (n + S m)%nat with (S n + m)%nat by lia.
    apply (IH (S n) a1 a'); [|eapply Hstep; eauto; lia|exact H].
    intros k b b' Hk. apply Hstep. lia.
Qed.

Lemma process_tokens_invariant (cfg : config) (I : nat → agg → Prop)
    (toks : list token) (a : agg) :
  (∀ k b b', (k < length toks)%nat → I k b →
             process_token cfg k b = Some b' → I (S k) b') →
  I 0%nat (agg_init toks) →
  process_tokens cfg toks = Some a → I (length toks) a.
Proof.
  intros Hstep H0 H. unfold process_tokens in H.
  apply (process_from_invariant cfg I (length toks) 0 _ a) in H0; auto.
  intros k b b' Hk. apply Hstep. lia.
Qed.

Lemma touched_type (tp tp' : token) : touched tp tp' → tk_type tp' = tk_type tp.
Proof. intros [->|[(x & -> & _)|(x & -> & _)]]; reflexivity. Qed.

(** The pass keeps the number and the order of the tokens; the token of
    each line is the classifier's, handled once and possibly extended by
    the line after it. *)
Lemma pass_effect (cfg : config) (toks : list token) (a : agg) :
  process_tokens cfg toks = Some a →
  length (tokens a) = length toks
  ∧ ∀ k t0, toks !! k = Some t0 →
            ∃ t, tokens a !! k = Some t ∧ passed cfg t0 t.
Proof.
  intros H.
  pose (I := fun (n : nat) (b : agg) =>
               length (tokens b) = length toks
               ∧ (∀ k, (n ≤ k)%nat → tokens b !! k = toks !! k)
               ∧ (∀ k t0, (k < n)%nat → toks !! k = Some t0 →
                          ∃ t1 t, tokens b !! k = Some t
                                  ∧ handled cfg t0 t1 ∧ touched t1 t
                                  ∧ (S k = n → t = t1))).
  assert (HI : I (length toks) a).
  { apply (process_tokens_invariant cfg I toks a); [| |exact H].
    - intros n b b' Hn (Hlen & Hrest & Hdone) Hstep.
      apply process_token_inv in Hstep
        as (tn & t' & Htn & Ht' & Hlen' & Hframe & Hprev & Hh & _ & _).
      split; [congruence|]. split.
      + intros k Hk. rewrite Hframe by lia. apply Hrest. lia.
      + intros k t0 Hk Hk0.
        destruct (decide (k = n)) as [->|Hkn].
        * exists t', t'. rewrite Hrest in Htn by lia.
          assert (t0 = tn) as -> by congruence.
          split; [exact Ht'|]. split; [exact Hh|]. split; [left; reflexivity|auto].
        * destruct (Hdone k t0 ltac:(lia) Hk0) as (t1 & t & Ht & Hh1 & Ht1 & Heq).
          destruct (decide (S k = n)) as [Hs|Hs].
          -- specialize (Heq Hs). subst t.
             destruct (Hprev k t1 (eq_sym Hs) Ht) as (tp' & Htp' & Htouch).
             exists t1, tp'. split; [exact Htp'|]. split; [exact Hh1|].
             split; [exact Htouch|]. intros. exfalso. lia.
          -- exists t1, t. rewrite Hframe by lia. split; [exact Ht|].
             split; [exact Hh1|]. split; [exact Ht1|]. intros. exfalso. lia.
    - split; [reflexivity|]. split; [reflexivity|]. intros k t0 Hk. lia. }
  destruct HI as (Hlen & _ & Hdone). split; [exact Hlen|].
  intros k t0 Hk.
  destruct (Hdone k t0 ltac:(eapply lookup_lt_Some, Hk) Hk)
    as (t1 & t & Ht & Hh & Htouch & _).
  exists t. split; [exact Ht|]. exists t1. split; assumption.
Qed.

(** The pass marks for removal only blank lines, and those only with
    [fix_blank_lines], and comment extensions, and those only with
    [fix_file_width]; every other token keeps its type and its place. *)
Theorem pass_removes_only_blank_and_extension (cfg : config)
    (toks : list token) (a : agg) :
  process_tokens cfg toks = Some a →
  length (tokens a) = length toks
  ∧ ∀ k t0, toks !! k = Some t0 →
            ∃ t, tokens a !! k = Some t
                 ∧ (tk_type t = tk_type t0
                    ∨ tk_type t = to_remove
                      ∧ (tk_type t0 = blank_line ∧ fix_blank_lines cfg = true
                         ∨ is_ext t0 ∧ fix_file_width cfg = true)).
Proof.
  intros H. destruct (pass_effect cfg toks a H) as [Hlen Hk].
  split; [exact Hlen|]. intros k t0 Ht0.
  destruct (Hk k t0 Ht0) as (t & Ht & t1 & Hh & Htouch).
  exists t. split; [exact Ht|].
  rewrite (touched_type _ _ Htouch). exact (proj1 Hh).
Qed.

Lemma pass_removes_only_blank_and_extension_witness :
  ∃ a, process_tokens DEFAULT_CONFIG hello_tokens = Some a
       ∧ length (tokens a) = length hello_tokens
       ∧ ∀ k t0, hello_tokens !! k = Some t0 →
                 ∃ t, tokens a !! k = Some t
                      ∧ (tk_type t = tk_type t0
                         ∨ tk_type t = to_remove
                           ∧ (tk_type t0 = blank_line
                              ∧ fix_blank_lines DEFAULT_CONFIG = true
                              ∨ is_ext t0 ∧ fix_file_width DEFAULT_CONFIG = true)).
Proof.
  eexists. split; [vm_compute; reflexivity|].
  apply (pass_removes_only_blank_and_extension DEFAULT_CONFIG hello_tokens).
  vm_compute. reflexivity.
Defined.

Lemma remove_marked_all (l : list token) :
  Forall (fun t => tk_type t ≠ to_remove) l → remove_marked l = l.
Proof.
  unfold remove_marked. induction 1 as [|t l Ht _ IH]; [reflexivity|].
  rewrite filter_cons. destruct (decide (tk_type t ≠ to_remove)); [|contradiction].
  f_equal. exact IH.
Qed.

(** With [fix_blank_lines] and [fix_file_width] both off, every line of
    the file keeps its token: nothing is removed before rendering. *)
Theorem nothing_removed_with_fixes_off (cfg : config) (lines : list string)
    (toks : list token) (a : agg) :
  fix_blank_lines cfg = false →
  fix_file_width cfg = false →
  tokenize cfg lines = Some toks →
  process_tokens cfg toks = Some a →
  remove_marked (tokens a) = tokens a
  ∧ length (remove_marked (tokens a)) = length lines.
Proof.
  intros Hb Hw Htok Hrun.
  destruct (pass_effect cfg toks a Hrun) as [Hlen Hk].
  pose proof (tokenize_shaped cfg lines toks Htok) as Hshaped.
  assert (Hall : remove_marked (tokens a) = tokens a).
  { apply remove_marked_all. apply Forall_lookup_2. intros k t Ht.
    assert (Hklt : (k < length toks)%nat).
    { rewrite <- Hlen. eapply lookup_lt_Some, Ht. }
    destruct (lookup_lt_is_Some_2 toks k Hklt) as [t0 Ht0].
    destruct (Hk k t0 Ht0) as (t' & Ht' & t1 & Hh & Htouch).
    assert (t' = t) as -> by congruence.
    pose proof (proj1 Hh) as Hty. rewrite <- (touched_type _ _ Htouch) in Hty.
    destruct Hty as [Hty|(_ & [[_ Hf]|[_ Hf]])]; try congruence.
    rewrite Hty. intros Hrem.
    pose proof (Forall_lookup_1 _ _ _ _ Hshaped Ht0) as Hs.
    unfold shaped in Hs. rewrite Hrem in Hs. exact Hs. }
  split; [exact Hall|].
  rewrite Hall, Hlen. eapply tokenize_length, Htok.
Qed.

Lemma nothing_removed_with_fixes_off_witness :
  ∃ toks a,
    tokenize fixes_off (as_lines ["mov eax, 1"; ""; ""; ";  more"]) = Some toks
    ∧ process_tokens fixes_off toks = Some a
    ∧ remove_marked (tokens a) = tokens a
    ∧ length (remove_marked (tokens a))
      = length (as_lines ["mov eax, 1"; ""; ""; ";  more"]).
Proof.
  eexists _, _.
  split; [vm_compute; reflexivity|]. split; [vm_compute; reflexivity|].
  eapply (nothing_removed_with_fixes_off fixes_off
            (as_lines ["mov eax, 1"; ""; ""; ";  more"])).
  - reflexivity.
  - reflexivity.
  - vm_compute. reflexivity.
  - vm_compute. reflexivity.
Defined.

Lemma touched_fields (tp tp' : token) :
  touched tp tp' →
  tk_subtype tp' = tk_subtype tp ∧ tk_field tp' = tk_field tp
  ∧ tk_label tp' = tk_label tp ∧ tk_error tp' = tk_error tp
  ∧ tk_indent tp' = tk_indent tp ∧ tk_mnemonic tp' = tk_mnemonic tp
  ∧ tk_directive tp' = tk_directive tp ∧ tk_operands tp' = tk_operands tp.
Proof. intros [->|[(x & -> & _)|(x & -> & _)]]; cbn; repeat split. Qed.

(** The pass changes the case of mnemonics and of size directives, and
    that only with [fix_capitalization]; it never changes a label, a
    header field, a subtype or the recorded indentation. *)
Theorem pass_keeps_fields (cfg : config) (toks : list token) (a : agg)
    (k : nat) (t0 t : token) :
  process_tokens cfg toks = Some a →
  toks !! k = Some t0 → tokens a !! k = Some t →
  tk_label t = tk_label t0
  ∧ tk_field t = tk_field t0
  ∧ tk_subtype t = tk_subtype t0
  ∧ tk_indent t = tk_indent t0
  ∧ tk_mnemonic t
    = (if fix_capitalization cfg then Py.lower <$> tk_mnemonic t0
       else tk_mnemonic t0)
  ∧ tk_directive t
    = (if fix_capitalization cfg then Py.upper <$> tk_directive t0
       else tk_directive t0).
Proof.
  intros H Ht0 Ht. destruct (pass_effect cfg toks a H) as [_ Hk].
  destruct (Hk k t0 Ht0) as (t' & Ht' & t1 & Hh & Htouch).
  assert (t' = t) as -> by congruence.
  destruct (touched_fields _ _ Htouch) as (F1 & F2 & F3 & F4 & F5 & F6 & F7 & F8).
  destruct Hh as (_ & H2 & H3 & H4 & _ & _ & H7 & H8 & H9 & _).
  rewrite F1, F2, F3, F5, F6, F7. repeat split; congruence.
Qed.

Lemma pass_keeps_fields_witness :
  let t0 := set_comment PyNone
              (set_operands (PyStr "EAX,1") (set_mnemonic "MOV" (mk_token instruction))) in
  let t := set_operands (PyStr "EAX, 1")
             (set_mnemonic "mov" t0) in
  tk_label t = tk_label t0
  ∧ tk_field t = tk_field t0
  ∧ tk_subtype t = tk_subtype t0
  ∧ tk_indent t = tk_indent t0
  ∧ tk_mnemonic t
    = (if fix_capitalization DEFAULT_CONFIG then Py.lower <$> tk_mnemonic t0
       else tk_mnemonic t0)
  ∧ tk_directive t
    = (if fix_capitalization DEFAULT_CONFIG then Py.upper <$> tk_directive t0
       else tk_directive t0).
Proof.
  cbv zeta.
  eapply (pass_keeps_fields DEFAULT_CONFIG
            [set_comment PyNone
               (set_operands (PyStr "EAX,1")
                  (set_mnemonic "MOV" (mk_token instruction)))] _ 0%nat).
  - vm_compute. reflexivity.
  - reflexivity.
  - reflexivity.
Defined.

(** ** Alignment *)

Lemma append_cons (c : ascii) (s t : string) :
  String c s +:+ t = String c (s +:+ t).
Proof. reflexivity. Qed.




Lemma measured_grown (a a' : agg) (t : token) :
  grown a a' → measured a t → measured a' t.
Proof.
  unfold grown, measured. intros (G1 & G2 & G3 & G4) H.
  destruct (tk_type t); auto.
  - intros Hh. destruct (H Hh) as (f & Hf & Hle). exists f. split; [exact Hf | lia].
  - destruct H as (l & d & Hl & Hd & H1 & H2). exists l, d. repeat split; auto; lia.
  - destruct H as (m & Hm & Hle). exists m. split; [exact Hm | lia].
Qed.

Lemma measured_touched (a : agg) (tp tp' : token) :
  touched tp tp' → measured a tp → measured a tp'.
Proof.
  intros Ht. pose proof (touched_type _ _ Ht) as Hty.
  destruct (touched_fields _ _ Ht) as (F1 & F2 & F3 & F4 & F5 & F6 & F7 & F8).
  unfold measured. rewrite Hty, F1, F2, F3, F6, F7. auto.
Qed.

Lemma pass_measured (cfg : config) (toks : list token) (a : agg) :
  process_tokens cfg toks = Some a →
  ∀ k t, (k < length toks)%nat → tokens a !! k = Some t → measured a t.
Proof.
  intros H.
  pose (I := fun (n : nat) (b : agg) =>
               ∀ k t, (k < n)%nat → tokens b !! k = Some t → measured b t).
  assert (HI : I (length toks) a).
  { apply (process_tokens_invariant cfg I toks a); [| |exact H].
    - intros n b b' Hn Hdone Hstep.
      apply process_token_inv in Hstep
        as (tn & t' & Htn & Ht' & Hlen' & Hframe & Hprev & _ & Hm & Hg).
      intros k t Hk Ht.
      destruct (decide (k = n)) as [->|Hkn].
      + assert (t = t') as -> by congruence. exact Hm.
      + destruct (decide (S k = n)) as [Hs|Hs].
        * assert (Hkb : (k < length (tokens b))%nat).
          { rewrite <- Hlen'. eapply lookup_lt_Some, Ht. }
          destruct (lookup_lt_is_Some_2 _ _ Hkb) as [tp Htp].
          destruct (Hprev k tp (eq_sym Hs) Htp) as (tp' & Htp' & Htouch).
          assert (t = tp') as -> by congruence.
          eapply measured_touched; [exact Htouch|].
          eapply measured_grown; [exact Hg|]. apply (Hdone k); [lia | exact Htp].
        * rewrite Hframe in Ht by lia.
          eapply measured_grown; [exact Hg|]. apply (Hdone k); [lia | exact Ht].
    - intros k t Hk. lia. }
  exact HI.
Qed.

(** After the pass the running maxima are at least as large as the
    mnemonic of every instruction, the label and the size directive of
    every data line and the field of every header comment. *)
Theorem maxima_cover_widths (cfg : config) (toks : list token) (a : agg) :
  process_tokens cfg toks = Some a →
  ∀ k t, tokens a !! k = Some t → measured a t.
Proof.
  intros H k t Ht.
  destruct (pass_effect cfg toks a H) as [Hlen _].
  apply (pass_measured cfg toks a H k t); [|exact Ht].
  rewrite <- Hlen. eapply lookup_lt_Some, Ht.
Qed.

Lemma maxima_cover_widths_witness :
  ∃ a, process_tokens DEFAULT_CONFIG hello_tokens = Some a
       ∧ ∀ k t, tokens a !! k = Some t → measured a t.
Proof.
  eexists. split; [vm_compute; reflexivity|].
  apply (maxima_cover_widths DEFAULT_CONFIG hello_tokens).
  vm_compute. reflexivity.
Defined.

Lemma unify_alignment_tokens (cfg : config) (a : agg) :
  tokens (unify_alignment cfg a).2 = tokens a.
Proof. unfold unify_alignment. destruct (align_code_and_data_together cfg); reflexivity. Qed.


Lemma unify_alignment_flags (cfg : config) (a : agg) :
  align_code_section (unify_alignment cfg a).1 = align_code_section cfg
  ∧ align_data_section (unify_alignment cfg a).1 = align_data_section cfg
  ∧ align_header_comments (unify_alignment cfg a).1 = align_header_comments cfg
  ∧ fix_indents (unify_alignment cfg a).1 = fix_indents cfg
  ∧ fix_file_width (unify_alignment cfg a).1 = fix_file_width cfg
  ∧ min_data_initial_value_spacing (unify_alignment cfg a).1
    = min_data_initial_value_spacing cfg
  ∧ min_instruction_operand_spacing cfg
    ≤ min_instruction_operand_spacing (unify_alignment cfg a).1
  ∧ min_data_directive_spacing cfg
    ≤ min_data_directive_spacing (unify_alignment cfg a).1.
Proof.
  unfold unify_alignment.
  destruct (align_code_and_data_together cfg); cbn; repeat split; lia.
Qed.








(** ** Diagnostics *)

Lemma measure_diagnostics (cfg : config) (n : nat) (a a' : agg) :
  measure cfg n a = Some a' →
  ∃ t, tokens a !! n = Some t
       ∧ diagnostics a' = (diagnostics a ++ diagnostic_of n t)%list.
Proof.
  unfold measure, diagnostic_of. intros H.
  destruct (tokens a !! n) as [t|] eqn:Hn; [|discriminate]. cbn in H.
  exists t. split; [reflexivity|].
  destruct (tk_type t) eqn:Hty; cbn;
    try (rewrite bool_decide_eq_false_2 by discriminate);
    try (rewrite bool_decide_eq_true_2 by reflexivity).
  - match type of H with (if ?c then _ else _) = _ => destruct c end;
      [destruct (tokens a !! (n - 1)%nat); [|discriminate]; cbn in H;
       case_bool_decide |];
      injection H as <-; cbn; rewrite app_nil_r; reflexivity.
  - destruct (tk_subtype t); [|discriminate]. cbn in H. case_bool_decide.
    + destruct (tk_field t); [|discriminate]. cbn in H.
      injection H as <-. cbn. rewrite app_nil_r. reflexivity.
    + injection H as <-. rewrite app_nil_r. reflexivity.
  - injection H as <-. rewrite app_nil_r. reflexivity.
  - destruct (tk_label t); [|discriminate]. cbn in H.
    destruct (tk_directive t); [|discriminate]. cbn in H.
    destruct (add_spaces_between_initial_values cfg);
      [destruct (tk_value t) as [[|x]|]; try discriminate|];
      cbn in H; injection H as <-; cbn; rewrite app_nil_r; reflexivity.
  - injection H as <-. rewrite app_nil_r. reflexivity.
  - destruct (tk_mnemonic t); [|discriminate]. cbn in H.
    destruct (add_spaces_between_operands cfg);
      [destruct (tk_operands t) as [[|x]|]; try discriminate|];
      cbn in H; injection H as <-; cbn; rewrite app_nil_r; reflexivity.
  - destruct (tk_error t) as [e|]; [|discriminate]. cbn in H.
    destruct (tk_value t) as [[|v]|]; try discriminate. cbn in H.
    injection H as <-. reflexivity.
  - injection H as <-. rewrite app_nil_r. reflexivity.
Qed.

Lemma capitalize_value (cfg : config) (t t' : token) :
  capitalize cfg t = Some t' → tk_type t ≠ directive → tk_value t' = tk_value t.
Proof.
  unfold capitalize. intros H Hty.
  destruct t as [ty sub fld val cmt lbl dir mn ops err ind]. cbn in Hty.
  destruct (fix_capitalization cfg); [|injection H as <-; reflexivity].
  destruct mn as [mn|], dir as [dir|]; cbn in H;
    (rewrite bool_decide_eq_false_2 in H by exact Hty);
    injection H as <-; reflexivity.
Qed.

Lemma process_token_diagnostics (cfg : config) (n : nat) (a a' : agg) :
  process_token cfg n a = Some a' →
  ∃ tn, tokens a !! n = Some tn
        ∧ diagnostics a' = (diagnostics a ++ diagnostic_of n tn)%list.
Proof.
  unfold process_token. intros H.
  destruct (merge_extension cfg n (tokens a)) as [toks1|] eqn:Hmerge;
    [|discriminate]. cbn in H.
  destruct (toks1 !! n) as [t1|] eqn:H1; [|discriminate]. cbn in H.
  destruct (capitalize cfg t1) as [t2|] eqn:Hcap; [|discriminate]. cbn in H.
  apply merge_extension_inv in Hmerge as (tn & Hn & Hmerge).
  pose proof (capitalize_value cfg t1 t2 Hcap) as Hval.
  apply capitalize_inv in Hcap
    as (C1 & _ & _ & _ & _ & C6 & _ & _ & _ & _ & C11).
  apply measure_diagnostics in H as (t & Ht & Hd).
  cbn in Ht, Hd.
  rewrite list_lookup_insert_eq in Ht by (eapply lookup_lt_Some, H1).
  injection Ht as <-.
  exists tn. split; [exact Hn|]. rewrite Hd. f_equal.
  unfold diagnostic_of. rewrite C1, C6.
  destruct Hmerge as [->|(j & tp & tp' & -> & Hfix & [Hx1 Hx2] & Hp & Htouch & ->)].
  - assert (t1 = tn) as -> by congruence.
    case_bool_decide as Hty; [|reflexivity].
    rewrite Hval by (rewrite Hty; discriminate). reflexivity.
  - rewrite list_lookup_insert_eq in H1
      by (rewrite length_insert; eapply lookup_lt_Some, Hn).
    injection H1 as <-. cbn.
    rewrite bool_decide_eq_false_2 by discriminate.
    rewrite bool_decide_eq_false_2 by congruence. reflexivity.
Qed.

Lemma diagnostics_from_app (l1 l2 : list token) :
  ∀ i, diagnostics_from i (l1 ++ l2)
       = (diagnostics_from i l1 ++ diagnostics_from (i + length l1) l2)%list.
Proof.
  induction l1 as [|t l1 IH]; intros i; cbn.
  - rewrite Nat.add_0_r. reflexivity.
  - rewrite IH, <- app_assoc.
    replace (i + S (length l1))%nat with (S i + length l1)%nat by lia. reflexivity.
Qed.

(** The pass reports exactly the unrecognised lines: one diagnostic for
    each token of type ['error'], in the order of the file, with the
    number of its line (counted from 1), its message and its text. *)
Theorem diagnostics_are_the_errors (cfg : config) (toks : list token) (a : agg) :
  process_tokens cfg toks = Some a →
  diagnostics a = diagnostics_from 0 toks.
Proof.
  intros H.
  pose (I := fun (n : nat) (b : agg) =>
               diagnostics b = diagnostics_from 0 (take n toks)
               ∧ ∀ k, (n ≤ k)%nat → tokens b !! k = toks !! k).
  assert (HI : I (length toks) a).
  { apply (process_tokens_invariant cfg I toks a); [| |exact H].
    - intros n b b' Hn [Hd Hrest] Hstep.
      destruct (process_token_diagnostics cfg n b b' Hstep) as (tn & Htn & Hd').
      apply process_token_inv in Hstep
        as (tn' & t' & _ & _ & _ & Hframe & _).
      rewrite Hrest in Htn by lia.
      split.
      + rewrite (take_S_r _ _ _ Htn), diagnostics_from_app, Hd', Hd. cbn.
        rewrite app_nil_r, length_take, Nat.min_l by lia. reflexivity.
      + intros k Hk. rewrite Hframe by lia. apply Hrest. lia.
    - split; [reflexivity|]. reflexivity. }
  destruct HI as [Hd _]. rewrite Hd, firstn_all. reflexivity.
Qed.

Lemma diagnostics_are_the_errors_witness :
  ∃ toks a,
    tokenize DEFAULT_CONFIG (as_lines ["mov eax, 1"; "@@:"; "ret"; "123"]) = Some toks
    ∧ process_tokens DEFAULT_CONFIG toks = Some a
    ∧ diagnostics a = diagnostics_from 0 toks
    ∧ diagnostics a
      = [ {| d_line := 2; d_message := "Unrecognized Token"; d_text := "@@:" |};
          {| d_line := 4; d_message := "Unrecognized Token"; d_text := "123" |} ].
Proof.
  eexists _, _. split; [vm_compute; reflexivity|].
  split; [vm_compute; reflexivity|].
  split; [|vm_compute; reflexivity].
  eapply (diagnostics_are_the_errors DEFAULT_CONFIG). vm_compute. reflexivity.
Defined.

(** ** The emitter *)

Lemma lines_of_app (named : bool) (k : sink) (e1 e2 : list (sink * string)) :
  lines_of named k (e1 ++ e2) = (lines_of named k e1 ++ lines_of named k e2)%list.
Proof. unfold lines_of. rewrite filter_app, map_app. reflexivity. Qed.

Lemma emit_line_file (cfg : config) (r : rstate) (line : rendered) :
  ∃ s, lines_of true OutputFile (emit_line cfg r line) = [s].
Proof.
  destruct line as [s|str c d]; cbn.
  - eexists. reflexivity.
  - unfold print_wrapped.
    destruct (negb (fix_file_width cfg) || (_ <=? _)); eexists; reflexivity.
Qed.

(** With an output file named, the file receives exactly one line for
    each rendered line, wrapped or not. *)
Theorem output_file_one_line_each (cfg : config) (r : rstate) :
  length (lines_of true OutputFile (emit cfg r)) = length (parsed_tokens r).
Proof.
  unfold emit. induction (parsed_tokens r) as [|line rest IH]; [reflexivity|].
  cbn [map concat]. rewrite lines_of_app, length_app, IH.
  destruct (emit_line_file cfg r line) as [s ->]. reflexivity.
Qed.

(** Without [fix_file_width] nothing is wrapped: with an output file
    named, standard output receives no line. *)
Theorem no_continuation_without_width_fix (cfg : config) (r : rstate) :
  fix_file_width cfg = false → lines_of true Stdout (emit cfg r) = [].
Proof.
  intros Hf. unfold emit.
  induction (parsed_tokens r) as [|line rest IH]; [reflexivity|].
  cbn [map concat]. rewrite lines_of_app, IH, app_nil_r.
  destruct line as [s|str c d]; cbn; [reflexivity|].
  unfold print_wrapped. rewrite Hf. reflexivity.
Qed.

Lemma no_continuation_without_width_fix_witness :
  lines_of true Stdout (emit fixes_off wide_state) = [].
Proof. apply (no_continuation_without_width_fix fixes_off wide_state). reflexivity. Defined.

(** Without an output file every printed line goes to standard output,
    in the order of printing. *)
Theorem all_lines_on_stdout_without_file (cfg : config) (r : rstate) :
  lines_of false Stdout (emit cfg r) = map snd (emit cfg r)
  ∧ lines_of false OutputFile (emit cfg r) = [].
Proof.
  unfold lines_of. generalize (emit cfg r). intros evs.
  induction evs as [|e evs [IH1 IH2]]; [split; reflexivity|].
  rewrite !filter_cons. cbn.
  destruct (decide (Stdout = Stdout)); [|contradiction].
  destruct (decide (Stdout = OutputFile)); [discriminate|].
  cbn. rewrite IH1. split; [reflexivity | exact IH2].
Qed.

Lemma rstrip_idempotent (s : string) : Py.rstrip (Py.rstrip s) = Py.rstrip s.
Proof.
  induction s as [|c s IH]; [reflexivity|].
  cbn [Py.rstrip]. destruct (Py.rstrip s) as [|d t] eqn:Hs.
  - destruct (Py.isspace c) eqn:Hc; [reflexivity|].
    cbn. rewrite Hc. reflexivity.
  - cbn [Py.rstrip]. cbn [Py.rstrip] in IH.
    destruct (Py.rstrip t) as [|e u] eqn:Ht.
    + destruct (Py.isspace d) eqn:Hd; [discriminate|]. rewrite IH. reflexivity.
    + rewrite IH. reflexivity.
Qed.

(** A structured line that is printed whole (no [fix_file_width], or a
    line that fits) is printed without trailing whitespace. *)
Theorem whole_line_has_no_trailing_space (cfg : config) (r : rstate)
    (str : string) (c : pyopt) (has_data : bool) :
  fix_file_width cfg = false
  ∨ Py.len (output_string cfg r str c has_data) ≤ file_width cfg →
  ∃ s, emit_line cfg r (Dict str c has_data) = [(OutputFile, s)]
       ∧ Py.rstrip s = s.
Proof.
  intros H. exists (output_string cfg r str c has_data). split.
  - cbn. unfold print_wrapped.
    destruct H as [->|H]; [reflexivity|].
    apply Z.leb_le in H. rewrite H, orb_true_r. reflexivity.
  - unfold output_string. apply rstrip_idempotent.
Qed.

Lemma whole_line_has_no_trailing_space_witness :
  ∃ s, emit_line DEFAULT_CONFIG wide_state (Dict "ret   " PyNone false)
       = [(OutputFile, s)]
       ∧ Py.rstrip s = s.
Proof.
  apply (whole_line_has_no_trailing_space DEFAULT_CONFIG wide_state "ret   "
           PyNone false).
  right. vm_compute. discriminate.
Defined.

(** ** The renderer's depth counter *)

Lemma render_branch_counter (cfg : config) (a : agg) (t : token) (r r' : rstate) :
  render_branch cfg a t r = Some r' →
  indent_counter r' = indent_counter r + depth_change t.
Proof.
  unfold render_branch, depth_change. intros H.
  destruct (tk_type t).
  - injection H as <-. cbn. lia.
  - destruct (tk_subtype t) as [[| |]|]; cbn in H; try discriminate.
    + injection H as <-. lia.
    + destruct (tk_field t); [|discriminate]. cbn in H.
      destruct (tk_value t) as [[|v]|]; try discriminate. cbn in H.
      match type of H with (if ?c then _ else _) = _ => destruct c end;
        injection H as <-; cbn; lia.
    + destruct (tk_value t) as [[|v]|]; try discriminate. cbn in H.
      injection H as <-. cbn. lia.
  - destruct (tk_value t) as [[|v]|]; try discriminate. cbn in H.
    destruct (tk_comment t); [|discriminate]. cbn in H.
    injection H as <-. cbn. lia.
  - destruct (tk_label t); [|discriminate]. cbn in H.
    destruct (tk_directive t); [|discriminate]. cbn in H.
    destruct (tk_value t) as [[|v]|]; try discriminate. cbn in H.
    destruct (tk_comment t); [|discriminate]. cbn in H.
    match type of H with (if ?c then _ else _) = _ => destruct c end;
      injection H as <-; cbn; lia.
  - destruct (tk_label t); [|discriminate]. cbn in H.
    destruct (tk_value t) as [[|v]|]; try discriminate. cbn in H.
    destruct (tk_comment t); [|discriminate]. cbn in H.
    destruct (String.eqb v "PROC"); injection H as <-; cbn; lia.
  - destruct (tk_mnemonic t); [|discriminate]. cbn in H.
    destruct (tk_operands t); [|discriminate]. cbn in H.
    destruct (tk_comment t); [|discriminate]. cbn in H.
    injection H as <-. cbn. lia.
  - injection H as <-. destruct (tk_value t) as [[|v]|]; lia.
  - injection H as <-. destruct (tk_value t) as [[|v]|]; lia.
Qed.

Lemma indent_last_counter (cfg : config) (t : token) (r r' : rstate) :
  indent_last cfg t r = Some r' → indent_counter r' = indent_counter r.
Proof.
  unfold indent_last. intros H.
  destruct (last (parsed_tokens r)); [|discriminate]. cbn in H.
  destruct (if fix_indents cfg then _ else _); [|discriminate]. cbn in H.
  injection H as <-. reflexivity.
Qed.

Lemma widen_counter (cfg : config) (t : token) (r r' : rstate) :
  widen cfg t r = Some r' → indent_counter r' = indent_counter r.
Proof.
  unfold widen. intros H.
  destruct (last (parsed_tokens r)) as [x|]; [|discriminate]. cbn in H.
  match type of H with (?e ≫= _) = _ => destruct e as [[|]|] end;
    cbn in H; try discriminate.
  - destruct (dict_str x); [|discriminate]. cbn in H. injection H as <-. reflexivity.
  - injection H as <-. reflexivity.
Qed.

(** The depth counter after rendering is the depth before it plus one
    for every [PROC] line and minus one for every other procedure line;
    no other token changes it. *)
Theorem depth_counts_procedures (cfg : config) (a : agg) (toks : list token) :
  ∀ r r', render cfg a toks r = Some r' →
          indent_counter r' = indent_counter r + depth_changes toks.
Proof.
  induction toks as [|t rest IH]; intros r r' H; cbn in H.
  - injection H as <-. cbn. lia.
  - destruct (render_token cfg a t r) as [r1|] eqn:H1; [|discriminate]. cbn in H.
    apply IH in H. rewrite H. cbn [depth_changes].
    unfold render_token in H1.
    destruct (render_branch cfg a t r) as [r2|] eqn:H2; [|discriminate]. cbn in H1.
    destruct (indent_last cfg t r2) as [r3|] eqn:H3; [|discriminate]. cbn in H1.
    apply render_branch_counter in H2. apply indent_last_counter in H3.
    apply widen_counter in H1. lia.
Qed.

Lemma depth_counts_procedures_witness :
  ∃ r', render DEFAULT_CONFIG (agg_init proc_tokens) proc_tokens rstate_init = Some r'
        ∧ indent_counter r' = indent_counter rstate_init + depth_changes proc_tokens
        ∧ indent_counter r' = 0.
Proof.
  eexists. split; [vm_compute; reflexivity|]. split; [|reflexivity].
  apply (depth_counts_procedures DEFAULT_CONFIG (agg_init proc_tokens) proc_tokens).
  vm_compute. reflexivity.
Defined.

(** ** The spacing of operand and initial-value lists *)

Lemma append_assoc (s t u : string) : (s +:+ t) +:+ u = s +:+ (t +:+ u).
Proof.
  induction s as [|c s IH]; [reflexivity|].
  rewrite !append_cons. f_equal. exact IH.
Qed.

Lemma split_go_cons (r : Re.regex) (fuel pos : nat) (s piece : string) :
  ∃ x l, Re.split_go r fuel pos s piece = x :: l.
Proof.
  revert pos s piece. induction fuel as [|fuel IH]; intros pos s piece; cbn.
  - eauto.
  - destruct s as [|c s']; [eauto|].
    destruct (Re.rmatch false r pos (String c s') [] _) as [[p rest]|]; eauto.
Qed.

Lemma join_cons (sep x : string) (l : list string) :
  l ≠ [] → Py.join sep (x :: l) = x +:+ sep +:+ Py.join sep l.
Proof. destruct l; [congruence | reflexivity]. Qed.

Lemma comma_at (pos : nat) (c : ascii) (s : string) :
  Re.rmatch false Pat.comma_re pos (String c s) []
    (fun p rest _ => if (pos <? p)%nat then Some (p, rest) else None)
  = if Ascii.eqb c "," then
      match s with
      | String d s' =>
          if Ascii.eqb d " " then Some (S (S pos), s') else Some (S pos, s)
      | EmptyString => Some (S pos, s)
      end
    else None.
Proof.
  unfold Pat.comma_re, Re.Opt. cbn [Re.rmatch]. unfold Re.chr_eq.
  rewrite (Ascii.eqb_sym "," c).
  destruct (Ascii.eqb c ","); [|reflexivity].
  assert (H1 : (pos <? S pos)%nat = true) by (apply Nat.ltb_lt; lia).
  assert (H2 : (pos <? S (S pos))%nat = true) by (apply Nat.ltb_lt; lia).
  destruct s as [|d s']; [rewrite H1; reflexivity|].
  rewrite (Ascii.eqb_sym " " d).
  destruct (Ascii.eqb d " "); [rewrite H2 | rewrite H1]; reflexivity.
Qed.

Lemma split_go_respace (fuel : nat) :
  ∀ (s : string) (pos : nat) (piece : string),
    (String.length s < fuel)%nat →
    Py.join ", " (Re.split_go Pat.comma_re fuel pos s piece) = piece +:+ respace s.
Proof.
  induction fuel as [|fuel IH]; intros s pos piece Hlen; [lia|].
  destruct s as [|c s'].
  - cbn. rewrite append_empty_r. reflexivity.
  - cbn [Re.split_go]. rewrite comma_at. cbn [respace].
    destruct (Ascii.eqb c ",").
    + destruct s' as [|d s''].
      * destruct (split_go_cons Pat.comma_re fuel (S pos) EmptyString EmptyString)
          as (x & l & Hx).
        rewrite join_cons by (rewrite Hx; discriminate).
        rewrite IH by (cbn in *; lia). reflexivity.
      * destruct (Ascii.eqb d " ").
        -- destruct (split_go_cons Pat.comma_re fuel (S (S pos)) s'' EmptyString)
             as (x & l & Hx).
           rewrite join_cons by (rewrite Hx; discriminate).
           rewrite IH by (cbn in *; lia). reflexivity.
        -- destruct (split_go_cons Pat.comma_re fuel (S pos) (String d s'') EmptyString)
             as (x & l & Hx).
           rewrite join_cons by (rewrite Hx; discriminate).
           rewrite IH by (cbn in *; lia). reflexivity.
    + rewrite IH by (cbn in *; lia). rewrite append_assoc. reflexivity.
Qed.

Lemma respace_commas_respace (v : string) : respace_commas v = respace v.
Proof.
  unfold respace_commas, Re.split.
  rewrite split_go_respace by lia. reflexivity.
Qed.

(** [', '.join(re.split(', ?', v))] replaces every comma of [v], with the
    one space after it when there is one, by a comma and a space, and
    keeps every other character. *)
Theorem respace_commas_is_respace (v : string) : respace_commas v = respace v.
Proof.
  unfold respace_commas, Re.split.
  rewrite (split_go_respace (S (String.length v))) by lia.
  reflexivity.
Qed.

Lemma respace_comma_space (x : string) :
  respace (String "," (String " " x)) = String "," (String " " (respace x)).
Proof. reflexivity. Qed.

Lemma respace_idempotent_bounded (n : nat) :
  ∀ s, (String.length s ≤ n)%nat → respace (respace s) = respace s.
Proof.
  induction n as [|n IH]; intros s Hn.
  - destruct s; [reflexivity | cbn in Hn; lia].
  - destruct s as [|c s]; [reflexivity|]. cbn in Hn. cbn [respace].
    destruct (Ascii.eqb c ",") eqn:Hc.
    + destruct s as [|d s'].
      * reflexivity.
      * destruct (Ascii.eqb d " ") eqn:Hd.
        -- rewrite respace_comma_space. do 2 f_equal. apply IH. cbn in Hn. lia.
        -- rewrite respace_comma_space. do 2 f_equal. apply IH. cbn in Hn |- *. lia.
    + cbn [respace]. rewrite Hc. rewrite IH by lia. reflexivity.
Qed.

(** Spacing a list that has been spaced changes nothing. *)
Theorem respace_commas_idempotent (v : string) :
  respace_commas (respace_commas v) = respace_commas v.
Proof.
  rewrite !respace_commas_respace.
  apply (respace_idempotent_bounded (String.length v)). lia.
Qed.

Lemma respace_comma_then_space_bounded (n : nat) :
  ∀ s i, (String.length s ≤ n)%nat →
         String.get i (respace s) = Some ","%char →
         String.get (S i) (respace s) = Some " "%char.
Proof.
  induction n as [|n IH]; intros s i Hn Hi.
  - destruct s; [destruct i; discriminate | cbn in Hn; lia].
  - destruct s as [|c s]; [destruct i; discriminate|]. cbn in Hn.
    cbn [respace] in *.
    destruct (Ascii.eqb c ",") eqn:Hc.
    + destruct s as [|d s'].
      * destruct i as [|[|i]]; cbn in *; try reflexivity; discriminate.
      * destruct (Ascii.eqb d " ") eqn:Hd.
        -- destruct i as [|[|i]]; [reflexivity|discriminate|].
           cbn [String.get] in *. apply IH; [cbn in Hn |- *; lia | exact Hi].
        -- destruct i as [|[|i]]; [reflexivity|discriminate|].
           cbn [String.get] in *. apply IH; [cbn in Hn |- *; lia | exact Hi].
    + destruct i as [|i].
      * cbn in Hi. injection Hi as ->. discriminate.
      * cbn [String.get] in *. apply IH; [lia | exact Hi].
Qed.

(** In a spaced list every comma is followed by a space. *)
Theorem respace_commas_space_after_comma (v : string) (i : nat) :
  String.get i (respace_commas v) = Some ","%char →
  String.get (S i) (respace_commas v) = Some " "%char.
Proof.
  rewrite respace_commas_respace.
  apply (respace_comma_then_space_bounded (String.length v)). lia.
Qed.

Lemma respace_commas_space_after_comma_witness :
  String.get 4 (respace_commas "eax,ebx") = Some " "%char.
Proof.
  apply (respace_commas_space_after_comma "eax,ebx" 3). reflexivity.
Defined.

(** ** The renderer and the emitter never raise on what the pass returns *)

Lemma classify_line_renderable (cfg : config) (line : string) (t : token) :
  classify_line line = Some t →
  match tk_type t with
  | comment =>
      ∃ sub v, tk_subtype t = Some sub ∧ tk_value t = Some (PyStr v)
               ∧ (sub = header → is_Some (tk_field t))
  | directive => (∃ v, tk_value t = Some (PyStr v)) ∧ is_Some (tk_comment t)
  | data =>
      is_Some (tk_label t) ∧ is_Some (tk_directive t)
      ∧ (∃ v, tk_value t = Some (PyStr v)) ∧ is_Some (tk_comment t)
  | procedure =>
      is_Some (tk_label t) ∧ (∃ v, tk_value t = Some (PyStr v))
      ∧ is_Some (tk_comment t)
  | instruction =>
      is_Some (tk_mnemonic t) ∧ is_Some (tk_operands t)
      ∧ is_Some (tk_comment t)
  | blank_line | error | to_remove => True
  end.
Proof.
  unfold classify_line. intros H.
  destruct (Py.len line =? 0); [injection H as <-; exact I|].
  destruct (Py.startswith line ";  " 0).
  { injection H as <-. cbn. eexists _, _. split; [reflexivity|].
    split; [reflexivity | discriminate]. }
  case_bool_decide.
  { injection H as <-. cbn. eexists _, _. split; [reflexivity|].
    split; [reflexivity | eauto]. }
  destruct (Py.startswith line ";" 0).
  { injection H as <-. cbn. eexists _, _. split; [reflexivity|].
    split; [reflexivity | discriminate]. }
  destruct (Py.startswith line "." 0 || Py.startswith line "INCLUDE" 0
            || Py.startswith line "END" IGNORECASE).
  { destruct (Re.match_ false Pat.directive_re line) as [m|]; [|discriminate].
    injection H as <-. cbn. split; eauto. }
  case_bool_decide as Hdata.
  { destruct (Re.search true Pat.data_re line) as [m|] eqn:Hs; [|discriminate].
    cbn in H.
    destruct (search_from_groups _ _ _ _ _ Hs 1%nat eq_refl) as [g1 H1].
    destruct (search_from_groups _ _ _ _ _ Hs 2%nat eq_refl) as [g2 H2].
    destruct (search_from_groups _ _ _ _ _ Hs 3%nat eq_refl) as [g3 H3].
    unfold Re.group in H. rewrite H1, H2, H3 in H. cbn in H.
    injection H as <-. cbn. repeat split; eauto. }
  case_bool_decide as Hproc.
  { destruct (Re.search false Pat.procedure_re line) as [m|] eqn:Hs;
      [|discriminate].
    cbn in H.
    destruct (search_from_groups _ _ _ _ _ Hs 1%nat eq_refl) as [g1 H1].
    destruct (search_from_groups _ _ _ _ _ Hs 2%nat eq_refl) as [g2 H2].
    unfold Re.group in H. rewrite H1, H2 in H. cbn in H.
    injection H as <-. cbn. repeat split; eauto. }
  case_bool_decide as Hins.
  { destruct (Re.search false Pat.instruction_re line) as [m|] eqn:Hs;
      [|discriminate].
    cbn in H.
    destruct (search_from_groups _ _ _ _ _ Hs 1%nat eq_refl) as [g1 H1].
    unfold Re.group in H. rewrite H1 in H. cbn in H.
    injection H as <-. cbn. repeat split; eauto. }
  injection H as <-. exact I.
Qed.

Lemma classify_renderable (cfg : config) (raw : string) (t : token) :
  classify cfg raw = Some t → renderable cfg t.
Proof.
  unfold classify. intros H.
  destruct (classify_line (Py.strip raw)) as [t0|] eqn:Hc; [|discriminate].
  cbn in H. injection H as <-.
  apply (classify_line_renderable cfg) in Hc.
  split.
  - intros Hf. rewrite Hf. cbn. eauto.
  - destruct (fix_indents cfg); [exact Hc | destruct t0; exact Hc].
Qed.

Lemma tokenize_renderable (cfg : config) (lines : list string) (toks : list token) :
  tokenize cfg lines = Some toks → Forall (renderable cfg) toks.
Proof.
  revert toks. induction lines as [|raw rest IH]; intros toks H; cbn in H.
  - injection H as <-. constructor.
  - destruct (classify cfg raw) as [t|] eqn:Ht; [|discriminate]. cbn in H.
    destruct (tokenize cfg rest) as [ts|]; [|discriminate]. cbn in H.
    injection H as <-.
    constructor; [eapply classify_renderable, Ht | apply IH; reflexivity].
Qed.

Lemma handled_renderable (cfg : config) (t0 t1 : token) :
  renderable cfg t0 → handled cfg t0 t1 → renderable cfg t1.
Proof.
  intros [Hind Hkeys] (Hty & Hsub & Hf & Hl & Hc & He & Hi & Hm & Hd & Ho & Hv).
  split; [rewrite Hi; exact Hind|].
  assert (Hval : (∃ v, tk_value t0 = Some (PyStr v)) →
                 ∃ v, tk_value t1 = Some (PyStr v)).
  { intros [v Hv0]. destruct Hv as [Hv|(x & y & _ & Hv)];
      [rewrite Hv; eauto | eauto]. }
  assert (Hmn : is_Some (tk_mnemonic t0) → is_Some (tk_mnemonic t1)).
  { intros [m Hm0]. rewrite Hm, Hm0. destruct (fix_capitalization cfg); cbn; eauto. }
  assert (Hdr : is_Some (tk_directive t0) → is_Some (tk_directive t1)).
  { intros [m Hd0]. rewrite Hd, Hd0. destruct (fix_capitalization cfg); cbn; eauto. }
  assert (Hop : is_Some (tk_operands t0) → is_Some (tk_operands t1)).
  { intros Ho0. destruct Ho as [Ho|(x & _ & Ho)]; [rewrite Ho; exact Ho0 | eauto]. }
  destruct Hty as [Hty|[Hty _]]; rewrite Hty; [|exact I].
  destruct (tk_type t0); try exact I; rewrite ?Hsub, ?Hf, ?Hl, ?Hc.
  - destruct Hkeys as (sub & v & H1 & H2 & H3).
    destruct (Hval (ex_intro _ v H2)) as [v' Hv'].
    exists sub, v'. auto.
  - destruct Hkeys as (H1 & H2). auto.
  - destruct Hkeys as (H1 & H2 & H3 & H4). auto.
  - destruct Hkeys as (H1 & H2 & H3). auto.
  - destruct Hkeys as (H1 & H2 & H3). auto.
Qed.

Lemma touched_renderable (cfg : config) (tp tp' : token) :
  renderable cfg tp → touched tp tp' → renderable cfg tp'.
Proof.
  intros [Hind Hkeys] [->|[(x & -> & Hty)|(x & -> & Hty & Hc)]].
  - split; assumption.
  - split; [exact Hind|]. cbn. rewrite Hty in Hkeys |- *.
    destruct Hkeys as (sub & v & H1 & H2 & H3). exists sub, x. auto.
  - split; [exact Hind|]. cbn.
    destruct (tk_type tp); try exact I; try congruence.
    + destruct Hkeys as (H1 & H2). eauto.
    + destruct Hkeys as (H1 & H2 & H3 & H4). eauto.
    + destruct Hkeys as (H1 & H2 & H3). eauto.
    + destruct Hkeys as (H1 & H2 & H3). eauto.
Qed.

Lemma passed_renderable (cfg : config) (t0 t : token) :
  renderable cfg t0 → passed cfg t0 t → renderable cfg t.
Proof.
  intros H (t1 & Hh & Ht).
  eapply touched_renderable; [eapply handled_renderable|]; eauto.
Qed.

(** The pass returns tokens that have the keys the renderer reads. *)
Lemma pass_renderable (cfg : config) (toks : list token) (a : agg) :
  Forall (renderable cfg) toks →
  process_tokens cfg toks = Some a →
  Forall (renderable cfg) (tokens a).
Proof.
  intros Hall H. destruct (pass_effect cfg toks a H) as [Hlen Hk].
  apply Forall_lookup_2. intros k t Ht.
  destruct (lookup_lt_is_Some_2 toks k) as [t0 Ht0].
  { rewrite <- Hlen. eapply lookup_lt_Some, Ht. }
  destruct (Hk k t0 Ht0) as (t' & Ht' & Hp).
  assert (t' = t) as -> by congruence.
  eapply passed_renderable; [|exact Hp].
  eapply Forall_lookup_1; eauto.
Qed.

(** The first token is never marked for removal: both removals look at
    the token before. *)
Lemma measure_first (cfg : config) (a a' : agg) (t : token) :
  measure cfg 0 a = Some a' → tokens a !! 0%nat = Some t →
  ∃ t', tokens a' !! 0%nat = Some t' ∧ tk_type t' = tk_type t.
Proof.
  unfold measure. generalize respace_commas. intros rc H Ht.
  rewrite Ht in H. cbn in H.
  assert (Hlt : (0 < length (tokens a))%nat) by (eapply lookup_lt_Some, Ht).
  rewrite ?andb_false_r in H.
  destruct (tk_type t) eqn:Hty; simplify_option_eq;
    repeat match goal with
           | H : (if ?c then _ else _) = Some _ |- _ => destruct c
           | H : context [tk_value t] |- _ => destruct (tk_value t) as [[|?]|]
           | H : context [tk_operands t] |- _ =>
               destruct (tk_operands t) as [[|?]|]
           end;
    simplify_option_eq;
    rewrite ?list_lookup_insert_eq by exact Hlt; eauto.
Qed.

Lemma process_first (cfg : config) (a a' : agg) (t : token) :
  process_token cfg 0 a = Some a' → tokens a !! 0%nat = Some t →
  ∃ t', tokens a' !! 0%nat = Some t' ∧ tk_type t' = tk_type t.
Proof.
  unfold process_token, merge_extension. intros H Ht.
  assert (Hlt : (0 < length (tokens a))%nat) by (eapply lookup_lt_Some, Ht).
  rewrite Ht in H. cbn in H. rewrite ?andb_false_r in H. cbn in H.
  rewrite Ht in H. cbn in H.
  destruct (capitalize cfg t) as [t2|] eqn:Hcap; [|discriminate]. cbn in H.
  apply capitalize_inv in Hcap as (C1 & _).
  destruct (measure_first cfg _ a' t2 H) as (t' & Ht' & Hty).
  { cbn. apply list_lookup_insert_eq. exact Hlt. }
  exists t'. split; [exact Ht' | congruence].
Qed.

Lemma first_token_kept (cfg : config) (t0 : token) (toks : list token) (a : agg) :
  process_tokens cfg (t0 :: toks) = Some a →
  ∃ t rest, tokens a = t :: rest ∧ tk_type t = tk_type t0.
Proof.
  intros H.
  pose (I := fun (n : nat) (b : agg) =>
               ∃ t, tokens b !! 0%nat = Some t ∧ tk_type t = tk_type t0).
  assert (HI : I (length (t0 :: toks)) a).
  { apply (process_tokens_invariant cfg I (t0 :: toks) a); [| |exact H].
    - intros n b b' _ (t & Ht & Hty) Hstep.
      destruct n as [|j].
      + destruct (process_first cfg b b' t Hstep Ht) as (t' & Ht' & Hty').
        exists t'. split; [exact Ht' | congruence].
      + apply process_token_inv in Hstep
          as (tn & t' & _ & _ & _ & Hframe & Hprev & _).
        destruct j as [|j].
        * destruct (Hprev 0%nat t eq_refl Ht) as (tp' & Htp' & Htouch).
          exists tp'. split; [exact Htp'|].
          rewrite (touched_type _ _ Htouch). exact Hty.
        * exists t. split; [|exact Hty]. rewrite Hframe by lia. exact Ht.
    - exists t0. split; reflexivity. }
  destruct HI as (t & Ht & Hty).
  destruct (tokens a) as [|t' rest]; [discriminate|].
  cbn in Ht. injection Ht as ->. eauto.
Qed.

Lemma is_dict_prepend (p : string) (x : rendered) :
  is_dict (prepend p x) = is_dict x.
Proof. destruct x; reflexivity. Qed.

Lemma nonempty_snoc {A : Type} (l : list A) :
  l ≠ [] → ∃ l' x, l = (l' ++ [x])%list.
Proof.
  intros H. destruct (exists_last H) as (l' & x & ->). eauto.
Qed.

(** What the token's branch appends: nothing for an unrecognised line or
    an extension, otherwise one or two lines, the last of them structured
    when the token is a data line. *)
Lemma render_branch_completes (cfg : config) (a : agg) (t : token) (r : rstate) :
  renderable cfg t → tk_type t ≠ to_remove →
  ∃ r1, render_branch cfg a t r = Some r1
        ∧ ((parsed_tokens r1 = parsed_tokens r
            ∧ (tk_type t = error ∨ is_ext t))
           ∨ ∃ l x, parsed_tokens r1 = (l ++ [x])%list
                    ∧ (tk_type t = data → is_dict x = true)).
Proof.
  intros [_ Hkeys] Hrm. unfold render_branch.
  destruct (tk_type t) eqn:Hty.
  - eexists. split; [reflexivity|]. right. eexists _, _.
    split; [reflexivity | discriminate].
  - destruct Hkeys as (sub & v & Hs & Hv & Hf). rewrite Hs, Hv. cbn.
    destruct sub.
    + eexists. split; [reflexivity|]. left. split; [reflexivity|].
      right. split; assumption.
    + destruct (Hf eq_refl) as [f ->]. cbn.
      destruct (fix_file_width cfg
                && (file_width cfg <? Py.len (header_line cfg a f v)));
        (eexists; split; [reflexivity|]); right; eexists _, _;
        (split; [reflexivity | discriminate]).
    + eexists. split; [reflexivity|]. right. eexists _, _.
      split; [reflexivity | discriminate].
  - destruct Hkeys as ([v ->] & [c ->]). cbn.
    eexists. split; [reflexivity|]. right. eexists _, _.
    split; [reflexivity | discriminate].
  - destruct Hkeys as ([l ->] & [d ->] & [v ->] & [c ->]). cbn.
    destruct (align_data_comments cfg && align_data_comments_separately cfg);
      (eexists; split; [reflexivity|]); right; eexists _, _;
      (split; [reflexivity | reflexivity]).
  - destruct Hkeys as ([l ->] & [v ->] & [c ->]). cbn.
    destruct (String.eqb v "PROC");
      (eexists; split; [reflexivity|]); right; eexists _, _;
      (split; [reflexivity | discriminate]).
  - destruct Hkeys as ([m ->] & [o ->] & [c ->]). cbn.
    eexists. split; [reflexivity|]. right. eexists _, _.
    split; [reflexivity | discriminate].
  - eexists. split; [reflexivity|]. left. split; [reflexivity|]. left. reflexivity.
  - congruence.
Qed.

Lemma indent_last_completes (cfg : config) (t : token) (r : rstate)
    (l : list rendered) (x : rendered) :
  renderable cfg t → parsed_tokens r = (l ++ [x])%list →
  ∃ r2 p, indent_last cfg t r = Some r2
          ∧ parsed_tokens r2 = (l ++ [prepend p x])%list.
Proof.
  intros [Hind _] Hl. unfold indent_last. rewrite Hl, last_snoc. cbn.
  rewrite removelast_last.
  destruct (fix_indents cfg).
  - cbn. eexists _, _. split; reflexivity.
  - destruct (Hind eq_refl) as [p ->]. cbn. eexists _, _. split; reflexivity.
Qed.

Lemma widen_completes (cfg : config) (t : token) (r : rstate)
    (l : list rendered) (x : rendered) :
  renderable cfg t → parsed_tokens r = (l ++ [x])%list →
  (tk_type t = data → is_dict x = true) →
  ∃ r3, widen cfg t r = Some r3 ∧ parsed_tokens r3 = parsed_tokens r.
Proof.
  intros [_ Hkeys] Hl Hdata. unfold widen. rewrite Hl, last_snoc. cbn.
  assert (Hsub : tk_type t = comment → is_Some (tk_subtype t)).
  { intros Hty. rewrite Hty in Hkeys. destruct Hkeys as (sub & v & -> & _). eauto. }
  destruct x as [s|s c d]; cbn.
  - case_bool_decide as Hd; [specialize (Hdata Hd); discriminate|]. cbn.
    eexists. split; [reflexivity | first [exact Hl | reflexivity]].
  - destruct (bool_decide (tk_type t ≠ data)
              || bool_decide (tk_type t = data) && align_data_comments cfg
                 && negb (align_data_comments_separately cfg)).
    + case_bool_decide as Hc.
      * cbn. eexists. split; [reflexivity | first [exact Hl | reflexivity]].
      * destruct Hsub as [sub ->]; [destruct (tk_type t); congruence|]. cbn.
        case_bool_decide; cbn; eexists; (split; [reflexivity | first [exact Hl | reflexivity]]).
    + cbn. eexists. split; [reflexivity | first [exact Hl | reflexivity]].
Qed.

Lemma render_token_completes (cfg : config) (a : agg) (t : token) (r : rstate) :
  renderable cfg t → tk_type t ≠ to_remove →
  parsed_tokens r ≠ [] ∨ (tk_type t ≠ error ∧ ¬ is_ext t) →
  ∃ r', render_token cfg a t r = Some r' ∧ parsed_tokens r' ≠ [].
Proof.
  intros Hr Hrm Hne. unfold render_token.
  destruct (render_branch_completes cfg a t r Hr Hrm) as (r1 & -> & Hb). cbn.
  assert (Hx : ∃ l x, parsed_tokens r1 = (l ++ [x])%list
                      ∧ (tk_type t = data → is_dict x = true)).
  { destruct Hb as [[Hsame Hskip]|Hb]; [|exact Hb].
    destruct Hne as [Hne|[Herr Hext]]; [|destruct Hskip; contradiction].
    destruct (nonempty_snoc _ Hne) as (l & x & Hl).
    exists l, x. split; [congruence|].
    intros Hd. destruct Hskip as [He|[Hc _]]; congruence. }
  destruct Hx as (l & x & Hl & Hd).
  destruct (indent_last_completes cfg t r1 l x Hr Hl) as (r2 & p & -> & Hl2). cbn.
  destruct (widen_completes cfg t r2 l (prepend p x) Hr Hl2) as (r3 & -> & Hl3).
  { rewrite is_dict_prepend. exact Hd. }
  exists r3. split; [reflexivity|]. rewrite Hl3, Hl2.
  intros Hnil. apply app_eq_nil in Hnil as [_ Hnil]. discriminate.
Qed.

Lemma render_completes (cfg : config) (a : agg) (toks : list token) :
  Forall (renderable cfg) toks →
  Forall (λ t, tk_type t ≠ to_remove) toks →
  ∀ r, parsed_tokens r ≠ []
       ∨ (∀ t, head toks = Some t → tk_type t ≠ error ∧ ¬ is_ext t) →
       is_Some (render cfg a toks r).
Proof.
  induction toks as [|t rest IH]; intros Hall Hrm r Hne; cbn.
  - eauto.
  - apply Forall_cons in Hall as [Ht Hall]. apply Forall_cons in Hrm as [Hrt Hrm].
    destruct (render_token_completes cfg a t r Ht Hrt) as (r' & -> & Hne').
    { destruct Hne as [Hne|Hne]; [left; exact Hne | right; apply Hne; reflexivity]. }
    cbn. apply IH; auto.
Qed.

Lemma renderable_flags (cfg cfg' : config) (t : token) :
  fix_indents cfg' = fix_indents cfg → renderable cfg t → renderable cfg' t.
Proof. intros Hf [H1 H2]. split; [rewrite Hf; exact H1 | exact H2]. Qed.

(** A run that gets through the classifier and the pass gets through the
    renderer and the emitter as well, unless the first line of the file
    is unrecognised or a comment extension: past the pass, no key is
    missing, no text is None where one is concatenated, and the list of
    rendered lines is empty only before the first line. *)
Theorem run_completes (cfg : config) (named : bool) (lines : list string)
    (toks : list token) (a : agg) :
  tokenize cfg lines = Some toks →
  process_tokens cfg toks = Some a →
  (∀ t0, head toks = Some t0 → tk_type t0 ≠ error ∧ ¬ is_ext t0) →
  is_Some (run cfg named lines).
Proof.
  intros Htok Hpass Hfirst. unfold run. rewrite Htok. cbn. rewrite Hpass. cbn.
  pose proof (unify_alignment_tokens cfg a) as Htoks.
  destruct (unify_alignment_flags cfg a) as (_ & _ & _ & Hind & _).
  destruct (unify_alignment cfg a) as [cfg' a'] eqn:Hu. cbn in Htoks, Hind.
  rewrite Htoks.
  assert (Hall : Forall (renderable cfg') (tokens a)).
  { eapply Forall_impl; [|intros t; apply renderable_flags; exact Hind].
    eapply pass_renderable; [|exact Hpass].
    eapply tokenize_renderable, Htok. }
  destruct (render_completes cfg' a' (remove_marked (tokens a))) with (r := rstate_init)
    as [r Hr].
  - apply Forall_forall. intros t Ht. apply list_elem_of_filter in Ht as [_ Ht].
    eapply Forall_forall in Hall; eauto.
  - apply Forall_forall. intros t Ht. apply list_elem_of_filter in Ht as [Ht _].
    exact Ht.
  - right. intros t Hhead.
    destruct toks as [|t0 rest].
    + destruct (pass_effect cfg [] a Hpass) as [Hlen _].
      destruct (tokens a); [discriminate Hhead | discriminate Hlen].
    + destruct (Hfirst t0 eq_refl) as [Herr Hext].
      destruct (first_token_kept cfg t0 rest a Hpass) as (t1 & rest1 & Ha & Hty).
      assert (Hshaped : shaped t0).
      { pose proof (tokenize_shaped cfg lines _ Htok) as Hs.
        apply Forall_cons in Hs as [Hs _]. exact Hs. }
      assert (Hkeep : tk_type t1 ≠ to_remove).
      { rewrite Hty. intros Hr. unfold shaped in Hshaped. rewrite Hr in Hshaped.
        exact Hshaped. }
      assert (Hsub : tk_subtype t1 = tk_subtype t0).
      { destruct (pass_effect cfg (t0 :: rest) a Hpass) as [_ Hk].
        destruct (Hk 0%nat t0 eq_refl) as (t' & Ht' & t2 & Hh & Htouch).
        rewrite Ha in Ht'. injection Ht' as <-.
        destruct (touched_fields _ _ Htouch) as (F1 & _).
        destruct Hh as (_ & H2 & _). congruence. }
      rewrite Ha in Hhead. unfold remove_marked in Hhead.
      rewrite filter_cons_True in Hhead by exact Hkeep.
      cbn in Hhead. injection Hhead as <-.
      split; [congruence|]. intros [Hc Hx]. apply Hext. split; congruence.
  - rewrite Hr. cbn. eauto.
Qed.

Lemma run_completes_witness : is_Some (run DEFAULT_CONFIG false hello_lines).
Proof.
  eapply (run_completes DEFAULT_CONFIG false hello_lines).
  - vm_compute. reflexivity.
  - vm_compute. reflexivity.
  - intros t0 H. vm_compute in H. injection H as <-.
    split; [discriminate | intros [_ Hx]; discriminate].
Defined.

(** ** When the pass completes *)

Lemma merge_extension_completes (cfg : config) (n : nat) (l : list token)
    (t : token) :
  l !! n = Some t → shaped t →
  (fix_file_width cfg = true → is_ext t →
   n = 0%nat ∨ ∃ j tp, n = S j ∧ l !! j = Some tp ∧ extendable tp) →
  is_Some (merge_extension cfg n l).
Proof.
  intros Hl Hs Hext. unfold merge_extension. rewrite Hl. cbn.
  destruct (fix_file_width cfg) eqn:Hf; [|cbn; eauto].
  destruct n as [|j]; [cbn; eauto|].
  case_bool_decide as Hty; [|cbn; eauto]. cbn.
  unfold shaped in Hs. rewrite Hty in Hs.
  destruct Hs as ((sub & Hsub & _) & v & Hv). rewrite Hsub. cbn.
  case_bool_decide as Hx; [|eauto]. subst sub.
  destruct (Hext eq_refl (conj Hty Hsub)) as [?|(j' & tp & Hj & Htp & Hex)];
    [discriminate|].
  injection Hj as <-. rewrite Nat.sub_0_r, Htp. cbn.
  assert (Hlt : (j < length l)%nat) by (eapply lookup_lt_Some, Htp).
  unfold extendable in Hex. rewrite Hv.
  case_bool_decide.
  - destruct Hex as [pv ->]. cbn.
    rewrite list_lookup_insert_ne by lia. rewrite Hl. cbn. eauto.
  - destruct Hex as [pc ->]. cbn.
    rewrite list_lookup_insert_ne by lia. rewrite Hl. cbn. eauto.
Qed.

Lemma capitalize_completes (cfg : config) (t : token) :
  (tk_type t = directive → ∃ v, tk_value t = Some (PyStr v)) →
  is_Some (capitalize cfg t).
Proof.
  intros Hd. unfold capitalize.
  destruct (fix_capitalization cfg); [|eauto].
  destruct (tk_mnemonic t); cbn; destruct (tk_directive t); cbn;
    (case_bool_decide as Hty; [|eauto]);
    cbn in Hty; destruct (Hd Hty) as [v Hv]; cbn; rewrite Hv; cbn; eauto.
Qed.

Lemma measure_completes (cfg : config) (n : nat) (a : agg) (t : token) :
  tokens a !! n = Some t →
  shaped t ∨ tk_type t = to_remove →
  is_Some (measure cfg n a).
Proof.
  intros Ht Hs. unfold measure. generalize respace_commas. intros rc.
  rewrite Ht. cbn.
  assert (Hlt : (n < length (tokens a))%nat) by (eapply lookup_lt_Some, Ht).
  destruct Hs as [Hs|Hrm]; [|rewrite Hrm; eauto].
  unfold shaped in Hs. destruct (tk_type t) eqn:Hty.
  - destruct (lookup_lt_is_Some_2 (tokens a) (n - 1)) as [tp Htp]; [lia|].
    rewrite Htp. cbn.
    repeat match goal with
           | |- context [if ?c then _ else _] => destruct c
           end; eauto.
  - destruct Hs as ((sub & Hsub & Hf) & _). rewrite Hsub. cbn.
    case_bool_decide as Hh; [|eauto].
    destruct (Hf Hh) as [f ->]. cbn. eauto.
  - eauto.
  - destruct Hs as ([l ->] & [d ->] & [v ->] & _). cbn.
    destruct (add_spaces_between_initial_values cfg); cbn; [destruct v|]; cbn; eauto.
  - eauto.
  - destruct Hs as ([m ->] & [o ->] & _). cbn.
    destruct (add_spaces_between_operands cfg); cbn; [destruct o|]; cbn; eauto.
  - destruct Hs as ([e ->] & [v ->]). cbn. eauto.
  - destruct Hs.
Qed.

Lemma capitalize_shaped (cfg : config) (t t' : token) :
  capitalize cfg t = Some t' → shaped t → shaped t'.
Proof.
  intros H Hs. pose proof (capitalize_value cfg t t' H) as Hval.
  apply capitalize_inv in H
    as (C1 & C2 & C3 & C4 & C5 & C6 & C7 & C8 & C9 & C10 & C11).
  assert (Hv : (∃ v, tk_value t = Some (PyStr v)) →
               ∃ v, tk_value t' = Some (PyStr v)).
  { intros [v Hv0]. destruct C11 as [E|(x & y & _ & E)]; [rewrite E|]; eauto. }
  assert (Hv' : is_Some (tk_value t) → is_Some (tk_value t')).
  { intros Hv0. destruct C11 as [E|(x & y & _ & E)]; [rewrite E|]; eauto. }
  assert (Hm : is_Some (tk_mnemonic t) → is_Some (tk_mnemonic t')).
  { intros [m E]. rewrite C9, E. destruct (fix_capitalization cfg); cbn; eauto. }
  assert (Hd : is_Some (tk_directive t) → is_Some (tk_directive t')).
  { intros [m E]. rewrite C10, E. destruct (fix_capitalization cfg); cbn; eauto. }
  unfold shaped in *. rewrite C1.
  destruct (tk_type t); rewrite ?C2, ?C3, ?C4, ?C5, ?C6, ?C8; try exact Hs.
  - destruct Hs as (H1 & H2). auto.
  - destruct Hs as (H1 & H2). auto.
  - destruct Hs as (H1 & H2 & H3 & H4). auto.
  - destruct Hs as (H1 & H2 & H3). auto.
  - destruct Hs as (H1 & H2). auto.
Qed.

Lemma process_token_completes (cfg : config) (n : nat) (b : agg) (t : token) :
  tokens b !! n = Some t → shaped t →
  (fix_file_width cfg = true → is_ext t →
   n = 0%nat ∨ ∃ j tp, n = S j ∧ tokens b !! j = Some tp ∧ extendable tp) →
  is_Some (process_token cfg n b).
Proof.
  intros Ht Hs Hext. unfold process_token.
  assert (Hlt : (n < length (tokens b))%nat) by (eapply lookup_lt_Some, Ht).
  destruct (merge_extension_completes cfg n (tokens b) t Ht Hs Hext)
    as [toks1 Hm].
  rewrite Hm. cbn.
  apply merge_extension_inv in Hm
    as (tn & Hn & [->|(j & tp & tp' & -> & _ & _ & _ & _ & ->)]).
  - rewrite Ht. cbn.
    destruct (capitalize_completes cfg t) as [t2 Hc].
    { intros Hty. unfold shaped in Hs. rewrite Hty in Hs. exact (proj1 Hs). }
    rewrite Hc. cbn.
    apply (measure_completes cfg n _ t2).
    + cbn. apply list_lookup_insert_eq. exact Hlt.
    + left. eapply capitalize_shaped; eauto.
  - rewrite list_lookup_insert_eq by (rewrite length_insert; exact Hlt). cbn.
    destruct (capitalize_completes cfg (set_type to_remove tn)) as [t2 Hc].
    { intros Hty. cbn in Hty. discriminate. }
    rewrite Hc. cbn.
    apply (measure_completes cfg (S j) _ t2).
    + cbn. apply list_lookup_insert_eq. rewrite !length_insert. exact Hlt.
    + right. apply capitalize_inv in Hc as (C1 & _). rewrite C1. reflexivity.
Qed.

Lemma handled_extendable (cfg : config) (p tp : token) :
  shaped p → takes_extension p → handled cfg p tp → extendable tp.
Proof.
  intros Hs (Hnb & Hne & Hnx) (Hty & _ & _ & _ & Hc & _ & _ & _ & _ & _ & Hv).
  assert (Hsame : tk_type tp = tk_type p).
  { destruct Hty as [E|(_ & [[E _]|[E _]])]; [exact E | contradiction..]. }
  unfold extendable, shaped in *. rewrite Hsame, Hc.
  destruct (tk_type p); try contradiction;
    (case_bool_decide as Hb;
     [try discriminate Hb | try (exfalso; apply Hb; reflexivity)]).
  - destruct Hs as (_ & v & Hv0).
    destruct Hv as [E|(x & y & _ & E)]; [rewrite E|]; eauto.
  - exact (proj2 Hs).
  - destruct Hs as (_ & _ & _ & H4). exact H4.
  - exact Hs.
  - destruct Hs as (_ & _ & H3). exact H3.
Qed.

Lemma process_from_completes (cfg : config) (I : nat → agg → Prop) (m : nat) :
  ∀ (n : nat) (a : agg),
    (∀ k b, (n ≤ k < n + m)%nat → I k b →
            ∃ b', process_token cfg k b = Some b' ∧ I (S k) b') →
    I n a → ∃ a', process_from cfg (seq n m) a = Some a' ∧ I (n + m)%nat a'.
Proof.
  induction m as [|m IH]; intros n a Hstep Hn; cbn.
  - exists a. rewrite Nat.add_0_r. auto.
  - destruct (Hstep n a ltac:(lia) Hn) as (a1 & -> & H1). cbn.
    replace (n + S m)%nat with (S n + m)%nat by lia.
    apply IH; [|exact H1]. intros k b Hk. apply Hstep. lia.
Qed.

(** The pass completes on the tokens of any file when [fix_file_width]
    is off; when it is on, the pass completes if every comment extension
    after the first line directly follows a line that is neither blank,
    nor unrecognised, nor itself an extension. *)
Theorem pass_completes (cfg : config) (lines : list string) (toks : list token) :
  tokenize cfg lines = Some toks →
  (fix_file_width cfg = true →
   ∀ i e, toks !! i = Some e → is_ext e →
          i = 0%nat ∨ ∃ j p, i = S j ∧ toks !! j = Some p ∧ takes_extension p) →
  is_Some (process_tokens cfg toks).
Proof.
  intros Htok Hext.
  pose proof (tokenize_shaped cfg lines toks Htok) as Hshaped.
  pose (J := fun (n : nat) (b : agg) =>
               length (tokens b) = length toks
               ∧ (∀ k, (n ≤ k)%nat → tokens b !! k = toks !! k)
               ∧ (∀ j t0, S j = n → toks !! j = Some t0 →
                          ∃ tp, tokens b !! j = Some tp ∧ handled cfg t0 tp)).
  destruct (process_from_completes cfg J (length toks) 0 (agg_init toks))
    as (a & Ha & _); [| |unfold process_tokens; eauto].
  - intros k b Hk (Hlen & Hrest & Hprev).
    destruct (lookup_lt_is_Some_2 toks k ltac:(lia)) as [t Ht].
    assert (Htb : tokens b !! k = Some t) by (rewrite Hrest by lia; exact Ht).
    pose proof (Forall_lookup_1 _ _ _ _ Hshaped Ht) as Hs.
    destruct (process_token_completes cfg k b t Htb Hs) as [b' Hb'].
    { intros Hfix Hx.
      destruct (Hext Hfix k t Ht Hx) as [->|(j & p & -> & Hp & Htake)];
        [left; reflexivity|].
      right. destruct (Hprev j p eq_refl Hp) as (tp & Htp & Hh).
      exists j, tp. split; [reflexivity|]. split; [exact Htp|].
      apply (handled_extendable cfg p tp); [|exact Htake|exact Hh].
      exact (Forall_lookup_1 _ _ _ _ Hshaped Hp). }
    exists b'. split; [exact Hb'|].
    apply process_token_inv in Hb'
      as (tn & t' & Htn & Ht' & Hlen' & Hframe & _ & Hh & _).
    split; [congruence|]. split.
    + intros k' Hk'. rewrite Hframe by lia. apply Hrest. lia.
    + intros j t0 Hj Ht0. injection Hj as ->.
      exists t'. split; [exact Ht'|]. congruence.
  - split; [reflexivity|]. split; [reflexivity|]. intros j t0 Hj. discriminate.
Qed.

Lemma pass_completes_witness :
  is_Some (process_tokens DEFAULT_CONFIG hello_tokens).
Proof.
  apply (pass_completes DEFAULT_CONFIG hello_lines hello_tokens).
  - vm_compute. reflexivity.
  - intros _ i e Hi Hx.
    destruct i as [|[|[|i]]]; [left; reflexivity | | |discriminate Hi].
    + right. eexists 0%nat, _. split; [reflexivity|]. split; [reflexivity|].
      split; [discriminate|]. split; [discriminate|].
      intros [_ Hsub]. discriminate Hsub.
    + exfalso. injection Hi as <-. destruct Hx as [Hty _]. discriminate Hty.
Defined.

Section config_step.
Import stdpp.gmap.

(** ** The configuration step *)





(** The updated file keeps the tab size of the old one, has the
    default width, and not the old file's unknown setting. *)
Example old_items_updated :
  ∃ r, load_config (Some old_items) = Some r
       ∧ cfg_dict r !! "tab_size" = Some (JInt 4)
       ∧ cfg_dict r !! "file_width" = Some (JInt 80)
       ∧ cfg_dict r !! "colour" = None
       ∧ cfg_dict r !! "_CONFIG_VERSION" = Some (JStr "0.7").
Proof. eexists. split; [reflexivity|]. vm_compute. repeat split. Qed.



End config_step.

(** ** The comment at the end of a line *)

Lemma prefix_chr (c d : ascii) (s : string) :
  String.prefix (String c EmptyString) (String d s) = Ascii.eqb c d.
Proof.
  change (String.prefix (String c EmptyString) (String d s))
    with (if ascii_dec c d then String.prefix EmptyString s else false).
  destruct (ascii_dec c d) as [->|Hne].
  - rewrite Ascii.eqb_refl. destruct s; reflexivity.
  - symmetry. apply Ascii.eqb_neq. exact Hne.
Qed.

Lemma find_from_first (c : ascii) (code tail : string) :
  has_chr c code = false →
  ∀ i, Py.find_from (String c EmptyString) (code +:+ String c tail) i
       = i + Py.len code.
Proof.
  induction code as [|d code IH]; intros Hno i.
  - change (EmptyString +:+ String c tail) with (String c tail).
    cbn [Py.find_from]. rewrite prefix_chr, Ascii.eqb_refl.
    unfold Py.len. cbn. lia.
  - cbn [has_chr] in Hno. apply orb_false_elim in Hno as [Hd Hno].
    rewrite append_cons. cbn [Py.find_from]. rewrite prefix_chr, Hd.
    rewrite IH by exact Hno. unfold Py.len. cbn [String.length]. lia.
Qed.

Lemma drop_append (s t : string) : Py.drop (String.length s) (s +:+ t) = t.
Proof. induction s as [|c s IH]; [destruct t; reflexivity | exact IH]. Qed.

Lemma drop_drop (n m : nat) (s : string) :
  Py.drop (n + m) s = Py.drop m (Py.drop n s).
Proof.
  revert s. induction n as [|n IH]; intros s.
  - destruct s; reflexivity.
  - destruct s as [|c s]; [destruct m; reflexivity | apply IH].
Qed.

Lemma length_drop (n : nat) (s : string) :
  String.length (Py.drop n s) = (String.length s - n)%nat.
Proof.
  revert s. induction n as [|n IH]; intros s.
  - destruct s; cbn; lia.
  - destruct s as [|c s]; [reflexivity | apply IH].
Qed.

Lemma drop_all (n : nat) (s : string) :
  (String.length s ≤ n)%nat → Py.drop n s = EmptyString.
Proof.
  revert s. induction n as [|n IH]; intros s Hn.
  - destruct s; [reflexivity | cbn in Hn; lia].
  - destruct s as [|c s]; [reflexivity | apply IH; cbn in Hn; lia].
Qed.

Lemma slice_to_end (s : string) (a : nat) :
  Py.slice s (Some (Z.of_nat a)) None = Py.drop a s.
Proof.
  unfold Py.slice, Py.norm_index, Py.len. cbn [from_option].
  destruct (Z.ltb_spec (Z.of_nat a) 0) as [Hneg|_]; [lia|].
  destruct (Nat.le_gt_cases a (String.length s)) as [Hle|Hgt].
  - rewrite Z.min_l by lia. rewrite Nat2Z.id.
    replace (Z.to_nat (Z.of_nat (String.length s) - Z.of_nat a))
      with (String.length (Py.drop a s)) by (rewrite length_drop; lia).
    apply take_all.
  - rewrite Z.min_r by lia. rewrite Nat2Z.id, Z.sub_diag.
    rewrite (drop_all a) by lia.
    rewrite (drop_all (String.length s)) by lia. reflexivity.
Qed.

(** The comment of a line is what follows its first semicolon and the
    one character after it: that character, a space in a well-spaced
    line, is dropped whatever it is. *)
Theorem comment_skips_one_character (code tail : string) :
  code ≠ EmptyString → has_chr ";" code = false →
  trailing_comment (code +:+ String ";" tail) = PyStr (Py.drop 1 tail).
Proof.
  intros Hne Hno. unfold trailing_comment, Py.find.
  rewrite (find_from_first ";" code tail Hno 0).
  assert (Hpos : 0 < Py.len code).
  { unfold Py.len. destruct code; [contradiction | cbn; lia]. }
  destruct (Z.ltb_spec 0 (0 + Py.len code)) as [_|Hle]; [|lia].
  f_equal. unfold Py.len.
  replace (0 + Z.of_nat (String.length code) + 2)
    with (Z.of_nat (String.length code + 2)) by lia.
  rewrite slice_to_end, drop_drop, drop_append. reflexivity.
Qed.

Lemma comment_skips_one_character_witness :
  trailing_comment ("ret" +:+ String ";" "done") = PyStr (Py.drop 1 "done").
Proof.
  apply (comment_skips_one_character "ret" "done"); [discriminate | reflexivity].
Defined.

(** ** What the pass does to the text of a line *)

Lemma touched_value (tp tp' : token) :
  touched tp tp' → tk_type tp ≠ comment → tk_value tp' = tk_value tp.
Proof.
  intros [->|[(x & -> & Hty)|(x & -> & _)]] Hne;
    [reflexivity | contradiction | reflexivity].
Qed.

Lemma capitalize_directive (cfg : config) (t t' : token) (v : string) :
  capitalize cfg t = Some t' → tk_type t = directive →
  tk_value t = Some (PyStr v) →
  tk_value t'
  = Some (PyStr (if fix_capitalization cfg then Py.upper v else v)).
Proof.
  unfold capitalize. intros H Hty Hv.
  destruct (fix_capitalization cfg); [|congruence].
  destruct (tk_mnemonic t); cbn in H; destruct (tk_directive t); cbn in H;
    rewrite bool_decide_eq_true_2 in H by exact Hty;
    rewrite Hv in H; cbn in H; injection H as <-; reflexivity.
Qed.

Opaque respace_commas.

Lemma measure_text (cfg : config) (n : nat) (a a' : agg) (t : token) :
  measure cfg n a = Some a' → tokens a !! n = Some t →
  ∃ t', tokens a' !! n = Some t'
        ∧ (tk_type t = directive → t' = t)
        ∧ (tk_type t = instruction → ∀ x,
           tk_operands t = Some (PyStr x) →
           tk_operands t'
           = Some (PyStr (if add_spaces_between_operands cfg
                          then respace_commas x else x)))
        ∧ (tk_type t = data → ∀ x,
           tk_value t = Some (PyStr x) →
           tk_value t'
           = Some (PyStr (if add_spaces_between_initial_values cfg
                          then respace_commas x else x))).
Proof.
  intros H Ht.
  destruct (measure_inv _ _ _ _ H) as (t1 & t0' & _ & Ht0' & _).
  unfold measure in H. rewrite Ht in H. cbn in H.
  assert (Hlt : (n < length (tokens a))%nat) by (eapply lookup_lt_Some, Ht).
  destruct (tk_type t) eqn:Hty;
    try (exists t0'; split; [exact Ht0'|]; repeat split; intros; discriminate).
  - injection H as <-. exists t. split; [exact Ht|].
    repeat split; intros; (reflexivity || discriminate).
  - destruct (tk_label t) as [l|]; [|discriminate]. cbn in H.
    destruct (tk_directive t) as [d|]; [|discriminate]. cbn in H.
    destruct (add_spaces_between_initial_values cfg).
    + destruct (tk_value t) as [[|x]|] eqn:Hv; cbn in H; [| |discriminate];
        injection H as <-; cbn.
      * exists t. split; [exact Ht|].
        repeat split; intros; (discriminate || congruence).
      * eexists. split; [apply list_lookup_insert_eq; exact Hlt|].
        repeat split; intros; try discriminate. cbn. congruence.
    + cbn in H. injection H as <-. cbn. exists t. split; [exact Ht|].
      repeat split; intros; (discriminate || congruence).
  - destruct (tk_mnemonic t) as [m|]; [|discriminate]. cbn in H.
    destruct (add_spaces_between_operands cfg).
    + destruct (tk_operands t) as [[|x]|] eqn:Hv; cbn in H; [| |discriminate];
        injection H as <-; cbn.
      * exists t. split; [exact Ht|].
        repeat split; intros; (discriminate || congruence).
      * eexists. split; [apply list_lookup_insert_eq; exact Hlt|].
        repeat split; intros; try discriminate. cbn. congruence.
    + cbn in H. injection H as <-. cbn. exists t. split; [exact Ht|].
      repeat split; intros; (discriminate || congruence).
Qed.

Transparent respace_commas.

Lemma process_token_text (cfg : config) (n : nat) (a a' : agg) (t : token) :
  process_token cfg n a = Some a' → tokens a !! n = Some t →
  tk_type t ≠ comment →
  ∃ t', tokens a' !! n = Some t'
        ∧ (tk_type t = directive → ∀ x,
           tk_value t = Some (PyStr x) →
           tk_value t'
           = Some (PyStr (if fix_capitalization cfg then Py.upper x else x)))
        ∧ (tk_type t = instruction → ∀ x,
           tk_operands t = Some (PyStr x) →
           tk_operands t'
           = Some (PyStr (if add_spaces_between_operands cfg
                          then respace_commas x else x)))
        ∧ (tk_type t = data → ∀ x,
           tk_value t = Some (PyStr x) →
           tk_value t'
           = Some (PyStr (if add_spaces_between_initial_values cfg
                          then respace_commas x else x))).
Proof.
  unfold process_token. intros H Ht Hne.
  assert (Hlt : (n < length (tokens a))%nat) by (eapply lookup_lt_Some, Ht).
  destruct (merge_extension cfg n (tokens a)) as [toks1|] eqn:Hm;
    [|discriminate]. cbn in H.
  apply merge_extension_inv in Hm
    as (tn & Hn & [->|(j & tp & tp' & _ & _ & [Hx _] & _)]);
    [|congruence].
  rewrite Ht in H. cbn in H.
  destruct (capitalize cfg t) as [t2|] eqn:Hc; [|discriminate]. cbn in H.
  destruct (measure_text cfg n _ a' t2 H) as (t' & Ht' & M1 & M2 & M3).
  { cbn. apply list_lookup_insert_eq. exact Hlt. }
  pose proof (capitalize_value cfg t t2 Hc) as Hval.
  pose proof (capitalize_inv cfg t t2 Hc) as (C1 & _ & _ & _ & _ & _ & _ & C8 & _).
  exists t'. split; [exact Ht'|]. split; [|split].
  - intros Hty x Hv. rewrite M1 by congruence.
    eapply capitalize_directive; eauto.
  - intros Hty x Hv. apply M2; congruence.
  - intros Hty x Hv. apply M3; [congruence|].
    rewrite Hval by congruence. exact Hv.
Qed.

(** The pass upper-cases the whole text of a directive line, with
    [fix_capitalization]; it puts one space after every comma of an
    instruction's operands, with [add_spaces_between_operands], and of a
    data line's initial values, with [add_spaces_between_initial_values];
    without the option the text stays as it is. *)
Theorem pass_rewrites_text (cfg : config) (toks : list token) (a : agg)
    (k : nat) (t0 : token) :
  process_tokens cfg toks = Some a →
  toks !! k = Some t0 →
  ∃ t, tokens a !! k = Some t
       ∧ (tk_type t0 = directive → ∀ x,
          tk_value t0 = Some (PyStr x) →
          tk_value t
          = Some (PyStr (if fix_capitalization cfg then Py.upper x else x)))
       ∧ (tk_type t0 = instruction → ∀ x,
          tk_operands t0 = Some (PyStr x) →
          tk_operands t
          = Some (PyStr (if add_spaces_between_operands cfg
                         then respace_commas x else x)))
       ∧ (tk_type t0 = data → ∀ x,
          tk_value t0 = Some (PyStr x) →
          tk_value t
          = Some (PyStr (if add_spaces_between_initial_values cfg
                         then respace_commas x else x))).
Proof.
  intros H Hk.
  destruct (pass_effect cfg toks a H) as [Hlen Hall].
  destruct (Hall k t0 Hk) as (t & Ht & _).
  exists t. split; [exact Ht|].
  destruct (decide (tk_type t0 = comment)) as [Hc|Hne].
  { repeat split; intros; congruence. }
  pose (Q := fun (t1 : token) =>
               tk_type t1 ≠ comment
               ∧ (tk_type t0 = directive → ∀ x,
                  tk_value t0 = Some (PyStr x) →
                  tk_value t1
                  = Some (PyStr (if fix_capitalization cfg
                                 then Py.upper x else x)))
               ∧ (tk_type t0 = instruction → ∀ x,
                  tk_operands t0 = Some (PyStr x) →
                  tk_operands t1
                  = Some (PyStr (if add_spaces_between_operands cfg
                                 then respace_commas x else x)))
               ∧ (tk_type t0 = data → ∀ x,
                  tk_value t0 = Some (PyStr x) →
                  tk_value t1
                  = Some (PyStr (if add_spaces_between_initial_values cfg
                                 then respace_commas x else x)))).
  pose (I := fun (n : nat) (b : agg) =>
               (∀ j, (n ≤ j)%nat → tokens b !! j = toks !! j)
               ∧ ((k < n)%nat → ∃ t1, tokens b !! k = Some t1 ∧ Q t1)).
  assert (HI : I (length toks) a).
  { apply (process_tokens_invariant cfg I toks a); [| |exact H].
    - intros n b b' Hn (Hrest & Hdone) Hstep.
      pose proof Hstep as Hstep'.
      apply process_token_inv in Hstep
        as (tn & t' & Htn & Ht' & _ & Hframe & Hprev & Hh & _).
      split; [intros j Hj; rewrite Hframe by lia; apply Hrest; lia|].
      intros Hkn.
      destruct (decide (k = n)) as [->|Hkn'].
      + rewrite Hrest in Htn by lia.
        assert (tn = t0) as -> by congruence.
        assert (Hb : tokens b !! n = Some t0) by (rewrite Hrest by lia; exact Hk).
        destruct (process_token_text cfg n b b' t0 Hstep' Hb Hne)
          as (t1 & Ht1 & T1 & T2 & T3).
        assert (t1 = t') as -> by congruence.
        exists t'. split; [exact Ht'|]. split; [|auto].
        destruct (proj1 Hh) as [E|[E _]]; rewrite E; [exact Hne | discriminate].
      + destruct (Hdone ltac:(lia)) as (t1 & Ht1 & Hq1 & Q1 & Q2 & Q3).
        destruct (decide (S k = n)) as [Hs|Hs].
        * destruct (Hprev k t1 (eq_sym Hs) Ht1) as (tp' & Htp' & Htouch).
          exists tp'. split; [exact Htp'|].
          pose proof (touched_value _ _ Htouch Hq1) as Hv.
          destruct (touched_fields _ _ Htouch)
            as (_ & _ & _ & _ & _ & _ & _ & Ho).
          split; [rewrite (touched_type _ _ Htouch); exact Hq1|].
          rewrite Hv, Ho. auto.
        * exists t1. rewrite Hframe by lia. split; [exact Ht1|].
          split; [exact Hq1 | auto].
    - split; [reflexivity|]. intros Hk0. lia. }
  destruct HI as [_ Hdone].
  destruct Hdone as (t1 & Ht1 & _ & Q1 & Q2 & Q3);
    [eapply lookup_lt_Some, Hk|].
  assert (t1 = t) as -> by congruence. auto.
Qed.

Lemma pass_rewrites_text_witness :
  ∃ t, (∃ a, process_tokens DEFAULT_CONFIG hello_tokens = Some a
             ∧ tokens a !! 2%nat = Some t)
       ∧ tk_operands t = Some (PyStr (respace_commas "eax, 1")).
Proof.
  destruct (pass_rewrites_text DEFAULT_CONFIG hello_tokens
              (default (agg_init []) (process_tokens DEFAULT_CONFIG hello_tokens))
              2
              (set_comment PyNone
                 (set_operands (PyStr "eax, 1")
                    (set_mnemonic "mov" (mk_token instruction)))))
    as (t & Ht & _ & Hop & _).
  - vm_compute. reflexivity.
  - vm_compute. reflexivity.
  - exists t. split.
    + eexists. split; [vm_compute; reflexivity | exact Ht].
    + apply Hop; reflexivity.
Defined.
